(** * tinynn-autograd: the GPU strided-array engine

    A shallow embedding of [core/ndarray.py] (class [GPUArray]) and
    [core/ops_gpu.py] (kernel cache, broadcasting and the kernel dispatchers),
    with the properties of the design document stated over it.

    Python objects live in an object store and are named by references, device
    buffers live in a buffer store and are named by handles; every method is a
    computation in a state-and-exception monad over both stores and the
    kernel cache. *)

From stdpp Require Import base list strings pretty.
From Stdlib Require Import ZArith Lia Sorted.

Local Open Scope Z_scope.

(** ** Exceptions and results *)

(** The exceptions the two modules can raise.  [AssertionError] carries the
    constant prefix of the assertion message, [CLError] the OpenCL status.
    [BadReference] belongs to the model only: it is the outcome of using a
    reference or a handle that names nothing, which no Python program can
    produce. *)
Inductive exn : Type :=
  | AssertionError (msg : string)
  | ValueError (msg : string)
  | AttributeError (attr : string)
  | IndexError
  | KeyError (key : string)
  | ZeroDivisionError
  | RecursionError
  | CLError (status : string)
  | BadReference.

Inductive result (A : Type) : Type :=
  | Ok (a : A)
  | Raise (e : exn).
Arguments Ok {A} a.
Arguments Raise {A} e.

Definition is_ok {A} (r : result A) : bool :=
  match r with Ok _ => true | Raise _ => false end.

(** ** Element type

    The only element type of the kernels is the 32-bit float.  Its values and
    operations are kept abstract; [f_uninit] stands for the content of device
    memory that was allocated and never written. *)
Class Float32 (T : Type) : Type := {
  f_zero : T;
  f_uninit : T;
  f_add : T → T → T;
  f_sub : T → T → T;
  f_mul : T → T → T;
  f_div : T → T → T;
  f_neg : T → T;
  f_log : T → T;
  f_exp : T → T;
  f_max : T → T → T
}.

(** Integers with exact arithmetic: float32 arithmetic on small integers
    (as in [np.arange] test data) is exact.  [f_log] and [f_exp] have no
    integer counterpart and are only placeholders here. *)
Definition Z_float32 : Float32 Z := {|
  f_zero := 0; f_uninit := 0;
  f_add := Z.add; f_sub := Z.sub; f_mul := Z.mul; f_div := Z.div;
  f_neg := Z.opp; f_log := λ x, x; f_exp := λ x, x; f_max := Z.max
|}.

(** [utils.dtype]: only [float32] exists; [dtype().itemsize] is 4. *)
Inductive dtype : Type := float32.
Definition itemsize (d : dtype) : Z := 4.

(** ** Python sequences *)

(** Modelled from the spec: [utils.math.prod], the product of a shape
    (the module [utils/math.py] is not part of the sources). *)
Definition prod (l : list Z) : Z := foldr Z.mul 1 l.

(** [l[i]] for a Python integer [i]: negative indices count from the end. *)
Definition py_index {A} (l : list A) (i : Z) : option A :=
  if i <? 0 then
    (if i + Z.of_nat (length l) <? 0 then None
     else l !! Z.to_nat (i + Z.of_nat (length l)))
  else l !! Z.to_nat i.

(** [sorted(l)] on integers. *)
Fixpoint insert_sorted (x : Z) (l : list Z) : list Z :=
  match l with
  | [] => [x]
  | y :: l' => if x <=? y then x :: l else y :: insert_sorted x l'
  end.
Definition sorted (l : list Z) : list Z := foldr insert_sorted [] l.

(** [tuple(prod(shape[i+1:]) for i in range(len(shape)))] *)
Fixpoint c_strides (shape : list Z) : list Z :=
  match shape with
  | [] => []
  | _ :: rest => prod rest :: c_strides rest
  end.

(** [tuple(prod(shape[:i]) for i in range(len(shape)))] *)
Definition f_strides (shape : list Z) : list Z :=
  (λ i, prod (take i shape)) <$> seq 0 (length shape).

(** [(s for i, s in enumerate(l) if i not in reduce)] *)
Definition not_in_axes {A} (reduce : list nat) (l : list A) : list A :=
  omap (λ p : nat * A, if bool_decide (p.1 ∈ reduce) then None else Some p.2)
       (zip (seq 0 (length l)) l).

(** The index vectors of an ND-range, in row-major order.  The order in
    which the device runs the work-items is not specified; the model runs
    them in this order. *)
Fixpoint grid (dims : list Z) : list (list Z) :=
  match dims with
  | [] => [[]]
  | d :: ds => seqZ 0 d ≫= λ i, (i ::.) <$> grid ds
  end.

Definition dot (xs ys : list Z) : Z := foldr Z.add 0 (zip_with Z.mul xs ys).

(** A tuple never compares equal to a list in Python, whatever the items:
    [t != l] is [True] for every tuple [t] and list [l]. *)
Definition tuple_ne_list (t l : list Z) : bool := true.

(** ** Descriptors, stores and the monad *)

Abbreviation ref := nat (only parsing).
Abbreviation handle := nat (only parsing).

(** The attributes [GPUArray.__init__] sets on an instance. *)
Record GPUArray : Type := mkGPUArray {
  buffer : handle;
  shape : list Z;
  dtype_of : dtype;
  strides : list Z;
  offset : Z;
  c_contiguous : bool;
  f_contiguous : bool
}.

Definition set_shape (s : list Z) (x : GPUArray) : GPUArray :=
  mkGPUArray (buffer x) s (dtype_of x) (strides x) (offset x)
             (c_contiguous x) (f_contiguous x).
Definition set_strides (s : list Z) (x : GPUArray) : GPUArray :=
  mkGPUArray (buffer x) (shape x) (dtype_of x) s (offset x)
             (c_contiguous x) (f_contiguous x).
Definition set_offset (o : Z) (x : GPUArray) : GPUArray :=
  mkGPUArray (buffer x) (shape x) (dtype_of x) (strides x) o
             (c_contiguous x) (f_contiguous x).
Definition set_contiguous (c f : bool) (x : GPUArray) : GPUArray :=
  mkGPUArray (buffer x) (shape x) (dtype_of x) (strides x) (offset x) c f.

(** The key of [lru_cache]: the positional arguments [(name, program)]. *)
Abbreviation cache_key := (string * string)%type (only parsing).

(** A compiled kernel, identified by the number of the compilation that
    produced it. *)
Abbreviation kernel := nat (only parsing).

Section Engine.
Context {T : Type} {F : Float32 T}.

(** The object store, the device buffers, the entries of the [lru_cache]
    around [cl_build] (most recently used first) and the number of
    compilations so far. *)
Record world : Type := mkWorld {
  objs : list GPUArray;
  bufs : list (list T);
  cache : list (cache_key * kernel);
  builds : nat
}.

Definition set_objs (o : list GPUArray) (w : world) : world :=
  mkWorld o (bufs w) (cache w) (builds w).
Definition set_bufs (b : list (list T)) (w : world) : world :=
  mkWorld (objs w) b (cache w) (builds w).

Definition M (A : Type) : Type := world → result A * world.

Definition ret {A} (a : A) : M A := λ w, (Ok a, w).
Definition raise {A} (e : exn) : M A := λ w, (Raise e, w).
Definition bind {A B} (m : M A) (k : A → M B) : M B :=
  λ w, match m w with
       | (Ok a, w') => k a w'
       | (Raise e, w') => (Raise e, w')
       end.

End Engine.

Arguments world T : clear implicits.
Arguments M T A : clear implicits.
Arguments mkWorld {T} _ _ _ _.

Notation "x <- m ;; k" := (bind m (λ x, k))
  (at level 100, m at next level, right associativity).
Notation "m ;;; k" := (bind m (λ _, k))
  (at level 100, right associativity).

(** A host ([numpy]) array: its shape and its elements in row-major order. *)
Record ndarray (T : Type) : Type := mkNdarray {
  nd_shape : list Z;
  nd_dtype : dtype;
  nd_data : list T
}.
Arguments mkNdarray {T} _ _ _.
Arguments nd_shape {T} _.
Arguments nd_dtype {T} _.
Arguments nd_data {T} _.

(** The first argument of [GPUArray(data, shape, dtype)]: a device buffer,
    host data, or [None].  Host data is a list or an array that lies in
    memory in row-major order ([FromHost]), or an array that lies in memory
    in column-major order ([FromHostF], as [np.asfortranarray] or the
    transpose of a C-ordered array gives); [np.asarray] keeps the order.
    In both cases the record holds the shape and the elements in row-major
    order of their indices. *)
Inductive init_data (T : Type) : Type :=
  | FromBuffer (h : handle)
  | FromHost (a : ndarray T)
  | FromHostF (a : ndarray T)
  | NoData.
Arguments FromBuffer {T} h.
Arguments FromHost {T} a.
Arguments FromHostF {T} a.
Arguments NoData {T}.

Section Stores.
Context {T : Type} {F : Float32 T}.

(** *** Objects *)

Definition deref (r : ref) : M T GPUArray :=
  λ w, match objs w !! r with
       | Some x => (Ok x, w)
       | None => (Raise BadReference, w)
       end.

(** An attribute assignment [r.attr = v] on the object named by [r]. *)
Definition assign (r : ref) (f : GPUArray → GPUArray) : M T unit :=
  λ w, match objs w !! r with
       | Some x => (Ok (), set_objs (<[r := f x]> (objs w)) w)
       | None => (Raise BadReference, w)
       end.

Definition new_object (x : GPUArray) : M T ref :=
  λ w, (Ok (length (objs w)), set_objs (objs w ++ [x]) w).

(** [copy.copy(self)]: a new object with the same attribute values; the
    buffer is shared. *)
Definition copy_copy (self : ref) : M T ref :=
  x <- deref self ;; new_object x.

(** *** Device buffers *)

Definition new_buffer (data : list T) : M T handle :=
  λ w, (Ok (length (bufs w)), set_bufs (bufs w ++ [data]) w).

Definition read_buffer (h : handle) : M T (list T) :=
  λ w, match bufs w !! h with
       | Some b => (Ok b, w)
       | None => (Raise BadReference, w)
       end.

(** An access of a work-item outside the buffer is undefined behaviour on
    the device; the model stops with this error. *)
Definition out_of_bounds : exn := CLError "out of bounds access".

Definition load (h : handle) (i : Z) : M T T :=
  b <- read_buffer h ;;
  if i <? 0 then raise out_of_bounds
  else match b !! Z.to_nat i with
       | Some v => ret v
       | None => raise out_of_bounds
       end.

Definition store (h : handle) (i : Z) (v : T) : M T unit :=
  b <- read_buffer h ;;
  if (i <? 0) || (Z.of_nat (length b) <=? i) then raise out_of_bounds
  else λ w, (Ok (), set_bufs (<[h := <[Z.to_nat i := v]> b]> (bufs w)) w).

(** [for x in l: body(x)] *)
Fixpoint for_each {A} (l : list A) (body : A → M T unit) : M T unit :=
  match l with
  | [] => ret ()
  | x :: l' => body x ;;; for_each l' body
  end.

(** *** The kernel cache: [@lru_cache() def cl_build(name, program)]

    [lru_cache()] keeps at most [maxsize=128] entries.  A hit returns the
    stored callable and makes the entry the most recent one; a miss compiles,
    stores the new entry as the most recent one and, when the cache is full,
    drops the least recently used one. *)
Definition lru_maxsize : nat := 128.

Definition cl_build (name program : string) : M T kernel :=
  λ w, match list_find (λ e : cache_key * kernel, e.1 = (name, program))
                       (cache w) with
       | Some (i, e) =>
           (Ok e.2, mkWorld (objs w) (bufs w) (e :: delete i (cache w))
                            (builds w))
       | None =>
           (Ok (builds w),
            mkWorld (objs w) (bufs w)
                    (take lru_maxsize (((name, program), builds w) :: cache w))
                    (S (builds w)))
       end.

(** *** [alloc_buffer(shape, dtype, hostbuf=None)]

    [size] bytes hold [prod shape] elements; [clCreateBuffer] rejects a size
    of zero.  Without [hostbuf] the content is whatever the device memory
    holds. *)
Definition alloc_buffer (shape : list Z) (dt : dtype)
    (hostbuf : option (list T)) : M T handle :=
  let size := itemsize dt * prod shape in
  if size <=? 0 then raise (CLError "INVALID_BUFFER_SIZE")
  else match hostbuf with
       | Some data => new_buffer data
       | None => new_buffer (replicate (Z.to_nat (prod shape)) f_uninit)
       end.

(** *** [GPUArray.update_contiguousness] *)

(** [[self.strides[i] for i in range(self.ndim) if self.shape[i] != 1]];
    [None] when [self.strides[i]] does not exist. *)
Definition non_unit_strides (x : GPUArray) : option (list Z) :=
  mapM (λ i, strides x !! i)
       (filter (λ i, shape x !! i ≠ Some 1) (seq 0 (length (shape x)))).

Definition update_contiguousness (self : ref) : M T unit :=
  x <- deref self ;;
  match non_unit_strides x with
  | None => raise IndexError
  | Some strides =>
      let sorted_strides := sorted strides in
      assign self (λ o, set_contiguous (c_contiguous o)
                          (bool_decide (sorted_strides = strides)) o) ;;;
      assign self (λ o, set_contiguous
                          (bool_decide (reverse sorted_strides = strides))
                          (f_contiguous o) o)
  end.

(** The memory of a host array in column-major order: position by
    position, the element whose index is the reversed index vector of the
    row-major enumeration of the reversed shape. *)
Definition f_order_memory (shape : list Z) (data : list T) : list T :=
  (λ idx, default f_uninit
            (data !! Z.to_nat (dot (reverse idx) (c_strides shape))))
    <$> grid (reverse shape).

(** *** [GPUArray.__init__(data=None, shape=None, dtype=float32)]

    [cl.Buffer(..., hostbuf=data)] copies the memory of the host array as
    it lies.

    [register_ops] rebinds the operator methods on the class; it touches no
    descriptor and no buffer and is left out. *)
Definition GPUArray_init (data : init_data T) (shape : option (list Z))
    (dt : dtype) : M T ref :=
  bs <- match data with
        | FromBuffer h =>
            match shape with
            | None => raise (AssertionError
                "cannot infer shape when initialize using clbuffer")
            | Some s => ret (h, s)
            end
        | FromHost a =>
            h <- alloc_buffer (nd_shape a) dt (Some (nd_data a)) ;;
            ret (h, nd_shape a)
        | FromHostF a =>
            h <- alloc_buffer (nd_shape a) dt
                   (Some (f_order_memory (nd_shape a) (nd_data a))) ;;
            ret (h, nd_shape a)
        | NoData =>
            match shape with
            | None => raise (AssertionError
                "cannot infer shape when without data")
            | Some s => h <- alloc_buffer s dt None ;; ret (h, s)
            end
        end ;;
  self <- new_object (mkGPUArray bs.1 bs.2 dt (c_strides bs.2) 0 true false) ;;
  update_contiguousness self ;;;
  ret self.

End Stores.

(** ** Generated kernel sources

    The text each dispatcher hands to [cl_build]; it is the second half of
    the cache key. *)

(** [str(i)] inside an f-string. *)
Definition fmt (i : nat) : string := pretty i.

(** ["".join([f i for i in range(n)])] *)
Definition join_range (sep : string) (n : nat) (f : nat → string) : string :=
  String.concat sep (f <$> seq 0 n).

Definition unary_op_src (expr : string) (n : nat) : string :=
  "
    __kernel void unary_op(" +:+
  join_range "" n (λ i, "int a_s" +:+ fmt i +:+ ", int res_s" +:+ fmt i +:+ ", ") +:+
  "__global const float *A, __global float *res_g) {
      int res_i = 0, a_i = 0;" +:+
  join_range "" n (λ i,
    "int idx" +:+ fmt i +:+ "=get_global_id(" +:+ fmt i +:+ "); res_i+=idx" +:+
    fmt i +:+ "*res_s" +:+ fmt i +:+ "; a_i+=idx" +:+ fmt i +:+ "*a_s" +:+
    fmt i +:+ ";") +:+
  "
      float a = A[a_i];
      res_g[res_i] = " +:+ expr +:+ ";
    }
    ".

Definition binary_op_src (expr : string) (n : nat) : string :=
  "
    __kernel void binary_op(" +:+
  join_range "" n (λ i,
    "int a_s" +:+ fmt i +:+ ", int b_s" +:+ fmt i +:+ ", int res_s" +:+
    fmt i +:+ ", ") +:+
  " __global const float *A, __global const float *B, __global float *res_g) {
      int res_i = 0, a_i = 0, b_i = 0;" +:+
  join_range "" n (λ i,
    "const int idx" +:+ fmt i +:+ " = get_global_id(" +:+ fmt i +:+
    "); res_i += idx" +:+ fmt i +:+ "*res_s" +:+ fmt i +:+ "; a_i += idx" +:+
    fmt i +:+ "*a_s" +:+ fmt i +:+ "; b_i += idx" +:+ fmt i +:+ "*b_s" +:+
    fmt i +:+ ";") +:+
  "
      float a = A[a_i], b = B[b_i];
      res_g[res_i] = " +:+ expr +:+ ";
    }
    ".

Definition matmul_op_src : string :=
  "
    __kernel void matmul_op(const int M, const int N, const int K,
        const int A_c_conus, const int B_c_conus,
        __global const float *A, __global const float *B, __global float *C) {
      int m = get_global_id(0), n = get_global_id(1);
      float acc = 0.0f;
      int A_idx, B_idx;
      for (int k=0; k<K; k++) {
        A_idx = A_c_conus ? m*K + k : k*M + m;
        B_idx = B_c_conus ? k*N + n : n*K + k;
        acc += A[A_idx] * B[B_idx];
      }
      C[m * N + n] = acc;
    }
    ".

(** ["*".join(f"{v}{j}" for j in range(lo, hi))] *)
Definition join_vars (v : string) (lo hi : nat) : string :=
  String.concat "*" ((λ j, v +:+ fmt j) <$> seq lo (hi - lo)).

Definition contiguous_op_src (ndims : nat) : string :=
  "
    __kernel void contiguous_op(" +:+
  join_range "" ndims (λ i, "int a" +:+ fmt i +:+ ",int b" +:+ fmt i +:+ ",") +:+
  "__global const float *A, __global float *B) {
      int gl_id = get_global_id(0);
      int curr = gl_id;
      " +:+
  join_range ";" (ndims - 1) (λ i,
    "int _s" +:+ fmt i +:+ "=" +:+ join_vars "a" (S i) ndims) +:+
  ";int _s" +:+ pretty (Z.of_nat ndims - 1) +:+ "=1;" +:+
  "
      " +:+
  join_range "" ndims (λ i,
    "int _i" +:+ fmt i +:+ "=curr/_s" +:+ fmt i +:+ "; curr%=_s" +:+ fmt i +:+
    "; ") +:+
  "
      B[gl_id] = A[" +:+
  join_range "+" ndims (λ i, "b" +:+ fmt i +:+ "*_i" +:+ fmt i) +:+
  "];
    }
    ".

(** The three string lists [a], [b], [c] of [reduce_op] and their
    combination ["+".join(f"{a_}*{c_}" ...)]. *)
Definition reduce_terms (a b : list string) : string :=
  let c := ((λ i, String.concat "*" (drop (S i) b)) <$> seq 0 (length b - 1))
           ++ ["1"] in
  String.concat "+" (zip_with (λ a_ c_, a_ +:+ "*" +:+ c_) a c).

Definition reduce_op_src (expr : string) (ndims : nat) (axis : Z) : string :=
  let on_axis (i : nat) := bool_decide (Z.of_nat i = axis) in
  let lcl2gl :=
    reduce_terms
      ((λ i, if on_axis i then "grp_id_" +:+ fmt i else "gl_id_" +:+ fmt i)
         <$> seq 0 ndims)
      ((λ i, "(gl_s_" +:+ fmt i +:+ "/grp_s_" +:+ fmt i +:+ ")")
         <$> seq 0 ndims) in
  let gl2lcl :=
    reduce_terms ((λ i, "gl_id_" +:+ fmt i) <$> seq 0 ndims)
                 ((λ i, "gl_s_" +:+ fmt i) <$> seq 0 ndims) in
  "
    __kernel void reduce_op(
        __global const float *A, __local float *B, __global float *C) {
      " +:+
  join_range "" ndims (λ i,
    "int gl_id_" +:+ fmt i +:+ "=get_global_id(" +:+ fmt i +:+ ");int gl_s_" +:+
    fmt i +:+ "=get_global_size(" +:+ fmt i +:+ ");" +:+
    "int grp_id_" +:+ fmt i +:+ "=get_group_id(" +:+ fmt i +:+ ");int grp_s_" +:+
    fmt i +:+ "=get_local_size(" +:+ fmt i +:+ ");") +:+
  "int lcl_id=get_local_id(" +:+ pretty axis +:+ ");" +:+
  "B[lcl_id] = A[" +:+ gl2lcl +:+ "];" +:+
  "
      barrier(CLK_LOCAL_MEM_FENCE);
      " +:+
  "for (int stride=grp_s_" +:+ pretty axis +:+ ">>1; stride>0; stride>>=1)" +:+
  "
      {
        float a = B[lcl_id], b = B[lcl_id+stride];
        if (lcl_id < stride)
          B[lcl_id] = " +:+ expr +:+ ";
        barrier(CLK_LOCAL_MEM_FENCE);
      }
      if (lcl_id == 0) " +:+ "C[" +:+ lcl2gl +:+ "] = B[0];" +:+
  "
    }".

(** ** Kernel dispatch *)

(** One element of an indexing key: an integer or a slice
    [start:stop:step]. *)
Inductive index_key : Type :=
  | KInt (k : Z)
  | KSlice (start stop step : option Z).

Section Dispatch.
Context {T : Type} {F : Float32 T}.

(** [cl.Program(...).build()] on a source that is not valid OpenCL C. *)
Definition build_failure : exn := CLError "BUILD_PROGRAM_FAILURE".

Definition py_assert (b : bool) (msg : string) : M T unit :=
  if b then ret () else raise (AssertionError msg).

(** [x.name] for a name that neither [__init__] nor the class body of
    [GPUArray] defines. *)
Definition getattr_missing {A} (x : ref) (name : string) : M T A :=
  _ <- deref x ;; raise (AttributeError name).

Definition get_global_id (gid : list Z) (i : nat) : Z := default 0 (gid !! i).

(** [CL_DEVICE_MAX_WORK_ITEM_DIMENSIONS]: the number of dimensions an
    ND-range may have.  The standard asks for at least 3, and 3 is what the
    devices offer. *)
Definition max_work_item_dimensions : nat := 3.

(** [kernel(queue, global_size, None, *args)]: the number of work
    dimensions is the length of [global_size] and must lie between 1 and
    [max_work_item_dimensions]. *)
Definition enqueue_nd_range (global_size : list Z)
    (item : list Z → M T unit) : M T unit :=
  if bool_decide (global_size = []) then raise (CLError "INVALID_WORK_DIMENSION")
  else if bool_decide (max_work_item_dimensions < length global_size)%nat
       then raise (CLError "INVALID_WORK_DIMENSION")
  else if forallb (λ d, 0 <? d) global_size
       then for_each (grid global_size) item
       else raise (CLError "INVALID_GLOBAL_WORK_SIZE").

(** The scalar arguments handed to a kernel must be as many as its
    signature declares. *)
Definition check_args (expected : nat) (args : list Z) : M T unit :=
  if bool_decide (length args = expected) then ret ()
  else raise (CLError "INVALID_KERNEL_ARGS").

Definition arg (args : list Z) (i : nat) : Z := default 0 (args !! i).

(** [["*".join(b[i+1:]) for i in range(n-1)] + ["1"]] as numbers. *)
Definition trailing_products (b : list Z) : list Z :=
  ((λ i, prod (drop (S i) b)) <$> seq 0 (length b - 1)) ++ [1].

(** [int _i0=curr/_s0; curr%=_s0; int _i1=curr/_s1; curr%=_s1; ...] *)
Fixpoint decompose (curr : Z) (ss : list Z) : option (list Z) :=
  match ss with
  | [] => Some []
  | s :: ss' =>
      if s =? 0 then None
      else (Z.quot curr s ::.) <$> decompose (Z.rem curr s) ss'
  end.

(** *** [contiguous_op] *)

(** [sum([[a, b] for a, b in zip(xs, ys)], [])] *)
Definition interleave2 (xs ys : list Z) : list Z :=
  concat (zip_with (λ a b, [a; b]) xs ys).

(** One work-item of the generated gather kernel of rank [ndims]. *)
Definition contiguous_kernel (ndims : nat) (args : list Z) (A B : handle)
    (gid : list Z) : M T unit :=
  let a := (λ i, arg args (2 * i)) <$> seq 0 ndims in
  let b := (λ i, arg args (2 * i + 1)) <$> seq 0 ndims in
  let gl_id := get_global_id gid 0 in
  match decompose gl_id (trailing_products a) with
  | None => raise (CLError "division by zero")
  | Some idx => v <- load A (dot b idx) ;; store B gl_id v
  end.

(** The body of [contiguous_op] once the rank is known: kernel generation,
    argument marshalling and launch.  For rank 0 the generated text declares
    [int _s-1=1] and does not compile. *)
Definition contiguous_dispatch (ndims : nat) (x ret_ : ref) : M T ref :=
  xo <- deref x ;;
  ro <- deref ret_ ;;
  _ <- (if bool_decide (ndims = 0%nat) then raise build_failure
        else cl_build "contiguous_op" (contiguous_op_src ndims)) ;;
  let args := interleave2 (shape xo) (strides xo) in
  check_args (2 * ndims) args ;;;
  enqueue_nd_range [prod (shape xo)]
    (contiguous_kernel ndims args (buffer xo) (buffer ro)) ;;;
  ret ret_.

(** [contiguous_op(x)].  The function reads the rank as [x.ndims]; the class
    defines the property [ndim] and no attribute [ndims]. *)
Definition contiguous_op (x : ref) : M T ref :=
  xo <- deref x ;;
  ret_ <- GPUArray_init NoData (Some (shape xo)) (dtype_of xo) ;;
  ndims <- getattr_missing x "ndims" ;;
  contiguous_dispatch ndims x ret_.

(** ** [GPUArray] methods *)

Definition shape_at (inst : ref) (i : nat) : M T Z :=
  o <- deref inst ;;
  match shape o !! i with Some s => ret s | None => raise IndexError end.

Definition strides_at (inst : ref) (i : nat) : M T Z :=
  o <- deref inst ;;
  match strides o !! i with Some s => ret s | None => raise IndexError end.

(** The loop of [__getitem__]; [reduce] and [shape] are its two local
    lists, the offset and the flags are attributes of [inst]. *)
Fixpoint getitem_loop (inst : ref) (i : nat) (key : list index_key)
    (reduce : list nat) (shape : list Z) : M T (list nat * list Z) :=
  match key with
  | [] => ret (reduce, shape)
  | KInt k :: key' =>
      k <- (if k <? 0 then s <- shape_at inst i ;; ret (k + s) else ret k) ;;
      (if 0 <=? k
       then s <- shape_at inst i ;; py_assert (k <? s) "Invalid indexing"
       else raise (AssertionError "Invalid indexing")) ;;;
      st <- strides_at inst i ;;
      assign inst (λ o, set_offset (offset o + st * k) o) ;;;
      getitem_loop inst (S i) key' (reduce ++ [i]) shape
  | KSlice start stop _ :: key' =>
      let start := default 0 start in
      start <- (if start <? 0 then s <- shape_at inst i ;; ret (start + s)
                else ret start) ;;
      stop <- match stop with
              | None => shape_at inst i
              | Some s => ret s
              end ;;
      stop <- (if stop <? 0 then s <- shape_at inst i ;; ret (stop + s)
               else ret stop) ;;
      (if (0 <=? start) && (start <? stop)
       then s <- shape_at inst i ;; py_assert (stop <=? s) "Invalid slicing"
       else raise (AssertionError "Invalid slicing")) ;;;
      st <- strides_at inst i ;;
      assign inst (λ o, set_offset (offset o + st * start) o) ;;;
      assign inst (set_contiguous false false) ;;;
      getitem_loop inst (S i) key' reduce (<[i := stop - start]> shape)
  end.

(** [GPUArray.__getitem__(self, key)], with a single key already wrapped
    into a tuple. *)
Definition GPUArray_getitem (self : ref) (key : list index_key) : M T ref :=
  inst <- copy_copy self ;;
  io <- deref inst ;;
  rs <- getitem_loop inst 0 key [] (shape io) ;;
  assign inst (set_shape (not_in_axes rs.1 rs.2)) ;;;
  io <- deref inst ;;
  assign inst (set_strides (not_in_axes rs.1 (strides io))) ;;;
  ret inst.

Definition GPUArray_contiguous (self : ref) : M T ref := contiguous_op self.

(** The loop of [expand] over [zip(inst.shape, shape)]. *)
Fixpoint expand_loop (inst : ref) (i : nat) (pairs : list (Z * Z))
    (strides : list Z) : M T (list Z) :=
  match pairs with
  | [] => ret strides
  | (s1, s2) :: rest =>
      (if s1 <? s2 then py_assert (s1 =? 1) "" else ret ()) ;;;
      st <- (if s1 <? s2 then ret 0 else strides_at inst i) ;;
      expand_loop inst (S i) rest (strides ++ [st])
  end.

Definition GPUArray_expand (self : ref) (target : list Z) : M T ref :=
  inst <- copy_copy self ;;
  io <- deref inst ;;
  py_assert (bool_decide (length target = length (shape io))) "" ;;;
  strides <- expand_loop inst 0 (zip (shape io) target) [] ;;
  assign inst (λ o, set_strides strides (set_shape target o)) ;;;
  assign inst (set_contiguous false false) ;;;
  ret inst.

(** [tuple(l[a] for a in axes)] *)
Definition index_all (l : list Z) (axes : list Z) : M T (list Z) :=
  match mapM (py_index l) axes with
  | Some r => ret r
  | None => raise IndexError
  end.

Definition GPUArray_permute (self : ref) (axes : list Z) : M T ref :=
  inst <- copy_copy self ;;
  io <- deref inst ;;
  st <- index_all (strides io) axes ;;
  assign inst (set_strides st) ;;;
  io <- deref inst ;;
  sh <- index_all (shape io) axes ;;
  assign inst (set_shape sh) ;;;
  update_contiguousness inst ;;;
  ret inst.

(** The property [T]: [permute] with the axes reversed. *)
Definition GPUArray_T (self : ref) : M T ref :=
  so <- deref self ;;
  GPUArray_permute self (Z.of_nat <$> reverse (seq 0 (length (shape so)))).

(** [shape.index(-1)] for a shape that contains [-1]. *)
Definition index_of_minus_one (shape : list Z) : nat :=
  default 0%nat (fst <$> list_find (λ s, s = -1) shape).

(** [reshape] calls itself on the materialised copy of a view that is
    neither C- nor F-contiguous; [fuel] bounds the depth of the calls as the
    interpreter's recursion limit does. *)
Fixpoint reshape_rec (fuel : nat) (self : ref) (target : list Z) : M T ref :=
  match fuel with
  | O => raise RecursionError
  | S fuel' =>
      so <- deref self ;;
      target <-
        (if bool_decide (-1 ∈ target) then
           let size := prod (shape so) in
           py_assert (Nat.leb (length (filter (λ s, s = -1) target)) 1)
                     "Only one dimension can be inferred" ;;;
           let axis := index_of_minus_one target in
           let infer := prod (filter (λ s, s ≠ -1) target) in
           (if infer =? 0 then raise ZeroDivisionError
            else py_assert (size `mod` infer =? 0) "Shape invalid for size") ;;;
           ret (take axis target ++ [size `div` infer] ++ drop (S axis) target)
         else ret target) ;;
      py_assert (prod target =? prod (shape so)) "Can not reshape" ;;;
      if c_contiguous so || f_contiguous so then
        inst <- copy_copy self ;;
        let strides :=
          if c_contiguous so then c_strides target else f_strides target in
        assign inst (λ o, set_strides strides (set_shape target o)) ;;;
        update_contiguousness inst ;;;
        ret inst
      else
        c <- GPUArray_contiguous self ;;
        reshape_rec fuel' c target
  end.

Definition recursion_limit : nat := 1000.

Definition GPUArray_reshape (self : ref) (target : list Z) : M T ref :=
  reshape_rec recursion_limit self target.

(** [numpy()]: a blocking copy of the materialised buffer into a new host
    array of the view's shape.  [numpy_via] is its body with the call
    [self.contiguous()] as a parameter. *)
Definition numpy_via (contiguous : ref → M T ref) (self : ref)
    : M T (ndarray T) :=
  so <- deref self ;;
  c <- contiguous self ;;
  co <- deref c ;;
  data <- read_buffer (buffer co) ;;
  let n := Z.to_nat (prod (shape so)) in
  if bool_decide (n ≤ length data)%nat
  then ret (mkNdarray (shape so) (dtype_of so) (take n data))
  else raise (CLError "INVALID_VALUE").

Definition GPUArray_numpy (self : ref) : M T (ndarray T) :=
  numpy_via GPUArray_contiguous self.

(** [storage()]: the whole buffer as a one-dimensional host array. *)
Definition GPUArray_storage (self : ref) : M T (ndarray T) :=
  so <- deref self ;;
  data <- read_buffer (buffer so) ;;
  ret (mkNdarray [Z.of_nat (length data)] (dtype_of so) data).

End Dispatch.

(** ** The dispatchers of [ops_gpu.py] *)

Section Ops.
Context {T : Type} {F : Float32 T}.

(** [d[name]] on a dict literal. *)
Definition dict_get (d : list (string * string)) (name : string)
    : M T string :=
  match list_find (λ e : string * string, e.1 = name) d with
  | Some (_, e) => ret e.2
  | None => raise (KeyError name)
  end.

(** *** [broadcast(a, b)] *)

(** The loop over [zip(a.shape, b.shape)] that raises [ValueError]. *)
Fixpoint broadcast_check (pairs : list (Z * Z)) : M T unit :=
  match pairs with
  | [] => ret ()
  | (i, j) :: rest =>
      if negb (i =? j) && negb (i =? 1) && negb (j =? 1)
      then raise (ValueError "Error broadcasting for {a.shape} and {b.shape}")
      else broadcast_check rest
  end.

Definition broadcast (a b : ref) : M T (ref * ref) :=
  ao <- deref a ;;
  bo <- deref b ;;
  if bool_decide (shape ao = shape bo) then ret (a, b)
  else
    broadcast_check (zip (shape ao) (shape bo)) ;;;
    let ndims := Nat.max (length (shape ao)) (length (shape bo)) in
    a <- (if negb (Nat.eqb (length (shape ao)) ndims)
          then GPUArray_reshape a
                 (replicate (ndims - length (shape ao)) 1 ++ shape ao)
          else ret a) ;;
    b <- (if negb (Nat.eqb (length (shape bo)) ndims)
          then GPUArray_reshape b
                 (replicate (ndims - length (shape bo)) 1 ++ shape bo)
          else ret b) ;;
    ao <- deref a ;;
    bo <- deref b ;;
    let broadcast_shape := zip_with Z.max (shape ao) (shape bo) in
    a <- (if tuple_ne_list (shape ao) broadcast_shape
          then GPUArray_expand a broadcast_shape else ret a) ;;
    bo <- deref b ;;
    b <- (if tuple_ne_list (shape bo) broadcast_shape
          then GPUArray_expand b broadcast_shape else ret b) ;;
    ret (a, b).

(** *** [unary_op(name, a, ret=None)] *)

Definition unary_mapping : list (string * string) :=
  [("neg", "-a"); ("log", "log(a)"); ("exp", "exp(a)"); ("relu", "")].

(** The meaning of the expression put after [res_g[res_i] =]; the empty
    text of ["relu"] is no expression and the kernel does not compile. *)
Definition unary_expr (expr : string) : option (T → T) :=
  if bool_decide (expr = "-a") then Some f_neg
  else if bool_decide (expr = "log(a)") then Some f_log
  else if bool_decide (expr = "exp(a)") then Some f_exp
  else None.

(** [[s for ss in zip(xs, ys) for s in ss]] is [interleave2]; with three
    lists: *)
Definition interleave3 (xs ys zs : list Z) : list Z :=
  concat (zip_with (λ p c, [p.1; p.2; c]) (zip xs ys) zs).

(** One work-item of the generated unary kernel of rank [n]. *)
Definition unary_kernel (n : nat) (f : T → T) (args : list Z)
    (A res_g : handle) (gid : list Z) : M T unit :=
  let idx := get_global_id gid <$> seq 0 n in
  let res_i := dot idx ((λ i, arg args (2 * i + 1)) <$> seq 0 n) in
  let a_i := dot idx ((λ i, arg args (2 * i)) <$> seq 0 n) in
  a <- load A a_i ;;
  store res_g res_i (f a).

Definition unary_op (name : string) (a : ref) (ret_ : option ref)
    : M T ref :=
  ao <- deref a ;;
  ret_ <- match ret_ with
          | None => GPUArray_init NoData (Some (shape ao)) (dtype_of ao)
          | Some r => ret r
          end ;;
  expr <- dict_get unary_mapping name ;;
  let n := length (strides ao) in
  match unary_expr expr with
  | None => raise build_failure
  | Some f =>
      _ <- cl_build "unary_op" (unary_op_src expr n) ;;
      ro <- deref ret_ ;;
      let args := interleave2 (strides ao) (strides ro) in
      check_args (2 * n) args ;;;
      enqueue_nd_range (shape ao)
        (unary_kernel n f args (buffer ao) (buffer ro)) ;;;
      ret ret_
  end.

(** *** [binary_op(name, a, b, ret=None)] *)

Definition binary_mapping : list (string * string) :=
  [("add", "a+b"); ("sub", "a-b"); ("truediv", "a/b"); ("mul", "a*b");
   ("pow", "power(a,b)")].

(** OpenCL C has [pow] but no [power]: the kernel of ["pow"] does not
    compile. *)
Definition binary_expr (expr : string) : option (T → T → T) :=
  if bool_decide (expr = "a+b") then Some f_add
  else if bool_decide (expr = "a-b") then Some f_sub
  else if bool_decide (expr = "a/b") then Some f_div
  else if bool_decide (expr = "a*b") then Some f_mul
  else None.

Definition binary_kernel (n : nat) (f : T → T → T) (args : list Z)
    (A B res_g : handle) (gid : list Z) : M T unit :=
  let idx := get_global_id gid <$> seq 0 n in
  let res_i := dot idx ((λ i, arg args (3 * i + 2)) <$> seq 0 n) in
  let a_i := dot idx ((λ i, arg args (3 * i)) <$> seq 0 n) in
  let b_i := dot idx ((λ i, arg args (3 * i + 1)) <$> seq 0 n) in
  a <- load A a_i ;;
  b <- load B b_i ;;
  store res_g res_i (f a b).

Definition binary_op (name : string) (a b : ref) (ret_ : option ref)
    : M T ref :=
  ab <- broadcast a b ;;
  ao <- deref ab.1 ;;
  bo <- deref ab.2 ;;
  ret_ <- match ret_ with
          | None => GPUArray_init NoData (Some (shape ao)) (dtype_of ao)
          | Some r => ret r
          end ;;
  expr <- dict_get binary_mapping name ;;
  let n := length (strides ao) in
  match binary_expr expr with
  | None => raise build_failure
  | Some f =>
      _ <- cl_build "binary_op" (binary_op_src expr n) ;;
      ro <- deref ret_ ;;
      let args := interleave3 (strides ao) (strides bo) (strides ro) in
      check_args (3 * n) args ;;;
      let global_size :=
        if bool_decide (shape ao = []) then [1] else shape ao in
      enqueue_nd_range global_size
        (binary_kernel n f args (buffer ao) (buffer bo) (buffer ro)) ;;;
      ret ret_
  end.

(** *** [matmul_op(a, b, ret=None)] *)

(** [for (int k=0; k<K; k++) { ...; acc += A[A_idx] * B[B_idx]; }] *)
Fixpoint matmul_acc (ks : list Z) (idx : Z → Z * Z) (A B : handle) (acc : T)
    : M T T :=
  match ks with
  | [] => ret acc
  | k :: ks' =>
      x <- load A (idx k).1 ;;
      y <- load B (idx k).2 ;;
      matmul_acc ks' idx A B (f_add acc (f_mul x y))
  end.

(** One work-item of the matmul kernel; [args] is
    [M, N, K, A_c_conus, B_c_conus]. *)
Definition matmul_kernel (args : list Z) (A B C : handle) (gid : list Z)
    : M T unit :=
  let M_ := arg args 0 in
  let N := arg args 1 in
  let K := arg args 2 in
  let A_c_conus := negb (arg args 3 =? 0) in
  let B_c_conus := negb (arg args 4 =? 0) in
  let m := get_global_id gid 0 in
  let n := get_global_id gid 1 in
  acc <- matmul_acc (seqZ 0 K)
           (λ k, (if A_c_conus then m * K + k else k * M_ + m,
                  if B_c_conus then k * N + n else n * K + k))
           A B f_zero ;;
  store C (m * N + n) acc.

(** The launch of [matmul_op] once the two layout flags are known. *)
Definition matmul_dispatch (M_ N K : Z) (a_c b_c : bool) (a b ret_ : ref)
    : M T ref :=
  ao <- deref a ;;
  bo <- deref b ;;
  ro <- deref ret_ ;;
  enqueue_nd_range [M_; N]
    (matmul_kernel [M_; N; K; Z.b2z a_c; Z.b2z b_c]
                   (buffer ao) (buffer bo) (buffer ro)) ;;;
  ret ret_.

(** [matmul_op].  The flags are read as [a._c_contiguous] and
    [b._c_contiguous]; the instances carry [c_contiguous] and no attribute
    [_c_contiguous]. *)
Definition matmul_op (a b : ref) (ret_ : option ref) : M T ref :=
  ao <- deref a ;;
  bo <- deref b ;;
  let ret_shape := removelast (shape ao) ++ tail (shape bo) in
  ret_ <- match ret_ with
          | None => GPUArray_init NoData (Some ret_shape) (dtype_of ao)
          | Some r => ret r
          end ;;
  _ <- cl_build "matmul_op" matmul_op_src ;;
  let M_ := prod (removelast (shape ao)) in
  K <- match py_index (shape ao) (-1) with
       | Some k => ret k
       | None => raise IndexError
       end ;;
  let N := prod (tail (shape bo)) in
  a_c <- getattr_missing a "_c_contiguous" ;;
  b_c <- getattr_missing b "_c_contiguous" ;;
  matmul_dispatch M_ N K a_c b_c a b ret_.

End Ops.

(** *** [reduce_op(name, x, ret=None, axis=None, keepdims=True)] *)

Section Reduce.
Context {T : Type} {F : Float32 T}.

Definition group_size : Z := 2 ^ 4.

Definition reduce_mapping : list (string * string) :=
  [("sum", "a+b"); ("max", "max(a,b)")].

Definition reduce_expr (expr : string) : option (T → T → T) :=
  if bool_decide (expr = "a+b") then Some f_add
  else if bool_decide (expr = "max(a,b)") then Some f_max
  else None.

Fixpoint fold_m {A B} (f : B → A → M T B) (b : B) (l : list A) : M T B :=
  match l with
  | [] => ret b
  | x :: l' => b' <- f b x ;; fold_m f b' l'
  end.

(** The [__local float *B] scratch memory of one work-group.  It starts as
    the floats [cl.LocalMemory] reserved.  OpenCL leaves an access beyond
    the reserved size undefined; the device completes it in the local
    memory of the group, which is larger than what one kernel argument
    reserves.  So the model lets the list grow: a store beyond its end
    extends it, and a load of a slot that was never written gives an
    unspecified float.  A negative index stops the model. *)
Definition scratch_load (B : list T) (i : Z) : M T T :=
  if i <? 0 then raise out_of_bounds
  else ret (default f_uninit (B !! Z.to_nat i)).

Definition scratch_store (B : list T) (i : Z) (v : T) : M T (list T) :=
  if i <? 0 then raise out_of_bounds
  else ret (<[Z.to_nat i := v]>
              (B ++ replicate (S (Z.to_nat i) - length B) f_uninit)).

(** [for (int stride=s; stride>0; stride>>=1)]: the values [stride] takes. *)
Fixpoint halvings (fuel : nat) (s : Z) : list Z :=
  match fuel with
  | O => []
  | S fuel' => if 0 <? s then s :: halvings fuel' (Z.shiftr s 1) else []
  end.

(** One work-group of the reduction kernel.  The work-items of a group run
    in lock step between two barriers: first every item loads its element
    into the scratch memory, then one round per [stride], then item 0 writes
    the result. *)
Definition reduce_group (f : T → T → T) (axis : nat)
    (global_size local_size : list Z) (A C : handle) (slots : Z)
    (grp : list Z) : M T unit :=
  let items := grid local_size in
  let gl_id (lid : list Z) :=
    zip_with (λ p l, p.1 * p.2 + l) (zip grp local_size) lid in
  let lcl_id (lid : list Z) := default 0 (lid !! axis) in
  let grp_s := default 1 (local_size !! axis) in
  let gl2lcl (lid : list Z) := dot (gl_id lid) (trailing_products global_size) in
  let lcl2gl (lid : list Z) :=
    dot (imap (λ i g, if bool_decide (i = axis) then default 0 (grp !! i) else g)
              (gl_id lid))
        (trailing_products (zip_with Z.quot global_size local_size)) in
  B <- fold_m (λ B lid, v <- load A (gl2lcl lid) ;; scratch_store B (lcl_id lid) v)
         (replicate (Z.to_nat slots) f_uninit) items ;;
  B <- fold_m (λ B stride,
         fold_m (λ B lid,
           a <- scratch_load B (lcl_id lid) ;;
           b <- scratch_load B (lcl_id lid + stride) ;;
           if lcl_id lid <? stride then scratch_store B (lcl_id lid) (f a b)
           else ret B) B items)
         B (halvings (Z.to_nat grp_s) (Z.shiftr grp_s 1)) ;;
  for_each items (λ lid,
    if lcl_id lid =? 0
    then v <- scratch_load B 0 ;; store C (lcl2gl lid) v
    else ret ()).

(** [kernel(queue, global_size, local_size, ...)] with an explicit local
    size: every global size must be a multiple of the local size. *)
Definition enqueue_groups (global_size local_size : list Z)
    (group : list Z → M T unit) : M T unit :=
  if bool_decide (global_size = []) then raise (CLError "INVALID_WORK_DIMENSION")
  else if bool_decide (max_work_item_dimensions < length global_size)%nat
       then raise (CLError "INVALID_WORK_DIMENSION")
  else if negb (forallb (λ d, 0 <? d) global_size)
       then raise (CLError "INVALID_GLOBAL_WORK_SIZE")
  else if negb (forallb (λ p : Z * Z, p.1 `mod` p.2 =? 0)
                        (zip global_size local_size))
       then raise (CLError "INVALID_WORK_GROUP_SIZE")
  else for_each (grid (zip_with Z.div global_size local_size)) group.

(** [tuple(d for i, d in enumerate(x_shape) if i != axis)] *)
Definition drop_axis (axis : Z) (x_shape : list Z) : list Z :=
  omap (λ p : nat * Z, if Z.of_nat p.1 =? axis then None else Some p.2)
       (zip (seq 0 (length x_shape)) x_shape).

(** The shape [reduce_op] allocates for the result of one pass. *)
Definition reduce_ret_shape (x_shape : list Z) (axis : Z) (keepdims : bool)
    (n_groups : Z) : list Z :=
  if n_groups <=? 1 then
    if keepdims
    then imap (λ i d, if negb (Z.of_nat i =? axis) then d else 1) x_shape
    else drop_axis axis x_shape
  else imap (λ i d, if Z.of_nat i =? axis then d `div` group_size else d)
            x_shape.

(** [int(x.dtype().itemsize * x_shape[axis]) // group_size], in bytes. *)
Definition local_mem_size (dt : dtype) (length : Z) : Z :=
  (itemsize dt * length) `div` group_size.

Fixpoint reduce_rec (fuel : nat) (name : string) (x : ref)
    (ret_ : option ref) (axis : option Z) (keepdims : bool) : M T ref :=
  match fuel with
  | O => raise RecursionError
  | S fuel' =>
      xo <- deref x ;;
      let ax_shape :=
        match axis with
        | None => (0, [prod (shape xo)])
        | Some ax => (ax, shape xo)
        end in
      let axis := ax_shape.1 in
      let x_shape := ax_shape.2 in
      let ndims := length x_shape in
      length <- match py_index x_shape axis with
                | Some l => ret l
                | None => raise IndexError
                end ;;
      let n_groups := length `div` group_size in
      let ret_shape := reduce_ret_shape x_shape axis keepdims n_groups in
      ret_ <- match ret_ with
              | None => GPUArray_init NoData (Some ret_shape) (dtype_of xo)
              | Some r => ret r
              end ;;
      expr <- dict_get reduce_mapping name ;;
      match reduce_expr expr with
      | None => raise build_failure
      | Some f =>
          _ <- (if axis <? 0 then raise build_failure
                else cl_build "reduce_op" (reduce_op_src expr ndims axis)) ;;
          let local_size :=
            imap (λ i _ , if Z.of_nat i =? axis then group_size else 1)
                 x_shape in
          ro <- deref ret_ ;;
          (if local_mem_size (dtype_of xo) length <=? 0
           then raise (CLError "INVALID_ARG_SIZE") else ret ()) ;;;
          enqueue_groups x_shape local_size
            (reduce_group f (Z.to_nat axis) x_shape local_size
               (buffer xo) (buffer ro)
               (local_mem_size (dtype_of xo) length `div` itemsize (dtype_of xo))) ;;;
          if 1 <? n_groups
          then reduce_rec fuel' name ret_ None (Some axis) keepdims
          else ret ret_
      end
  end.

Definition reduce_op (name : string) (x : ref) (ret_ : option ref)
    (axis : option Z) (keepdims : bool) : M T ref :=
  reduce_rec recursion_limit name x ret_ axis keepdims.

(** [GPUArray.sum] and [GPUArray.max] *)
Definition GPUArray_sum (self : ref) (axis : option Z) (keepdims : bool)
    : M T ref :=
  so <- deref self ;;
  arr <- (if negb (c_contiguous so) then GPUArray_contiguous self
          else ret self) ;;
  reduce_op "sum" arr None axis keepdims.

Definition GPUArray_max (self : ref) (axis : option Z) (keepdims : bool)
    : M T ref :=
  so <- deref self ;;
  arr <- (if negb (c_contiguous so) then GPUArray_contiguous self
          else ret self) ;;
  reduce_op "max" arr None axis keepdims.

End Reduce.

(** ** Further methods of [GPUArray] *)

(** The argument [axis] of [squeeze]: [None], an integer, or a list or
    tuple of integers. *)
Inductive squeeze_axis : Type :=
  | AxNone
  | AxInt (a : Z)
  | AxSeq (l : list Z).

(** The right operand of an operator: a [GPUArray], or host data that lies
    in memory in row-major order ([OHost]: a scalar, a list, a C-ordered
    array) or in column-major order ([OHostF]). *)
Inductive operand (T : Type) : Type :=
  | OArray (r : ref)
  | OHost (a : ndarray T)
  | OHostF (a : ndarray T).
Arguments OArray {T} r.
Arguments OHost {T} a.
Arguments OHostF {T} a.

(** A list never compares equal to a tuple in Python: [l == t] is [False]
    for every list [l] and tuple [t]. *)
Definition list_eq_tuple (l t : list Z) : bool := false.

Section Methods.
Context {T : Type} {F : Float32 T}.

(** [__setitem__(self, key, value)]: the view is taken, then the method
    stops at [assert False]. *)
Definition GPUArray_setitem (self : ref) (key : list index_key) (value : ref)
    : M T unit :=
  item <- GPUArray_getitem self key ;;
  py_assert false "TODO: implement assign ops".

(** The property [size]: [self.buffer.size], in bytes. *)
Definition GPUArray_size (self : ref) : M T Z :=
  so <- deref self ;;
  b <- read_buffer (buffer so) ;;
  ret (itemsize (dtype_of so) * Z.of_nat (length b)).

(** [cl.enqueue_fill_buffer(queue, mem, pattern, offset, size)]: [offset]
    and [size] are in bytes, must be multiples of the size of the pattern
    and must lie inside the buffer. *)
Definition enqueue_fill_buffer (mem : handle) (pattern : T)
    (pattern_size offset size : Z) : M T unit :=
  b <- read_buffer mem ;;
  if (offset <? 0) || (size <? 0)
     || (pattern_size * Z.of_nat (length b) <? offset + size)
     || negb (offset `mod` pattern_size =? 0)
     || negb (size `mod` pattern_size =? 0)
  then raise (CLError "INVALID_VALUE")
  else
    let first := Z.to_nat (offset `div` pattern_size) in
    let count := Z.to_nat (size `div` pattern_size) in
    λ w, (Ok (),
          set_bufs (<[mem := take first b ++ replicate count pattern
                               ++ drop (first + count) b]> (bufs w)) w).

(** [fill(self, value)] *)
Definition GPUArray_fill (self : ref) (value : T) : M T ref :=
  so <- deref self ;;
  size <- GPUArray_size self ;;
  enqueue_fill_buffer (buffer so) value (itemsize (dtype_of so)) 0 size ;;;
  ret self.

(** The class methods [empty], [zeros], [full] and [from_numpy]. *)
Definition GPUArray_empty (shape : list Z) (dt : dtype) : M T ref :=
  GPUArray_init NoData (Some shape) dt.

Definition GPUArray_zeros (shape : list Z) (dt : dtype) : M T ref :=
  x <- GPUArray_init NoData (Some shape) dt ;; GPUArray_fill x f_zero.

Definition GPUArray_full (shape : list Z) (value : T) (dt : dtype)
    : M T ref :=
  x <- GPUArray_init NoData (Some shape) dt ;; GPUArray_fill x value.

Definition GPUArray_from_numpy (arr : ndarray T) : M T ref :=
  GPUArray_init (FromHost arr) None float32.

(** [squeeze(self, axis=None)].  [shape] is a list and [self.shape] a
    tuple. *)
Definition GPUArray_squeeze (self : ref) (axis : squeeze_axis) : M T ref :=
  so <- deref self ;;
  let axis :=
    match axis with
    | AxNone =>
        Z.of_nat <$> filter (λ i, shape so !! i = Some 1)
                            (seq 0 (length (shape so)))
    | AxInt a => [a]
    | AxSeq l => l
    end in
  let axis :=
    (λ a, if negb (a =? -1) then a else Z.of_nat (length (shape so)) - 1)
      <$> axis in
  let shape' :=
    omap (λ p : nat * Z,
            if negb (bool_decide (Z.of_nat p.1 ∈ axis)) || negb (p.2 =? 1)
            then Some p.2 else None)
         (zip (seq 0 (length (shape so))) (shape so)) in
  if list_eq_tuple shape' (shape so) then ret self
  else GPUArray_reshape self shape'.

(** [as_gpu_array(obj)] *)
Definition as_gpu_array (obj : operand T) : M T ref :=
  match obj with
  | OArray r => ret r
  | OHost a => GPUArray_init (FromHost a) None float32
  | OHostF a => GPUArray_init (FromHostF a) None float32
  end.

(** The methods [register_ops] installs on the class: [__op__], [__iop__]
    and [__rop__] for [add], [sub], [mul], [truediv], [pow]; [__op__] for
    [eq], [ge], [gt]; [__matmul__]; [__neg__].  Python calls
    [a.__rop__(b)] for [b op a] when the operator of [b] does not handle
    [a], as for a scalar or a list [b]; with a numpy array on the left
    numpy's own operator runs first. *)
Definition GPUArray_binop (op : string) (a : ref) (b : operand T) : M T ref :=
  b <- as_gpu_array b ;; binary_op op a b None.

Definition GPUArray_ibinop (op : string) (a : ref) (b : operand T)
    : M T ref :=
  b <- as_gpu_array b ;; binary_op op a b (Some a).

Definition GPUArray_rbinop (op : string) (a : ref) (b : operand T)
    : M T ref :=
  b <- as_gpu_array b ;; binary_op op b a None.

Definition GPUArray_matmul (a : ref) (b : operand T) : M T ref :=
  b <- as_gpu_array b ;; matmul_op a b None.

Definition GPUArray_neg (a : ref) : M T ref := unary_op "neg" a None.

(** [relu], [exp], [log] and [drelu] *)
Definition GPUArray_relu (self : ref) (inplace : bool) : M T ref :=
  unary_op "relu" self (if inplace then Some self else None).

Definition GPUArray_exp (self : ref) : M T ref := unary_op "exp" self None.

Definition GPUArray_log (self : ref) : M T ref := unary_op "log" self None.

Definition GPUArray_drelu (self : ref) (other : operand T) : M T ref :=
  o <- as_gpu_array other ;; binary_op "drelu" self o None.

End Methods.

(** * Reference definitions

    What the design document says an operation yields, written directly on
    descriptors and buffer contents; the properties below compare the
    embedded code with them. *)

(** The outcome of one key element on one dimension: an integer removes
    the dimension at an index, a slice keeps the range [start, stop). *)
Inductive dim_outcome : Type :=
  | Removed (index : Z)
  | Sliced (start stop : Z).

(** A negative slice bound counts from the end of the dimension. *)
Definition wrap (size v : Z) : Z := if v <? 0 then v + size else v.

Definition spec_key (size : Z) (k : index_key) : option dim_outcome :=
  match k with
  | KInt k =>
      if (- size <=? k) && (k <? size) then Some (Removed (k `mod` size))
      else None
  | KSlice start stop _ =>
      let start := wrap size (default 0 start) in
      let stop := wrap size (default size stop) in
      if (0 <=? start) && (start <? stop) && (stop <=? size)
      then Some (Sliced start stop) else None
  end.

(** The effect of a key on the dimensions it addresses: the new shape and
    strides, the amount added to the offset, and whether a slice occurred.
    Dimensions beyond the key are kept. *)
Record dims_effect : Type := mkDimsEffect {
  new_shape : list Z;
  new_strides : list Z;
  offset_delta : Z;
  sliced : bool
}.

Fixpoint spec_dims (sh st : list Z) (key : list index_key) {struct key}
    : option dims_effect :=
  match key with
  | [] => Some (mkDimsEffect sh st 0 false)
  | k :: key' =>
      match sh, st with
      | size :: sh', stride :: st' =>
          match spec_key size k, spec_dims sh' st' key' with
          | Some (Removed index), Some r =>
              Some (mkDimsEffect (new_shape r) (new_strides r)
                                 (stride * index + offset_delta r) (sliced r))
          | Some (Sliced start stop), Some r =>
              Some (mkDimsEffect ((stop - start) :: new_shape r)
                                 (stride :: new_strides r)
                                 (stride * start + offset_delta r) true)
          | _, _ => None
          end
      | _, _ => None
      end
  end.

Definition spec_getitem (x : GPUArray) (key : list index_key)
    : option GPUArray :=
  match spec_dims (shape x) (strides x) key with
  | Some r =>
      Some (mkGPUArray (buffer x) (new_shape r) (dtype_of x) (new_strides r)
              (offset x + offset_delta r)
              (if sliced r then false else c_contiguous x)
              (if sliced r then false else f_contiguous x))
  | None => None
  end.

(** [expand] as the code performs it: a dimension smaller than its target
    must be of size 1 and gets stride 0; every other dimension keeps its
    stride. *)
Definition expandable (sh target : list Z) : bool :=
  forallb (λ p : Z * Z, negb (p.1 <? p.2) || (p.1 =? 1)) (zip sh target).

Definition expanded_strides (sh target st : list Z) : list Z :=
  zip_with (λ (p : Z * Z) t, if p.1 <? p.2 then 0 else t) (zip sh target) st.

(** [expand] as the design document words it: every dimension that
    differs from its target must be of size 1. *)
Definition spec_expandable (sh target : list Z) : bool :=
  forallb (λ p : Z * Z, (p.1 =? p.2) || (p.1 =? 1)) (zip sh target).

(** ** Frames

    [frame n m Q]: run in a store with at least [n] objects, [m] leaves the
    first [n] objects and every existing buffer as they are, only adds
    objects and buffers, and a result it returns satisfies [Q]. *)
Definition frame {T A} (n : nat) (m : M T A) (Q : A → Prop) : Prop :=
  ∀ w, (n ≤ length (objs w))%nat →
    take n (objs (m w).2) = take n (objs w) ∧
    (length (objs w) ≤ length (objs (m w).2))%nat ∧
    bufs w `prefix_of` bufs (m w).2 ∧
    ∀ a, (m w).1 = Ok a → Q a.

(** [preserved w w']: every descriptor and every buffer of [w] is found
    unchanged in [w']. *)
Definition preserved {T} (w w' : world T) : Prop :=
  (∀ u x, objs w !! u = Some x → objs w' !! u = Some x) ∧
  (∀ h b, bufs w !! h = Some b → bufs w' !! h = Some b).

(** A returned reference names an object that did not exist in [w]. *)
Definition fresh_in {T} (w : world T) (r : result ref) : Prop :=
  ∀ y, r = Ok y → (length (objs w) ≤ y)%nat.

(** The store after one more object has been allocated. *)
Definition push {T} (w : world T) (x : GPUArray) : world T :=
  set_objs (objs w ++ [x]) w.

(** The empty store a process starts with. *)
Definition world0 {T} : world T := mkWorld [] [] [] 0.

(** ** The kernel cache *)

(** The callable the cache holds for a key, if any. *)
Definition cached {T} (w : world T) (key : cache_key) : option kernel :=
  (λ p : nat * (cache_key * kernel), p.2.2) <$>
    list_find (λ e : cache_key * kernel, e.1 = key) (cache w).

(** A sequence of [cl_build] calls, one per key. *)
Definition build_all {T} (keys : list cache_key) : M T unit :=
  for_each keys (λ k, _ <- cl_build k.1 k.2 ;; ret ()).

(** [retained key k seen c]: the cache [c] holds [k] for [key], and the
    entries used more recently than it have distinct keys, all among
    [seen]. *)
Definition retained (key : cache_key) (k : kernel) (seen : list cache_key)
    (c : list (cache_key * kernel)) : Prop :=
  ∃ pre post,
    c = pre ++ (key, k) :: post ∧ (key ∉ pre.*1) ∧ NoDup (pre.*1) ∧
    ∀ x, (x ∈ pre.*1) → x ∈ seen.

(** ** Logical content of a view *)

(** The element of a view at a multi-index: the buffer element at
    [offset + Σ index × stride]. *)
Definition element_at {T} (src : list T) (x : GPUArray) (idx : list Z)
    : option T :=
  let a := offset x + dot idx (strides x) in
  if a <? 0 then None else src !! Z.to_nat a.

(** The elements of a view in row-major order of their multi-indices;
    [None] when one of them lies outside the buffer. *)
Definition logical {T} (src : list T) (x : GPUArray) : option (list T) :=
  mapM (element_at src x) (grid (shape x)).

(** The descriptor [GPUArray.__init__] leaves for a new array: C-contiguous
    strides, offset 0 and the flags [update_contiguousness] computes. *)
Definition fresh_array (h : handle) (sh : list Z) (dt : dtype) : GPUArray :=
  let s := default [] (non_unit_strides
                         (mkGPUArray h sh dt (c_strides sh) 0 true false)) in
  mkGPUArray h sh dt (c_strides sh) 0
             (bool_decide (reverse (sorted s) = s))
             (bool_decide (sorted s = s)).

(** The strides of the dimensions of size other than 1, by recursion on
    shape and strides. *)
Fixpoint non_unit (sh st : list Z) : list Z :=
  match sh, st with
  | d :: ds, t :: ts => if d =? 1 then non_unit ds ts else t :: non_unit ds ts
  | _, _ => []
  end.

(** The store in which the buffer [h] holds [d]. *)
Definition with_buffer {T} (w : world T) (h : handle) (d : list T) : world T :=
  set_bufs (<[h := d]> (bufs w)) w.

(** The stores after an allocation. *)
Definition alloc {T} (w : world T) (x : GPUArray) (d : list T) : world T :=
  mkWorld (objs w ++ [x]) (bufs w ++ [d]) (cache w) (builds w).

(** The descriptor [T] leaves: shape and strides reversed, flags
    recomputed. *)
Definition transposed (x : GPUArray) : GPUArray :=
  let s := non_unit (reverse (shape x)) (reverse (strides x)) in
  mkGPUArray (buffer x) (reverse (shape x)) (dtype_of x) (reverse (strides x))
             (offset x)
             (bool_decide (reverse (sorted s) = s))
             (bool_decide (sorted s = s)).

(** ** Matrix product of two views, as the design document words it

    [C[m, n] = Σ_{k<K} A[m, k] · B[k, n]], where [m] ranges over the
    leading multi-indices of [a] and [n] over the trailing multi-indices of
    [b], both in row-major order; the sum starts from 0 and adds the terms
    in the order of [k]. *)
Fixpoint spec_inner {T} `{Float32 T} (ks : list Z) (fa fb : Z → option T)
    (acc : T) : option T :=
  match ks with
  | [] => Some acc
  | k :: ks' =>
      match fa k, fb k with
      | Some x, Some y => spec_inner ks' fa fb (f_add acc (f_mul x y))
      | _, _ => None
      end
  end.

Definition spec_matmul {T} `{Float32 T} (A B : list T) (a b : GPUArray)
    : option (list T) :=
  let K := default 0 (last (shape a)) in
  mapM (λ mn : list Z * list Z,
          spec_inner (seqZ 0 K)
            (λ k, element_at A a (mn.1 ++ [k]))
            (λ k, element_at B b (k :: mn.2)) f_zero)
       (list_prod (grid (removelast (shape a))) (grid (tail (shape b)))).

(** [dense x src]: [x] is a C-contiguous view of offset 0 that covers the
    whole buffer content [src], as every array made by [GPUArray(data)]
    is. *)
Definition dense {T} (x : GPUArray) (src : list T) : Prop :=
  Forall (λ d, 0 < d) (shape x) ∧ strides x = c_strides (shape x) ∧
  offset x = 0 ∧ c_contiguous x = true ∧
  length src = Z.to_nat (prod (shape x)).

(** A read of the buffer content [src] at an address. *)
Definition rd {T} (src : list T) (a : Z) : option T :=
  if a <? 0 then None else src !! Z.to_nat a.

(** ** Offsets erased *)



(** ** Descriptors the view transforms leave *)

(** [reshape] of a view that is flagged C- or F-contiguous: the target as
    shape, the strides of that order for the target, buffer and offset
    kept, flags recomputed. *)
Definition reshaped (x : GPUArray) (target : list Z) : GPUArray :=
  let st := if c_contiguous x then c_strides target else f_strides target in
  let s := non_unit target st in
  mkGPUArray (buffer x) target (dtype_of x) st (offset x)
             (bool_decide (reverse (sorted s) = s))
             (bool_decide (sorted s = s)).

(** [expand]: the target as shape, stride 0 for every grown dimension,
    both flags cleared. *)
Definition expanded (x : GPUArray) (target : list Z) : GPUArray :=
  mkGPUArray (buffer x) target (dtype_of x)
             (expanded_strides (shape x) target (strides x))
             (offset x) false false.


(** The index at which an expanded view reads the view it was made from:
    0 in every grown dimension, the index itself elsewhere. *)
Definition broadcast_index (sh target idx : list Z) : list Z :=
  zip_with (λ (p : Z * Z) i, if p.1 <? p.2 then 0 else i) (zip sh target) idx.


(** ** Reductions *)

(** The length [reduce_op] reduces: the number of elements when [axis] is
    [None], the size of the dimension [axis] otherwise. *)
Definition reduced_length (x : GPUArray) (axis : option Z) : option Z :=
  match axis with
  | None => Some (prod (shape x))
  | Some ax => py_index (shape x) ax
  end.

(** [n] rounds of pairwise combination on [2 ^ n] values: each round
    combines the first half with the second half, element by element. *)
Fixpoint tree_reduce {T} (f : T → T → T) (n : nat) (l : list T) : list T :=
  match n with
  | O => l
  | S n' => tree_reduce f n' (zip_with f (take (2 ^ n') l) (drop (2 ^ n') l))
  end.

(** * Example data

    Concrete arrays and keys, with integers for the float values they
    represent exactly. *)

#[local] Existing Instance Z_float32.

(** The host array [[[1,2,3],[4,5,6]]] and the store after
    [GPUArray(a23)]. *)
Definition a23 : ndarray Z := mkNdarray [2; 3] float32 [1; 2; 3; 4; 5; 6].
Definition x_a23 : GPUArray := mkGPUArray 0 [2; 3] float32 [3; 1] 0 true false.
Definition w_a23 : world Z := mkWorld [x_a23] [[1; 2; 3; 4; 5; 6]] [] 0.

(** A one-dimensional array of three elements. *)
Definition x_v3 : GPUArray := mkGPUArray 0 [3] float32 [1] 0 true true.
Definition w_v3 : world Z := mkWorld [x_v3] [[10; 20; 30]] [] 0.

(** The cache key of the unary kernel ["neg"] for a rank. *)
Definition key_neg (rank : nat) : cache_key :=
  ("unary_op", unary_op_src "-a" rank).

(** Broadcasting as the design document words it: pad the shorter shape on
    the left with 1s, require every aligned pair to be equal or to contain
    a 1, take the elementwise maximum. *)
Definition pad_left (n : nat) (s : list Z) : list Z :=
  replicate (n - length s) 1 ++ s.

Definition spec_broadcast_shape (sa sb : list Z) : option (list Z) :=
  let n := Nat.max (length sa) (length sb) in
  let a := pad_left n sa in
  let b := pad_left n sb in
  if forallb (λ p : Z * Z, (p.1 =? p.2) || (p.1 =? 1) || (p.2 =? 1)) (zip a b)
  then Some (zip_with Z.max a b) else None.

(** A store with one fresh array of a shape, filled with [0, 1, 2, ...]
    ([np.arange]), and the store with two such arrays. *)
Definition arange (n : Z) : list Z := seqZ 0 n.

Definition w_arange (sh : list Z) : world Z :=
  (GPUArray_init (FromHost (mkNdarray sh float32 (arange (prod sh))))
                 None float32 world0).2.

Definition w_arange2 (sa sb : list Z) : world Z :=
  (GPUArray_init (FromHost (mkNdarray sb float32 (arange (prod sb))))
                 None float32 (w_arange sa)).2.

(** The store with [a23] and the (3,2) array [[[7,8],[9,10],[11,12]]]. *)
Definition b32 : ndarray Z := mkNdarray [3; 2] float32 [7; 8; 9; 10; 11; 12].
Definition x_b32 : GPUArray := mkGPUArray 1 [3; 2] float32 [2; 1] 0 true false.
Definition w_a23_b32 : world Z :=
  mkWorld [x_a23; x_b32] [[1; 2; 3; 4; 5; 6]; [7; 8; 9; 10; 11; 12]] [] 0.

(** The view [v3[1:]] of the three-element array: object 1 of the store. *)
Definition x_v3_tail : GPUArray := mkGPUArray 0 [2] float32 [1] 1 false false.
Definition w_v3_tail : world Z := push w_v3 x_v3_tail.

(** * Properties *)

(** ** The monad *)

Section MonadFacts.
Context {T : Type} {F : Float32 T}.

Lemma bind_ok {A B} (m : M T A) (k : A → M T B) w a w' :
  m w = (Ok a, w') → bind m k w = k a w'.
Proof. intros H. unfold bind. by rewrite H. Qed.

Lemma bind_raise {A B} (m : M T A) (k : A → M T B) w e w' :
  m w = (Raise e, w') → bind m k w = (Raise e, w').
Proof. intros H. unfold bind. by rewrite H. Qed.

Lemma deref_ok r x (w : world T) :
  objs w !! r = Some x → deref r w = (Ok x, w).
Proof. intros H. unfold deref. by rewrite H. Qed.

Lemma assign_ok r x f (w : world T) :
  objs w !! r = Some x →
  assign r f w = (Ok (), set_objs (<[r := f x]> (objs w)) w).
Proof. intros H. unfold assign. by rewrite H. Qed.

Lemma py_assert_true msg (w : world T) : py_assert true msg w = (Ok (), w).
Proof. done. Qed.

Lemma py_assert_false msg (w : world T) :
  py_assert false msg w = (Raise (AssertionError msg), w).
Proof. done. Qed.

End MonadFacts.

(** ** Frame rules *)

Ltac wsimpl :=
  cbn [fst snd objs bufs cache builds set_objs set_bufs] in *.

Section Frames.
Context {T : Type} {F : Float32 T}.
Implicit Types w : world T.

Lemma frame_weaken {A} n (m : M T A) (Q R : A → Prop) :
  frame n m Q → (∀ a, Q a → R a) → frame n m R.
Proof.
  intros Hm HQR w Hn. destruct (Hm w Hn) as (? & ? & ? & HQ). eauto 10.
Qed.

Lemma frame_ret {A} n (a : A) (Q : A → Prop) : Q a → frame n (ret (T:=T) a) Q.
Proof. intros HQ w Hn. cbn. repeat split; auto. by intros ? [= <-]. Qed.

Lemma frame_raise {A} n e (Q : A → Prop) : frame n (raise (T:=T) e) Q.
Proof. intros w Hn. cbn. repeat split; auto. intros ? [=]. Qed.

Lemma frame_bind {A B} n (m : M T A) (k : A → M T B) Q R :
  frame n m Q → (∀ a, Q a → frame n (k a) R) → frame n (bind m k) R.
Proof.
  intros Hm Hk w Hn. destruct (Hm w Hn) as (Ho & Hl & Hb & HQ).
  unfold bind. destruct (m w) as [[a|e] w1] eqn:E; cbn in *.
  - destruct (Hk a (HQ a eq_refl) w1 ltac:(lia)) as (Ho' & Hl' & Hb' & HR).
    repeat split.
    + by rewrite Ho'.
    + lia.
    + by etrans.
    + done.
  - repeat split; auto. intros ? [=].
Qed.

Lemma frame_if {A} n (b : bool) (m1 m2 : M T A) Q :
  frame n m1 Q → frame n m2 Q → frame n (if b then m1 else m2) Q.
Proof. by destruct b. Qed.

Lemma frame_deref n r : frame n (deref (T:=T) r) (λ _, True).
Proof.
  intros w Hn. unfold deref; wsimpl. destruct (objs w !! r); wsimpl; repeat split; auto.
Qed.

Lemma frame_assign n r f : (n ≤ r)%nat → frame n (assign (T:=T) r f) (λ _, True).
Proof.
  intros Hr w Hn. unfold assign; wsimpl. destruct (objs w !! r); wsimpl; repeat split; auto.
  - by rewrite take_insert_ge.
  - by rewrite length_insert.
Qed.

Lemma frame_new_object n x : frame n (new_object (T:=T) x) (λ r, (n ≤ r)%nat).
Proof.
  intros w Hn. unfold new_object; wsimpl. repeat split; auto.
  - by rewrite take_app_le.
  - rewrite length_app. lia.
  - intros ? [= <-]. done.
Qed.

Lemma frame_copy_copy n self : frame n (copy_copy (T:=T) self) (λ r, (n ≤ r)%nat).
Proof.
  unfold copy_copy. eapply frame_bind; [apply frame_deref|].
  intros x _. apply frame_new_object.
Qed.

Lemma frame_new_buffer n data : frame n (new_buffer (T:=T) data) (λ _, True).
Proof.
  intros w Hn. unfold new_buffer; wsimpl. repeat split; auto.
  by apply prefix_app_r.
Qed.

Lemma frame_read_buffer n h : frame n (read_buffer (T:=T) h) (λ _, True).
Proof.
  intros w Hn. unfold read_buffer; wsimpl. destruct (bufs w !! h); wsimpl; repeat split; auto.
Qed.

Lemma frame_cl_build n name program :
  frame n (cl_build (T:=T) name program) (λ _, True).
Proof.
  intros w Hn. unfold cl_build; wsimpl.
  destruct (list_find _ _) as [[i e]|]; wsimpl; repeat split; auto.
Qed.

Lemma frame_py_assert n b msg : frame n (py_assert (T:=T) b msg) (λ _, True).
Proof. destruct b; [by apply frame_ret | apply frame_raise]. Qed.

Lemma frame_alloc_buffer n sh dt hostbuf :
  frame n (alloc_buffer (T:=T) sh dt hostbuf) (λ _, True).
Proof.
  unfold alloc_buffer. apply frame_if; [apply frame_raise|].
  destruct hostbuf; apply frame_new_buffer.
Qed.

Lemma frame_update_contiguousness n self :
  (n ≤ self)%nat → frame n (update_contiguousness (T:=T) self) (λ _, True).
Proof.
  intros Hs. unfold update_contiguousness.
  eapply frame_bind; [apply frame_deref|]. intros x _.
  destruct (non_unit_strides x); [|apply frame_raise].
  eapply frame_bind; [by apply frame_assign|]. intros _ _.
  by apply frame_assign.
Qed.

Lemma frame_GPUArray_init n data sh dt :
  frame n (GPUArray_init (T:=T) data sh dt) (λ r, (n ≤ r)%nat).
Proof.
  unfold GPUArray_init.
  eapply frame_bind with (Q := λ _, True).
  { destruct data as [h|a|a|].
    - destruct sh; [by apply frame_ret | apply frame_raise].
    - eapply frame_bind; [apply frame_alloc_buffer|].
      intros; by apply frame_ret.
    - eapply frame_bind; [apply frame_alloc_buffer|].
      intros; by apply frame_ret.
    - destruct sh; [|apply frame_raise].
      eapply frame_bind; [apply frame_alloc_buffer|].
      intros; by apply frame_ret. }
  intros bs _. eapply frame_bind; [apply frame_new_object|].
  intros self Hself. eapply frame_bind; [by apply frame_update_contiguousness|].
  intros _ _. by apply frame_ret.
Qed.

Lemma frame_getattr_missing {A} n x name (Q : A → Prop) :
  frame n (getattr_missing (T:=T) x name) Q.
Proof.
  unfold getattr_missing. eapply frame_bind; [apply frame_deref|].
  intros; apply frame_raise.
Qed.

Lemma frame_contiguous_op n x :
  frame n (contiguous_op (T:=T) x) (λ r, (n ≤ r)%nat).
Proof.
  unfold contiguous_op. eapply frame_bind; [apply frame_deref|]. intros xo _.
  eapply frame_bind; [apply frame_GPUArray_init|]. intros r Hr.
  eapply frame_bind; [apply (frame_getattr_missing _ _ _ (λ _, False))|].
  by intros ? [].
Qed.

Lemma frame_shape_at n inst i : frame n (shape_at (T:=T) inst i) (λ _, True).
Proof.
  unfold shape_at. eapply frame_bind; [apply frame_deref|]. intros o _.
  destruct (shape o !! i); [by apply frame_ret | apply frame_raise].
Qed.

Lemma frame_strides_at n inst i : frame n (strides_at (T:=T) inst i) (λ _, True).
Proof.
  unfold strides_at. eapply frame_bind; [apply frame_deref|]. intros o _.
  destruct (strides o !! i); [by apply frame_ret | apply frame_raise].
Qed.

(** A tactic for the routine steps: a bind whose first computation is one
    of the primitives above. *)
Ltac frame_prim :=
  first
    [ apply frame_deref | apply frame_shape_at | apply frame_strides_at
    | apply frame_read_buffer | apply frame_new_buffer | apply frame_cl_build
    | apply frame_py_assert | apply frame_alloc_buffer
    | by apply frame_ret | apply frame_raise
    | by apply frame_assign | by apply frame_update_contiguousness ].

Ltac frame_go :=
  repeat first
    [ frame_prim
    | apply frame_if
    | eapply frame_bind; [frame_prim|intros ? _]
    | eapply frame_bind with (Q := λ _, True); [|intros ? _] ].

Lemma frame_getitem_loop n inst key : ∀ i reduce shp,
  (n ≤ inst)%nat →
  frame n (getitem_loop (T:=T) inst i key reduce shp) (λ _, True).
Proof.
  induction key as [|[k|start stop step] key IH]; intros i reduce shp Hn;
    cbn [getitem_loop].
  - by apply frame_ret.
  - frame_go. by apply IH.
  - frame_go; try destruct stop; frame_go; by apply IH.
Qed.

Lemma frame_GPUArray_getitem n self key :
  frame n (GPUArray_getitem (T:=T) self key) (λ r, (n ≤ r)%nat).
Proof.
  unfold GPUArray_getitem.
  eapply frame_bind; [apply frame_copy_copy|]. intros inst Hi.
  eapply frame_bind; [apply frame_deref|]. intros io _.
  eapply frame_bind; [by apply frame_getitem_loop|]. intros rs _.
  frame_go.
Qed.

Lemma frame_expand_loop n inst pairs : ∀ i st,
  frame n (expand_loop (T:=T) inst i pairs st) (λ _, True).
Proof.
  induction pairs as [|[s1 s2] pairs IH]; intros i st; cbn [expand_loop].
  - by apply frame_ret.
  - frame_go. apply IH.
Qed.

Lemma frame_GPUArray_expand n self target :
  frame n (GPUArray_expand (T:=T) self target) (λ r, (n ≤ r)%nat).
Proof.
  unfold GPUArray_expand.
  eapply frame_bind; [apply frame_copy_copy|]. intros inst Hi.
  eapply frame_bind; [apply frame_deref|]. intros io _.
  eapply frame_bind; [apply frame_py_assert|]. intros _ _.
  eapply frame_bind; [apply frame_expand_loop|]. intros st _.
  frame_go.
Qed.

Lemma frame_index_all n l axes : frame n (index_all (T:=T) l axes) (λ _, True).
Proof.
  unfold index_all. destruct (mapM _ _); [by apply frame_ret|apply frame_raise].
Qed.

Lemma frame_GPUArray_permute n self axes :
  frame n (GPUArray_permute (T:=T) self axes) (λ r, (n ≤ r)%nat).
Proof.
  unfold GPUArray_permute.
  eapply frame_bind; [apply frame_copy_copy|]. intros inst Hi.
  eapply frame_bind; [apply frame_deref|]. intros io _.
  eapply frame_bind; [apply frame_index_all|]. intros st _.
  eapply frame_bind; [by apply frame_assign|]. intros _ _.
  eapply frame_bind; [apply frame_deref|]. intros io' _.
  eapply frame_bind; [apply frame_index_all|]. intros sh _.
  frame_go.
Qed.

Lemma frame_reshape_rec n fuel : ∀ self target,
  frame n (reshape_rec (T:=T) fuel self target) (λ r, (n ≤ r)%nat).
Proof.
  induction fuel as [|fuel IH]; intros self target; cbn [reshape_rec].
  - apply frame_raise.
  - eapply frame_bind; [apply frame_deref|]. intros so _.
    eapply frame_bind with (Q := λ _, True).
    { apply frame_if; [|by apply frame_ret]. frame_go. }
    intros target' _.
    eapply frame_bind; [apply frame_py_assert|]. intros _ _.
    apply frame_if.
    + eapply frame_bind; [apply frame_copy_copy|]. intros inst Hi. frame_go.
    + eapply frame_bind; [apply frame_contiguous_op|]. intros c _. apply IH.
Qed.

End Frames.

(** ** View transforms never touch existing arrays *)

Section TransformsFrame.
Context {T : Type} {F : Float32 T}.

Lemma frame_preserved (m : M T ref) (w : world T) :
  frame (length (objs w)) m (λ r, (length (objs w) ≤ r)%nat) →
  preserved w (m w).2 ∧ fresh_in w (m w).1.
Proof.
  intros Hm. destruct (Hm w (le_n _)) as (Ho & Hl & Hb & HQ).
  rewrite firstn_all in Ho. repeat split.
  - intros u x Hu. rewrite <- Ho in Hu.
    by rewrite lookup_take_Some in Hu; destruct Hu.
  - intros h b Hh. by eapply prefix_lookup_Some.
  - exact HQ.
Qed.

(** C9. Index/slice, reshape, permute and expand return a new descriptor
    and leave every existing descriptor (the one of [v] included) and every
    existing buffer as they were, whether they return or raise. *)
Theorem C9_transforms_frame (w : world T) (v : ref)
    (key : list index_key) (target axes : list Z) :
  (preserved w (GPUArray_getitem v key w).2 ∧
   fresh_in w (GPUArray_getitem v key w).1) ∧
  (preserved w (GPUArray_reshape v target w).2 ∧
   fresh_in w (GPUArray_reshape v target w).1) ∧
  (preserved w (GPUArray_permute v axes w).2 ∧
   fresh_in w (GPUArray_permute v axes w).1) ∧
  (preserved w (GPUArray_expand v target w).2 ∧
   fresh_in w (GPUArray_expand v target w).1).
Proof.
  split; [|split; [|split]]; apply frame_preserved.
  - apply frame_GPUArray_getitem.
  - exact (frame_reshape_rec _ recursion_limit v target).
  - apply frame_GPUArray_permute.
  - apply frame_GPUArray_expand.
Qed.

End TransformsFrame.

(** ** The freshly copied object *)

Section Push.
Context {T : Type} {F : Float32 T}.
Implicit Types w : world T.

Lemma push_lookup w x : objs (push w x) !! length (objs w) = Some x.
Proof. unfold push; wsimpl. by rewrite lookup_app_r, Nat.sub_diag. Qed.

Lemma push_insert w x y :
  set_objs (<[length (objs w) := y]> (objs (push w x))) (push w x) = push w y.
Proof.
  unfold push, set_objs; wsimpl. f_equal.
  rewrite insert_app_r_alt, Nat.sub_diag by lia. done.
Qed.

Lemma copy_copy_ok w self x :
  objs w !! self = Some x → copy_copy self w = (Ok (length (objs w)), push w x).
Proof. intros H. unfold copy_copy. by rewrite (bind_ok _ _ _ _ _ (deref_ok _ _ _ H)). Qed.

Lemma deref_push w x : deref (length (objs w)) (push w x) = (Ok x, push w x).
Proof. apply deref_ok, push_lookup. Qed.

Lemma assign_push w x f :
  assign (length (objs w)) f (push w x) = (Ok (), push w (f x)).
Proof. rewrite (assign_ok _ _ _ _ (push_lookup w x)). by rewrite push_insert. Qed.

Lemma shape_at_push w x i :
  shape_at (length (objs w)) i (push w x) =
  match shape x !! i with
  | Some s => (Ok s, push w x)
  | None => (Raise IndexError, push w x)
  end.
Proof.
  unfold shape_at. rewrite (bind_ok _ _ _ _ _ (deref_push w x)).
  by destruct (shape x !! i).
Qed.

Lemma strides_at_push w x i :
  strides_at (length (objs w)) i (push w x) =
  match strides x !! i with
  | Some s => (Ok s, push w x)
  | None => (Raise IndexError, push w x)
  end.
Proof.
  unfold strides_at. rewrite (bind_ok _ _ _ _ _ (deref_push w x)).
  by destruct (strides x !! i).
Qed.

End Push.

(** ** [expand] *)

Section Expand.
Context {T : Type} {F : Float32 T}.
Implicit Types w : world T.

Lemma expand_loop_spec w x : ∀ pairs i acc,
  (length pairs ≤ length (drop i (strides x)))%nat →
  expand_loop (length (objs w)) i pairs acc (push w x) =
  if forallb (λ p : Z * Z, negb (p.1 <? p.2) || (p.1 =? 1)) pairs
  then (Ok (acc ++ zip_with (λ (p : Z * Z) t, if p.1 <? p.2 then 0 else t)
                            pairs (drop i (strides x))), push w x)
  else (Raise (AssertionError ""), push w x).
Proof.
  induction pairs as [|[s1 s2] pairs IH]; intros i acc Hlen.
  - cbn. by rewrite app_nil_r.
  - destruct (drop i (strides x)) as [|t rest] eqn:Hd; [cbn in Hlen; lia|].
    assert (strides x !! i = Some t) as Hi.
    { rewrite <- (Nat.add_0_r i), <- lookup_drop, Hd. done. }
    assert (drop (S i) (strides x) = rest) as Hd'.
    { rewrite (drop_S _ _ _ Hi) in Hd. by injection Hd. }
    cbn [expand_loop forallb zip_with fst snd].
    destruct (s1 <? s2) eqn:Hlt; cbn [negb orb].
    + destruct (s1 =? 1) eqn:H1; cbn [andb].
      * unfold bind at 1. rewrite py_assert_true.
        unfold bind at 1. cbn [ret].
        rewrite IH by (rewrite Hd'; cbn in Hlen; lia).
        rewrite Hd', <- app_assoc. done.
      * unfold bind at 1. by rewrite py_assert_false.
    + unfold bind at 1. cbn [ret]. unfold bind at 1.
      rewrite strides_at_push, Hi.
      rewrite IH by (rewrite Hd'; cbn in Hlen; lia).
      rewrite Hd', <- app_assoc. done.
Qed.

(** C7. For a target of the same rank, [expand] succeeds
    exactly when every dimension that is smaller than its target has size 1;
    it then takes the target as shape, gives every grown dimension stride 0,
    keeps the other strides and clears both contiguity flags.  A dimension
    larger than its target is accepted and keeps its stride.  Otherwise an
    assertion fails. *)
Theorem C7_expand_grows_unit_dimensions (w : world T) (self : ref)
    (x : GPUArray) (target : list Z) :
  objs w !! self = Some x →
  length (strides x) = length (shape x) →
  length target = length (shape x) →
  GPUArray_expand self target w =
  if expandable (shape x) target
  then (Ok (length (objs w)),
        push w (mkGPUArray (buffer x) target (dtype_of x)
                  (expanded_strides (shape x) target (strides x))
                  (offset x) false false))
  else (Raise (AssertionError ""), push w x).
Proof.
  intros Hx Hst Hlen. unfold GPUArray_expand.
  rewrite (bind_ok _ _ _ _ _ (copy_copy_ok _ _ _ Hx)).
  rewrite (bind_ok _ _ _ _ _ (deref_push w x)).
  rewrite bool_decide_eq_true_2 by done.
  unfold bind at 1. rewrite py_assert_true.
  unfold bind at 1. rewrite expand_loop_spec.
  2:{ rewrite length_zip, drop_0. lia. }
  unfold expandable, expanded_strides. rewrite drop_0, app_nil_l.
  destruct (forallb _ _); [|done].
  unfold bind at 1. rewrite assign_push.
  unfold bind at 1. rewrite assign_push. done.
Qed.

End Expand.

(** ** [__getitem__] *)

Section Getitem.
Context {T : Type} {F : Float32 T}.
Implicit Types w : world T.

Lemma int_key_valid size k :
  (- size <=? k) && (k <? size) = true →
  (if k <? 0 then k + size else k) = k `mod` size ∧
  0 ≤ k `mod` size < size.
Proof.
  intros H. apply andb_true_iff in H as [H1 H2].
  apply Z.leb_le in H1. apply Z.ltb_lt in H2.
  destruct (k <? 0) eqn:Hk.
  - apply Z.ltb_lt in Hk.
    rewrite <- (Z.mod_unique k size (-1) (k + size)) by lia. lia.
  - apply Z.ltb_ge in Hk. rewrite Z.mod_small by lia. lia.
Qed.

Lemma int_key_invalid size k :
  (- size <=? k) && (k <? size) = false →
  let k' := if k <? 0 then k + size else k in
  (0 <=? k') && (k' <? size) = false.
Proof.
  intros H. apply andb_false_iff in H. cbn zeta.
  apply andb_false_iff. destruct (k <? 0) eqn:Hk.
  - apply Z.ltb_lt in Hk. destruct H as [H|H].
    + apply Z.leb_gt in H. left. apply Z.leb_gt. lia.
    + apply Z.ltb_ge in H. lia.
  - apply Z.ltb_ge in Hk. destruct H as [H|H].
    + apply Z.leb_gt in H. lia.
    + apply Z.ltb_ge in H. right. apply Z.ltb_ge. lia.
Qed.

Ltac mstep Hi Hs :=
  repeat first
    [ progress (rewrite ?shape_at_push, ?strides_at_push, ?assign_push,
                        ?Hi, ?Hs)
    | progress (cbn [ret raise py_assert])
    | unfold bind at 1 ].

(** One round of the loop on an integer. *)
Lemma getitem_loop_int w cur i k key reduce shp size stride :
  shape cur !! i = Some size →
  strides cur !! i = Some stride →
  getitem_loop (length (objs w)) i (KInt k :: key) reduce shp (push w cur) =
  if (- size <=? k) && (k <? size)
  then getitem_loop (length (objs w)) (S i) key (reduce ++ [i]) shp
         (push w (set_offset (offset cur + stride * (k `mod` size)) cur))
  else (Raise (AssertionError "Invalid indexing"), push w cur).
Proof.
  intros Hi Hs. cbn [getitem_loop].
  destruct ((- size <=? k) && (k <? size)) eqn:Hv.
  - destruct (int_key_valid _ _ Hv) as [Hk [H0 H1]].
    destruct (k <? 0) eqn:Hneg; mstep Hi Hs;
      [rewrite Hk | rewrite <- Hk in H0, H1 |- *];
      rewrite (proj2 (Z.leb_le _ _) H0); mstep Hi Hs;
      rewrite (proj2 (Z.ltb_lt _ _) H1); mstep Hi Hs; done.
  - pose proof (int_key_invalid _ _ Hv) as Hk. cbn zeta in Hk.
    destruct (k <? 0) eqn:Hneg; mstep Hi Hs;
      destruct (0 <=? _) eqn:H0; cbn [andb] in Hk; mstep Hi Hs;
      rewrite ?Hk; mstep Hi Hs; done.
Qed.

(** One round of the loop on a slice. *)
Lemma getitem_loop_slice w cur i start stop step key reduce shp size stride :
  shape cur !! i = Some size →
  strides cur !! i = Some stride →
  getitem_loop (length (objs w)) i (KSlice start stop step :: key) reduce shp
    (push w cur) =
  let a := wrap size (default 0 start) in
  let b := wrap size (default size stop) in
  if (0 <=? a) && (a <? b) && (b <=? size)
  then getitem_loop (length (objs w)) (S i) key reduce (<[i := b - a]> shp)
         (push w (set_contiguous false false
                    (set_offset (offset cur + stride * a) cur)))
  else (Raise (AssertionError "Invalid slicing"), push w cur).
Proof.
  intros Hi Hs. cbn [getitem_loop]. cbn zeta. unfold wrap.
  destruct start as [start|]; destruct stop as [stop|];
    cbn [default from_option id];
    repeat (mstep Hi Hs; cbn [andb];
            match goal with
            | |- context [?x <? ?y] => destruct (x <? y) eqn:?
            | |- context [?x <=? ?y] => destruct (x <=? y) eqn:?
            end);
    mstep Hi Hs; done.
Qed.

(** Filtering by axis, piecewise. *)
Lemma not_in_axes_app {A} (reduce : list nat) (l1 l2 : list A) :
  not_in_axes reduce (l1 ++ l2) =
  not_in_axes reduce l1 ++
  omap (λ p : nat * A, if bool_decide (p.1 ∈ reduce) then None else Some p.2)
       (zip (seq (length l1) (length l2)) l2).
Proof.
  unfold not_in_axes. rewrite length_app, seq_app, zip_with_app, omap_app.
  - done.
  - by rewrite length_seq.
Qed.

Lemma omap_axes_kept {A} (reduce : list nat) (l : list A) n :
  (∀ j, (n ≤ j)%nat → j ∉ reduce) →
  omap (λ p : nat * A, if bool_decide (p.1 ∈ reduce) then None else Some p.2)
       (zip (seq n (length l)) l) = l.
Proof.
  revert n. induction l as [|a l IH]; intros n Hn; [done|].
  cbn. rewrite bool_decide_eq_false_2 by (apply Hn; lia).
  cbn. f_equal. apply IH. intros j Hj. apply Hn. lia.
Qed.

Lemma not_in_axes_snoc_removed {A} (reduce : list nat) (l : list A) a :
  not_in_axes (reduce ++ [length l]) (l ++ [a]) = not_in_axes reduce l.
Proof.
  rewrite not_in_axes_app. cbn.
  rewrite bool_decide_eq_true_2
    by (rewrite elem_of_app, list_elem_of_singleton; auto).
  cbn. rewrite app_nil_r.
  unfold not_in_axes.
  assert (∀ n : nat, omap
    (λ p : nat * A, if bool_decide (p.1 ∈ reduce ++ [(n + length l)%nat])
                    then None else Some p.2) (zip (seq n (length l)) l) =
    omap (λ p : nat * A, if bool_decide (p.1 ∈ reduce) then None else Some p.2)
         (zip (seq n (length l)) l)) as H.
  { clear a. induction l as [|b l IH]; intros n; [done|]. cbn.
    replace (n + S (length l))%nat with (S n + length l)%nat by lia.
    rewrite IH. destruct (bool_decide (n ∈ reduce)) eqn:E.
    - rewrite bool_decide_eq_true_2; [done|].
      apply bool_decide_eq_true in E. rewrite elem_of_app. auto.
    - rewrite bool_decide_eq_false_2; [done|].
      apply bool_decide_eq_false in E.
      rewrite elem_of_app, list_elem_of_singleton. intros [?|?]; [done|lia]. }
  apply (H 0%nat).
Qed.

Lemma not_in_axes_snoc_kept {A} (reduce : list nat) (l : list A) a :
  length l ∉ reduce →
  not_in_axes reduce (l ++ [a]) = not_in_axes reduce l ++ [a].
Proof.
  intros H. rewrite not_in_axes_app. cbn.
  by rewrite bool_decide_eq_false_2.
Qed.

Lemma take_S_lookup {A} (l : list A) i a :
  l !! i = Some a → take (S i) l = take i l ++ [a].
Proof. intros H. by apply take_S_r. Qed.

Lemma drop_cons_inv {A} (l : list A) i a rest :
  drop i l = a :: rest → l !! i = Some a ∧ drop (S i) l = rest.
Proof.
  intros H. assert (l !! i = Some a) as Hi.
  { rewrite <- (Nat.add_0_r i), <- lookup_drop, H. done. }
  split; [done|]. rewrite (drop_S _ _ _ Hi) in H. by injection H.
Qed.

(** The loop against the per-dimension reference. *)
Lemma getitem_loop_spec w : ∀ key i reduce shp cur,
  length (strides cur) = length (shape cur) →
  length shp = length (shape cur) →
  drop i shp = drop i (shape cur) →
  Forall (λ j, (j < i)%nat) reduce →
  (length key + i ≤ length (shape cur))%nat →
  match spec_dims (drop i (shape cur)) (drop i (strides cur)) key with
  | Some r =>
      ∃ rf sf,
        getitem_loop (length (objs w)) i key reduce shp (push w cur) =
        (Ok (rf, sf),
         push w (mkGPUArray (buffer cur) (shape cur) (dtype_of cur)
                   (strides cur) (offset cur + offset_delta r)
                   (if sliced r then false else c_contiguous cur)
                   (if sliced r then false else f_contiguous cur))) ∧
        not_in_axes rf sf = not_in_axes reduce (take i shp) ++ new_shape r ∧
        not_in_axes rf (strides cur) =
        not_in_axes reduce (take i (strides cur)) ++ new_strides r
  | None =>
      ∃ msg w',
        getitem_loop (length (objs w)) i key reduce shp (push w cur) =
        (Raise (AssertionError msg), w') ∧
        (msg = "Invalid indexing" ∨ msg = "Invalid slicing")
  end.
Proof.
  induction key as [|k key IH]; intros i reduce shp cur Hst Hshp Hdrop Hred Hlen.
  - cbn [spec_dims getitem_loop new_shape new_strides offset_delta sliced].
    exists reduce, shp. split_and!.
    + unfold ret. do 2 f_equal. destruct cur; cbn. f_equal. lia.
    + rewrite <- Hdrop. rewrite <- (take_drop i shp) at 1.
      rewrite not_in_axes_app. f_equal. apply omap_axes_kept.
      intros j Hj Hin. rewrite Forall_forall in Hred.
      apply Hred in Hin. rewrite length_take in Hj. cbn in Hlen. lia.
    + rewrite <- (take_drop i (strides cur)) at 1.
      rewrite not_in_axes_app. f_equal. apply omap_axes_kept.
      intros j Hj Hin. rewrite Forall_forall in Hred.
      apply Hred in Hin. rewrite length_take in Hj. cbn in Hlen. lia.
  - cbn [length] in Hlen.
    destruct (drop i (shape cur)) as [|size sh'] eqn:Hsh.
    { apply (f_equal length) in Hsh. rewrite length_drop in Hsh. cbn in Hsh. lia. }
    destruct (drop i (strides cur)) as [|stride st'] eqn:Hstr.
    { apply (f_equal length) in Hstr. rewrite length_drop in Hstr.
      cbn in Hstr. lia. }
    destruct (drop_cons_inv _ _ _ _ Hsh) as [Hi Hsh'].
    destruct (drop_cons_inv _ _ _ _ Hstr) as [Hs Hstr'].
    destruct (drop_cons_inv _ _ _ _ Hdrop) as [Hshpi Hdrop'].
    assert (length (take i shp) = i) as Hti by (rewrite length_take; lia).
    assert (length (take i (strides cur)) = i) as Htis
      by (rewrite length_take; lia).
    assert (i ∉ reduce) as Hnotin.
    { intros Hin. rewrite Forall_forall in Hred. apply Hred in Hin. lia. }
    assert (Forall (λ j, (j < S i)%nat) reduce) as Hred'.
    { eapply Forall_impl; [exact Hred|]. cbn. lia. }
    cbn [spec_dims]. destruct k as [k|start stop step].
    + rewrite (getitem_loop_int _ _ _ _ _ _ _ _ _ Hi Hs). cbn [spec_key].
      destruct ((- size <=? k) && (k <? size));
        [|by eexists _, _; split; [reflexivity|auto]].
      set (cur1 := set_offset _ cur).
      specialize (IH (S i) (reduce ++ [i]) shp cur1 Hst Hshp).
      cbn [shape strides cur1 set_offset] in IH.
      rewrite Hsh', Hstr' in IH. specialize (IH Hdrop').
      assert (Forall (λ j, (j < S i)%nat) (reduce ++ [i])) as Hred''.
      { apply Forall_app. split; [done|]. constructor; [lia|constructor]. }
      specialize (IH Hred'' ltac:(lia)).
      destruct (spec_dims sh' st' key) as [r|]; [|exact IH].
      destruct IH as (rf & sf & Hrun & H1 & H2).
      exists rf, sf; split_and!;
        cbn [new_shape new_strides offset_delta sliced].
      * rewrite Hrun. do 2 f_equal. cbn. f_equal. lia.
      * rewrite H1, (take_S_lookup _ _ _ Hshpi).
        rewrite <- Hti at 1. by rewrite not_in_axes_snoc_removed.
      * rewrite H2, (take_S_lookup _ _ _ Hs).
        rewrite <- Htis at 1. by rewrite not_in_axes_snoc_removed.
    + rewrite (getitem_loop_slice _ _ _ _ _ _ _ _ _ _ _ Hi Hs).
      cbn zeta. cbn [spec_key].
      set (a := wrap size (default 0 start)).
      set (b := wrap size (default size stop)).
      destruct ((0 <=? a) && (a <? b) && (b <=? size));
        [|by eexists _, _; split; [reflexivity|auto]].
      set (cur1 := set_contiguous _ _ _).
      specialize (IH (S i) reduce (<[i := b - a]> shp) cur1 Hst).
      cbn [shape strides cur1 set_offset set_contiguous] in IH.
      rewrite Hsh', Hstr' in IH.
      specialize (IH ltac:(by rewrite length_insert)
                     ltac:(by rewrite drop_insert_lt by lia)
                     Hred' ltac:(lia)).
      destruct (spec_dims sh' st' key) as [r|]; [|exact IH].
      destruct IH as (rf & sf & Hrun & H1 & H2).
      exists rf, sf; split_and!;
        cbn [new_shape new_strides offset_delta sliced].
      * rewrite Hrun. subst cur1. do 2 f_equal. cbn.
        f_equal; first [lia | by destruct (sliced r)].
      * rewrite H1.
        assert (take (S i) (<[i:=b - a]> shp) = take i shp ++ [b - a]) as ->.
        { rewrite (take_S_lookup _ _ (b - a)).
          - by rewrite take_insert_ge.
          - apply list_lookup_insert_eq. apply lookup_lt_Some in Hshpi. lia. }
        rewrite not_in_axes_snoc_kept by (by rewrite Hti).
        by rewrite <- app_assoc.
      * rewrite H2, (take_S_lookup _ _ _ Hs).
        rewrite not_in_axes_snoc_kept by (by rewrite Htis).
        by rewrite <- app_assoc.
Qed.

(** C6. An integer index in range (negative ones wrapped modulo the size)
    removes its dimension and adds [stride * index] to the offset; a slice
    with [0 ≤ start < stop ≤ size] (defaults 0 and size, negative bounds
    wrapped) sets the size to [stop - start], adds [stride * start] to the
    offset and clears both contiguity flags; any other key element raises.
    The error the design document files under IndexError is the failed
    [assert] of the code. *)
Theorem C6_getitem_index_and_slice (w : world T) (self : ref)
    (x : GPUArray) (key : list index_key) :
  objs w !! self = Some x →
  length (strides x) = length (shape x) →
  (length key ≤ length (shape x))%nat →
  match spec_getitem x key with
  | Some y => GPUArray_getitem self key w = (Ok (length (objs w)), push w y)
  | None =>
      ∃ msg w',
        GPUArray_getitem self key w = (Raise (AssertionError msg), w') ∧
        (msg = "Invalid indexing" ∨ msg = "Invalid slicing")
  end.
Proof.
  intros Hx Hst Hlen. unfold GPUArray_getitem, spec_getitem.
  rewrite (bind_ok _ _ _ _ _ (copy_copy_ok _ _ _ Hx)).
  rewrite (bind_ok _ _ _ _ _ (deref_push w x)).
  pose proof (getitem_loop_spec w key 0 [] (shape x) x Hst eq_refl eq_refl
                ltac:(constructor) ltac:(lia)) as H.
  rewrite !drop_0 in H.
  destruct (spec_dims (shape x) (strides x) key) as [r|].
  - destruct H as (rf & sf & Hrun & H1 & H2).
    rewrite (bind_ok _ _ _ _ _ Hrun). cbn [fst snd].
    unfold bind at 1. rewrite assign_push.
    unfold bind at 1. rewrite deref_push.
    unfold bind at 1. rewrite assign_push.
    cbn [ret set_shape set_strides buffer shape dtype_of strides offset
         c_contiguous f_contiguous].
    rewrite H1, H2. done.
  - destruct H as (msg & w' & Hrun & Hmsg).
    exists msg, w'. split; [|done].
    by rewrite (bind_raise _ _ _ _ _ Hrun).
Qed.

End Getitem.

(** ** The kernel cache *)

Section Cache.
Context {T : Type}.
Implicit Types w : world T.
Implicit Types c : list (cache_key * kernel).

Lemma delete_app_l {A} (l1 l2 : list A) (i : nat) :
  (i < length l1)%nat → delete i (l1 ++ l2) = delete i l1 ++ l2.
Proof.
  revert i. induction l1 as [|a l1 IH]; intros [|i] H; cbn in *; try lia; [done|].
  f_equal. apply IH. lia.
Qed.

Lemma delete_app_r {A} (l1 l2 : list A) (i : nat) :
  delete (length l1 + i)%nat (l1 ++ l2) = l1 ++ delete i l2.
Proof. induction l1 as [|a l1 IH]; cbn; [done|]. by f_equal. Qed.

Lemma retained_cached w key k seen :
  retained key k seen (cache w) → cached w key = Some k.
Proof.
  intros (pre & post & Hc & Hnot & _ & _). unfold cached. rewrite Hc.
  assert (list_find (λ e : cache_key * kernel, e.1 = key)
            (pre ++ (key, k) :: post) = Some (length pre, (key, k))) as ->; [|done].
  apply list_find_app_Some. right. split_and!.
  - lia.
  - apply list_find_None, Forall_forall. intros e He Heq. apply Hnot.
    apply list_elem_of_fmap. eauto.
  - rewrite Nat.sub_diag. cbn. by rewrite decide_True.
Qed.

Lemma retained_bound key k seen c :
  retained key k seen c →
  ∃ pre post, c = pre ++ (key, k) :: post ∧ (length pre ≤ length seen)%nat.
Proof.
  intros (pre & post & Hc & _ & Hnd & Hsub). exists pre, post. split; [done|].
  rewrite <- (length_fmap fst pre).
  apply submseteq_length, NoDup_submseteq; done.
Qed.

(** A hit returns the stored callable and compiles nothing. *)
Lemma cl_build_hit w key k seen :
  retained key k seen (cache w) →
  ∃ w', cl_build key.1 key.2 w = (Ok k, w') ∧ builds w' = builds w ∧
        retained key k seen (cache w').
Proof.
  intros Hr. pose proof (retained_cached _ _ _ _ Hr) as Hc.
  unfold cached in Hc. unfold cl_build. destruct key as [name src]; cbn [fst snd].
  destruct (list_find _ (cache w)) as [[i e]|] eqn:Hf; [|done].
  cbn in Hc. injection Hc as Hk. eexists. split_and!; [by rewrite Hk|done|].
  wsimpl. apply list_find_Some in Hf as (Hi & He & _).
  exists [], (delete i (cache w)). destruct e as [ke k']; cbn in *; subst.
  split_and!; cbn;
      [done | by intros ?%elem_of_nil | constructor
      | by intros x ?%elem_of_nil].
Qed.

(** The first call leaves the entry in front, whether it hit or missed. *)
Lemma cl_build_first w name src :
  ∃ k w1, cl_build name src w = (Ok k, w1) ∧
    (builds w1 = builds w ∧ cached w (name, src) = Some k ∨
     builds w1 = S (builds w) ∧ cached w (name, src) = None ∧ k = builds w) ∧
    retained (name, src) k [] (cache w1).
Proof.
  unfold cl_build, cached.
  destruct (list_find _ (cache w)) as [[i e]|] eqn:Hf.
  - eexists _, _. split_and!; [done|by left|]. wsimpl.
    apply list_find_Some in Hf as (Hi & He & _).
    exists [], (delete i (cache w)). destruct e as [ke k']; cbn in *; subst.
    split_and!; cbn;
      [done | by intros ?%elem_of_nil | constructor
      | by intros x ?%elem_of_nil].
  - eexists _, _. split_and!; [done|by right|]. wsimpl.
    exists [], (take (pred lru_maxsize) (cache w)).
    split_and!; cbn;
      [done | by intros ?%elem_of_nil | constructor
      | by intros x ?%elem_of_nil].
Qed.

(** A call on another key keeps the entry, as long as fewer than
    [lru_maxsize] other keys are in use. *)
Lemma cl_build_other w key k seen name src :
  (name, src) ≠ key → (name, src) ∈ seen →
  (length seen < lru_maxsize)%nat →
  retained key k seen (cache w) →
  retained key k seen (cache (cl_build name src w).2).
Proof.
  intros Hne Hin Hlen (pre & post & Hc & Hnot & Hnd & Hsub).
  unfold cl_build. destruct (list_find _ (cache w)) as [[i e]|] eqn:Hf; wsimpl.
  - rewrite Hc in Hf |- *. apply list_find_app_Some in Hf as [Hf|(Hi & Hf1 & Hf2)].
    + apply list_find_Some in Hf as (Hi & He & _).
      exists (e :: delete i pre), post.
      pose proof (delete_Permutation _ _ _ Hi) as Hp.
      split_and!.
      * rewrite delete_app_l by (by eapply lookup_lt_Some). done.
      * rewrite <- Hp. done.
      * rewrite <- Hp. done.
      * intros x Hx. apply Hsub. by rewrite Hp.
    + cbn in Hf2. rewrite decide_False in Hf2 by (cbn; congruence).
      destruct (list_find _ post) as [[j e']|] eqn:Hf3; [|done].
      cbn in Hf2. injection Hf2 as Hj He. subst e'.
      apply list_find_Some in Hf3 as (Hj' & He & _).
      exists (e :: pre), (delete j post).
      assert (e.1 ∉ pre.*1) as Hfresh.
      { rewrite list_find_None, Forall_forall in Hf1.
        intros (y & Hy1 & Hy2)%list_elem_of_fmap. apply (Hf1 y Hy2). congruence. }
      split_and!.
      * replace i with (length pre + S j)%nat by lia.
        rewrite delete_app_r. done.
      * cbn. rewrite elem_of_cons. intros [Hk|Hk]; [|done]. congruence.
      * cbn. by constructor.
      * cbn. intros x [->|Hx]%elem_of_cons; [by rewrite He|by apply Hsub].
  - rewrite list_find_None, Forall_forall in Hf.
    assert ((name, src) ∉ pre.*1) as Hfresh.
    { intros (y & Hy1 & Hy2)%list_elem_of_fmap. apply (Hf y).
      - rewrite Hc. apply elem_of_app. by left.
      - done. }
    set (pre' := ((name, src), builds w) :: pre).
    assert (NoDup pre'.*1) as Hnd' by (cbn; by constructor).
    assert (∀ x, x ∈ pre'.*1 → x ∈ seen) as Hsub'.
    { cbn. intros x [->|Hx]%elem_of_cons; [done|by apply Hsub]. }
    assert (length pre' ≤ length seen)%nat as Hbound.
    { rewrite <- (length_fmap fst pre').
      apply submseteq_length, NoDup_submseteq; done. }
    exists pre', (take (lru_maxsize - length pre' - 1) post).
    split_and!; [|cbn; rewrite elem_of_cons; intros [?|?]; [congruence|done]
                 |done|done].
    rewrite Hc. change (((name, src), builds w) :: pre ++ (key, k) :: post)
      with (pre' ++ (key, k) :: post).
    rewrite take_app_ge by lia.
    destruct (lru_maxsize - length pre')%nat as [|m] eqn:Hm; [lia|].
    cbn. by rewrite Nat.sub_0_r.
Qed.

Lemma build_all_retained w key k seen : ∀ keys,
  (∀ x, x ∈ keys → x = key ∨ x ∈ seen) →
  (length seen < lru_maxsize)%nat →
  retained key k seen (cache w) →
  ∃ w', build_all keys w = (Ok (), w') ∧ retained key k seen (cache w') ∧
        (Forall (λ x, x = key) keys → builds w' = builds w).
Proof.
  intros keys. revert w.
  induction keys as [|x keys IH]; intros w Hkeys Hlen Hr.
  - exists w. by split_and!.
  - unfold build_all. cbn [for_each]. fold (build_all (T:=T) keys).
    destruct (decide (x = key)) as [->|Hne].
    + destruct (cl_build_hit _ _ _ _ Hr) as (w1 & Hrun & Hb & Hr1).
      destruct (IH w1) as (w' & Hrun' & Hr' & Hb'); [|done|done|].
      { intros y Hy. apply Hkeys. by right. }
      exists w'. split_and!; [|done|].
      * unfold bind at 1. unfold bind at 1. rewrite Hrun. cbn [ret]. done.
      * intros HF. rewrite Hb', Hb; [done|]. by inversion HF.
    + destruct x as [name src].
      pose proof (cl_build_other w key k seen name src Hne) as Hr1.
      destruct (Hkeys (name, src)) as [?|Hin]; [by left|done|].
      specialize (Hr1 Hin Hlen Hr).
      destruct (cl_build name src w) as [r w1] eqn:Hrun.
      assert (∃ k', r = Ok k') as [k' ->].
      { unfold cl_build in Hrun. destruct (list_find _ _) as [[??]|];
          injection Hrun as <- _; eauto. }
      destruct (IH w1) as (w' & Hrun' & Hr' & Hb'); [|done|done|].
      { intros y Hy. apply Hkeys. by right. }
      exists w'. split_and!; [|done|].
      * unfold bind at 1. unfold bind at 1. cbn [fst snd]. rewrite Hrun.
        cbn [ret]. done.
      * intros HF. inversion HF; subst. done.
Qed.

Lemma retained_weaken key k seen seen' c :
  (∀ x, x ∈ seen → x ∈ seen') → retained key k seen c → retained key k seen' c.
Proof.
  intros Hs (pre & post & Hc & Hnot & Hnd & Hsub).
  exists pre, post. split_and!; auto.
Qed.

(** C10. The cache is keyed by (name, source).  After a call
    for a key, every later call for that key returns the stored callable
    without compiling, as long as fewer than 128 distinct other keys are
    requested in between: the cache holds 128 entries and evicts the least
    recently used one.  In particular any number of consecutive calls for
    one key compile once. *)
Theorem C10_cache_retains_recent_keys (w : world T) (name src : string)
    (others : list cache_key) :
  (length (remove_dups (filter (λ x, x ≠ (name, src)) others))
     < lru_maxsize)%nat →
  ∃ k w1 w2 w3,
    cl_build name src w = (Ok k, w1) ∧
    (builds w1 = builds w ∧ cached w (name, src) = Some k ∨
     builds w1 = S (builds w) ∧ cached w (name, src) = None ∧ k = builds w) ∧
    build_all others w1 = (Ok (), w2) ∧
    cached w2 (name, src) = Some k ∧
    cl_build name src w2 = (Ok k, w3) ∧
    builds w3 = builds w2 ∧
    ∀ n, builds (build_all (replicate n (name, src)) w1).2 = builds w1.
Proof.
  intros Hlen. set (key := (name, src)) in *.
  set (seen := remove_dups (filter (λ x, x ≠ key) others)) in *.
  destruct (cl_build_first w name src) as (k & w1 & Hrun1 & Hb1 & Hr1).
  fold key in Hr1, Hb1.
  assert (retained key k seen (cache w1)) as Hr1'.
  { eapply retained_weaken; [|exact Hr1]. by intros x ?%elem_of_nil. }
  destruct (build_all_retained w1 key k seen others) as (w2 & Hrun2 & Hr2 & _);
    [|done|done|].
  { intros x Hx. destruct (decide (x = key)) as [|Hne]; [by left|right].
    apply elem_of_remove_dups, list_elem_of_filter. done. }
  destruct (cl_build_hit _ _ _ _ Hr2) as (w3 & Hrun3 & Hb3 & _).
  exists k, w1, w2, w3. split_and!; try done.
  - by eapply retained_cached.
  - intros n.
    destruct (build_all_retained w1 key k seen (replicate n key))
      as (w' & Hrun' & _ & Hb'); [|done|done|].
    { intros x Hx%elem_of_replicate. left. by destruct Hx. }
    rewrite Hrun'. cbn. apply Hb'. by apply Forall_replicate.
Qed.

End Cache.

(** * Instances on concrete data *)

Lemma w_a23_init :
  GPUArray_init (FromHost a23) None float32 world0 = (Ok 0%nat, w_a23).
Proof. reflexivity. Qed.

Lemma C6_getitem_witness :
  objs w_a23 !! 0%nat = Some x_a23 ∧
  length (strides x_a23) = length (shape x_a23) ∧
  (length [KSlice None None None; KInt (-1)] ≤ length (shape x_a23))%nat ∧
  GPUArray_getitem 0 [KSlice None None None; KInt (-1)] w_a23 =
  (Ok 1%nat, push w_a23 (mkGPUArray 0 [2] float32 [3] 2 false false)).
Proof.
  split; [reflexivity|]. split; [reflexivity|]. split; [cbn; lia|].
  apply (C6_getitem_index_and_slice w_a23 0 x_a23
           [KSlice None None None; KInt (-1)] eq_refl eq_refl).
  cbn; lia.
Defined.

Lemma C7_expand_witness :
  objs w_v3 !! 0%nat = Some x_v3 ∧
  length (strides x_v3) = length (shape x_v3) ∧
  length [2] = length (shape x_v3) ∧
  GPUArray_expand 0 [2] w_v3 =
  (Ok 1%nat, push w_v3 (mkGPUArray 0 [2] float32 [1] 0 false false)).
Proof.
  split; [reflexivity|]. split; [reflexivity|]. split; [reflexivity|].
  exact (C7_expand_grows_unit_dimensions w_v3 0 x_v3 [2]
           eq_refl eq_refl eq_refl).
Defined.

(** C7, counterexample.  The view of shape (3) differs from the target (2)
    in a dimension of size 3, yet [expand] returns a view of shape (2). *)
Lemma C7_expand_shrinks_counterexample :
  spec_expandable (shape x_v3) [2] = false ∧
  is_ok (GPUArray_expand 0 [2] w_v3).1 = true.
Proof. split; reflexivity. Qed.

Lemma C10_cache_witness :
  (length (remove_dups (filter (λ x, x ≠ key_neg 1) [key_neg 2; key_neg 1]))
     < lru_maxsize)%nat ∧
  ∃ k w1 w2 w3,
    cl_build "unary_op" (unary_op_src "-a" 1) (world0 (T:=Z)) = (Ok k, w1) ∧
    (builds w1 = builds (world0 (T:=Z)) ∧
       cached (world0 (T:=Z)) (key_neg 1) = Some k ∨
     builds w1 = S (builds (world0 (T:=Z))) ∧
       cached (world0 (T:=Z)) (key_neg 1) = None ∧
       k = builds (world0 (T:=Z))) ∧
    build_all [key_neg 2; key_neg 1] w1 = (Ok (), w2) ∧
    cached w2 (key_neg 1) = Some k ∧
    cl_build "unary_op" (unary_op_src "-a" 1) w2 = (Ok k, w3) ∧
    builds w3 = builds w2 ∧
    ∀ n, builds (build_all (replicate n (key_neg 1)) w1).2 = builds w1.
Proof.
  assert (length (remove_dups
            (filter (λ x, x ≠ key_neg 1) [key_neg 2; key_neg 1]))
          < lru_maxsize)%nat as H.
  { apply Nat.ltb_lt. vm_compute. reflexivity. }
  split; [exact H|].
  exact (C10_cache_retains_recent_keys world0 "unary_op"
           (unary_op_src "-a" 1) [key_neg 2; key_neg 1] H).
Defined.

(** C10, counterexample.  After the kernel of rank 1 has been built, the
    kernels of ranks 2 to 129 are built: 128 distinct keys.  The entry of
    rank 1 is gone, and asking for it again compiles a second time. *)
Lemma C10_eviction_counterexample :
  let w1 := (cl_build (key_neg 1).1 (key_neg 1).2 (world0 (T:=Z))).2 in
  let w2 := (build_all (key_neg <$> seq 2 128) w1).2 in
  cached w1 (key_neg 1) = Some 0%nat ∧
  cached w2 (key_neg 1) = None ∧
  (cl_build (key_neg 1).1 (key_neg 1).2 w2).1 = Ok 129%nat ∧
  builds (cl_build (key_neg 1).1 (key_neg 1).2 w2).2 = 130%nat.
Proof. vm_compute. repeat split. Qed.

(** ** Broadcasting *)

(** The two examples of the design document. *)
Lemma broadcast_311_133 :
  let r := (ab <- broadcast 0 1 ;; a <- deref ab.1 ;; b <- deref ab.2 ;;
            ret (shape a, strides a, shape b, strides b))
             (w_arange2 [3; 1; 1] [1; 3; 3]) in
  r.1 = Ok ([3; 3; 3], [1; 0; 0], [3; 3; 3], [0; 3; 1]).
Proof. reflexivity. Qed.

Lemma broadcast_32_42 :
  (broadcast 0 1 (w_arange2 [3; 2] [4; 2])).1 =
  Raise (ValueError "Error broadcasting for {a.shape} and {b.shape}").
Proof. reflexivity. Qed.

(** C3, the failing input.  Shapes (2,3) and (3): padded on the left the
    second shape is (1,3), every aligned pair is compatible and the target
    is (2,3).  The code compares the pairs of [zip(a.shape, b.shape)] before
    it pads, that is 2 against 3, and raises [ValueError]. *)
Theorem C3_broadcast_checks_before_padding :
  spec_broadcast_shape [2; 3] [3] = Some [2; 3] ∧
  (broadcast 0 1 (w_arange2 [2; 3] [3])).1 =
  Raise (ValueError "Error broadcasting for {a.shape} and {b.shape}").
Proof. split; reflexivity. Qed.

(** The comparison [a.shape != broadcast_shape] is between a tuple and a
    list: an operand that already has the target shape is expanded too and
    loses its contiguity flags. *)
Lemma broadcast_expands_both :
  let r := (ab <- broadcast 0 1 ;; deref ab.1) (w_arange2 [3; 3] [1; 3]) in
  r.1 = Ok (mkGPUArray 0 [3; 3] float32 [3; 1] 0 false false).
Proof. reflexivity. Qed.

(** ** Reduction *)

(** C5, the failing inputs.  For 65 elements the first pass reserves
    [65 // 16 = 4] partial results and [65 * 4 // 16 = 16] bytes of scratch
    memory for groups of 16 work-items, and launches 65 work-items in
    groups of 16: the launch is rejected.  For one element the scratch
    memory has size 0. *)
Theorem C5_reduce_across_group_boundary :
  reduce_ret_shape [65] 0 false (65 `div` group_size) = [4] ∧
  local_mem_size float32 65 = group_size ∧
  (GPUArray_sum 0 None false (w_arange [65])).1 =
    Raise (CLError "INVALID_WORK_GROUP_SIZE") ∧
  (GPUArray_max 0 None false (w_arange [65])).1 =
    Raise (CLError "INVALID_WORK_GROUP_SIZE") ∧
  local_mem_size float32 1 = 0 ∧
  (GPUArray_sum 0 None false (w_arange [1])).1 =
    Raise (CLError "INVALID_ARG_SIZE") ∧
  (GPUArray_max 0 None false (w_arange [1])).1 =
    Raise (CLError "INVALID_ARG_SIZE").
Proof. repeat split; vm_compute; reflexivity. Qed.

(** What one work-group computes when the scratch memory is large enough:
    64 elements in groups of 16, with room for 32 floats per group. *)
Lemma reduce_groups_partial_sums :
  let w := (GPUArray_init NoData (Some [4]) float32 (w_arange [64])).2 in
  let w' := (enqueue_groups [64] [16]
               (reduce_group f_add 0 [64] [16] 0 1 32) w).2 in
  bufs w' !! 1%nat = Some [120; 376; 632; 888].
Proof. vm_compute. reflexivity. Qed.

(** ** Index arithmetic of the kernels *)

Section IndexArithmetic.

Lemma prod_cons d ds : prod (d :: ds) = d * prod ds.
Proof. done. Qed.

Lemma prod_pos sh : Forall (λ d, 0 < d) sh → 0 < prod sh.
Proof.
  induction 1 as [|d ds Hd _ IH]; [done|]. rewrite prod_cons. lia.
Qed.

Lemma length_c_strides sh : length (c_strides sh) = length sh.
Proof. induction sh; cbn; auto. Qed.

Lemma c_strides_seq sh :
  (λ i, prod (drop (S i) sh)) <$> seq 0 (length sh) = c_strides sh.
Proof.
  induction sh as [|d ds IH]; [done|].
  cbn [length seq fmap list_fmap c_strides drop]. f_equal.
  rewrite <- fmap_S_seq, <- list_fmap_compose. exact IH.
Qed.

(** For rank at least 1 the strides the kernels declare are the
    C-contiguous strides of the shape. *)
Lemma trailing_products_c_strides sh :
  sh ≠ [] → trailing_products sh = c_strides sh.
Proof.
  intros Hne. unfold trailing_products. rewrite <- c_strides_seq.
  destruct (length sh) as [|n] eqn:E.
  { by destruct sh. }
  cbn [Nat.sub]. rewrite Nat.sub_0_r, seq_S, fmap_app. cbn. 
  rewrite drop_ge by lia. done.
Qed.

Lemma dot_nil_l ys : dot [] ys = 0.
Proof. done. Qed.

Lemma dot_cons x xs y ys : dot (x :: xs) (y :: ys) = x * y + dot xs ys.
Proof. done. Qed.

Lemma dot_comm xs ys : dot xs ys = dot ys xs.
Proof.
  revert ys. induction xs as [|x xs IH]; intros [|y ys]; try done.
  rewrite !dot_cons, IH. lia.
Qed.

Lemma length_grid sh :
  Forall (λ d, 0 < d) sh → length (grid sh) = Z.to_nat (prod sh).
Proof.
  induction 1 as [|d ds Hd Hds IH]; [done|].
  cbn [grid]. rewrite prod_cons.
  assert (∀ l : list Z, length (l ≫= λ i, (i ::.) <$> grid ds) =
                        (length l * length (grid ds))%nat) as H.
  { induction l as [|a l IHl]; [done|]. cbn.
    rewrite length_app, length_fmap, IHl. done. }
  rewrite H, length_seqZ, IH. pose proof (prod_pos _ Hds). nia.
Qed.

(** The work-item of linear id [id] decomposes it into the [id]-th index
    vector of the row-major enumeration. *)
Lemma decompose_grid sh : ∀ id,
  Forall (λ d, 0 < d) sh → 0 ≤ id < prod sh →
  decompose id (c_strides sh) = grid sh !! Z.to_nat id.
Proof.
  induction sh as [|d ds IH]; intros id Hpos Hid.
  - cbn in *. assert (id = 0) as -> by lia. done.
  - inversion Hpos as [|? ? Hd Hds]; subst.
    pose proof (prod_pos _ Hds) as Hp. rewrite prod_cons in Hid.
    cbn [c_strides decompose grid].
    rewrite (proj2 (Z.eqb_neq _ _)) by lia.
    rewrite Z.quot_div_nonneg, Z.rem_mod_nonneg by lia.
    assert (0 ≤ id `div` prod ds < d) as Hq.
    { split; [apply Z.div_pos; lia|apply Z.div_lt_upper_bound; lia]. }
    assert (0 ≤ id `mod` prod ds < prod ds) as Hr by (apply Z.mod_pos_bound; lia).
    rewrite IH by done.
    assert (∀ (n : nat) (m : Z) (q r : Z),
      0 ≤ q < Z.of_nat n → 0 ≤ r < prod ds →
      (seqZ m (Z.of_nat n) ≫= λ i, (i ::.) <$> grid ds)
        !! Z.to_nat (q * prod ds + r) =
      ((m + q) ::.) <$> grid ds !! Z.to_nat r) as H.
    { induction n as [|n IHn]; intros m q r Hq' Hr'; [lia|].
      rewrite Nat2Z.inj_succ, seqZ_cons by lia. cbn [mbind list_bind].
      change (list_bind ?f ?l) with (l ≫= f).
      destruct (decide (q = 0)) as [->|Hq0].
      - rewrite lookup_app_l.
        + rewrite list_lookup_fmap. by rewrite Z.add_0_r.
        + rewrite length_fmap, length_grid by done. lia.
      - rewrite lookup_app_r.
        + rewrite length_fmap, length_grid by done.
          replace (Z.to_nat (q * prod ds + r) - Z.to_nat (prod ds))%nat
            with (Z.to_nat ((q - 1) * prod ds + r)) by nia.
          rewrite Z.pred_succ, IHn by lia. do 2 f_equal. lia.
        + rewrite length_fmap, length_grid by done. nia. }
    rewrite (Z.div_mod id (prod ds)) at 3 by lia.
    rewrite (Z.mul_comm (prod ds)).
    rewrite <- (Z2Nat.id d) by lia.
    rewrite H by (rewrite ?Z2Nat.id; lia).
    rewrite Z.add_0_l. by destruct (grid ds !! _).
Qed.

(** Coordinates inside the shape address inside the C-contiguous
    extent. *)
Lemma dot_c_strides_bound sh : ∀ idx,
  Forall2 (λ i d, 0 ≤ i < d) idx sh →
  0 ≤ dot idx (c_strides sh) < prod sh.
Proof.
  induction sh as [|d ds IH]; intros idx H; inversion H as [|i ? idx' ? Hi H']; subst.
  - cbn. lia.
  - cbn [c_strides]. rewrite dot_cons, prod_cons.
    specialize (IH _ H'). nia.
Qed.

Lemma grid_in_range sh idx :
  idx ∈ grid sh → Forall2 (λ i d, 0 ≤ i < d) idx sh.
Proof.
  revert idx. induction sh as [|d ds IH]; intros idx Hin.
  - cbn in Hin. apply list_elem_of_singleton in Hin as ->. constructor.
  - cbn [grid] in Hin. apply list_elem_of_bind in Hin as (i & Hin & Hi).
    apply list_elem_of_fmap in Hin as (idx' & -> & Hin').
    constructor; [|by apply IH].
    apply elem_of_seqZ in Hi. lia.
Qed.

End IndexArithmetic.

(** ** Allocation and buffer access *)

Section StoreFacts.
Context {T : Type} {F : Float32 T}.
Implicit Types w : world T.

Lemma non_unit_strides_is_Some x :
  length (strides x) = length (shape x) → is_Some (non_unit_strides x).
Proof.
  intros Hlen. unfold non_unit_strides. apply mapM_is_Some, Forall_forall.
  intros i Hi%list_elem_of_filter. destruct Hi as [_ Hi].
  apply elem_of_seq in Hi. apply lookup_lt_is_Some. lia.
Qed.

Lemma update_contiguousness_push w x s :
  non_unit_strides x = Some s →
  update_contiguousness (length (objs w)) (push w x) =
  (Ok (), push w (set_contiguous (bool_decide (reverse (sorted s) = s))
                                 (bool_decide (sorted s = s)) x)).
Proof.
  intros Hs. unfold update_contiguousness.
  rewrite (bind_ok _ _ _ _ _ (deref_push w x)), Hs.
  unfold bind. rewrite assign_push, assign_push. done.
Qed.

Lemma GPUArray_init_alloc w (hostbuf : option (list T)) sh dt data :
  0 < prod sh →
  data = match hostbuf with
         | Some d => d
         | None => replicate (Z.to_nat (prod sh)) f_uninit
         end →
  GPUArray_init
    match hostbuf with
    | Some d => FromHost (mkNdarray sh dt d)
    | None => NoData
    end
    (match hostbuf with Some _ => None | None => Some sh end) dt w =
  (Ok (length (objs w)), alloc w (fresh_array (length (bufs w)) sh dt) data).
Proof.
  intros Hp ->. unfold GPUArray_init.
  assert ((itemsize dt * prod sh <=? 0) = false) as Hsz
    by (apply Z.leb_gt; unfold itemsize; lia).
  set (x0 := mkGPUArray (length (bufs w)) sh dt (c_strides sh) 0 true false).
  destruct (non_unit_strides_is_Some x0) as [s Hs].
  { cbn. by rewrite length_c_strides. }
  assert (fresh_array (length (bufs w)) sh dt =
          set_contiguous (bool_decide (reverse (sorted s) = s))
                         (bool_decide (sorted s = s)) x0) as ->.
  { unfold fresh_array. fold x0. rewrite Hs. done. }
  destruct hostbuf as [d|]; cbn [nd_shape nd_data];
    unfold alloc_buffer; rewrite Hsz;
    (erewrite bind_ok; [|reflexivity]); cbn [fst snd]; fold x0;
    (erewrite bind_ok; [|reflexivity]);
    match goal with
    | |- context [set_objs (objs ?w0 ++ [x0]) ?w0] =>
        change (set_objs (objs w0 ++ [x0]) w0) with (push w0 x0)
    end;
    (erewrite bind_ok; [|apply (update_contiguousness_push _ _ _ Hs)]);
    reflexivity.
Qed.

Lemma GPUArray_init_nodata w sh dt :
  0 < prod sh →
  GPUArray_init NoData (Some sh) dt w =
  (Ok (length (objs w)),
   alloc w (fresh_array (length (bufs w)) sh dt)
           (replicate (Z.to_nat (prod sh)) f_uninit)).
Proof. intros Hp. by apply (GPUArray_init_alloc w None). Qed.

Lemma GPUArray_init_host w sh dt data :
  0 < prod sh →
  GPUArray_init (FromHost (mkNdarray sh dt data)) None dt w =
  (Ok (length (objs w)), alloc w (fresh_array (length (bufs w)) sh dt) data).
Proof. intros Hp. by apply (GPUArray_init_alloc w (Some data)). Qed.

(** [cl_build] returns a callable and touches neither objects nor buffers. *)
Lemma cl_build_ok name program w :
  ∃ k c b, cl_build name program w = (Ok k, mkWorld (objs w) (bufs w) c b).
Proof.
  unfold cl_build. destruct (list_find _ _) as [[i e]|]; eauto.
Qed.

Lemma with_buffer_id w h d : bufs w !! h = Some d → with_buffer w h d = w.
Proof.
  intros H. unfold with_buffer, set_bufs. rewrite list_insert_id by done.
  by destruct w.
Qed.

Lemma with_buffer_twice w h d d' :
  with_buffer (with_buffer w h d) h d' = with_buffer w h d'.
Proof.
  unfold with_buffer, set_bufs; wsimpl. by rewrite list_insert_insert_eq.
Qed.

Lemma load_with_buffer w hs hd src d a v :
  bufs w !! hs = Some src → hs ≠ hd → 0 ≤ a →
  src !! Z.to_nat a = Some v →
  load hs a (with_buffer w hd d) = (Ok v, with_buffer w hd d).
Proof.
  intros Hs Hne Ha Hv. unfold load, read_buffer, bind, with_buffer; wsimpl.
  rewrite list_lookup_insert_ne by done. rewrite Hs.
  rewrite (proj2 (Z.ltb_ge _ _)) by done. by rewrite Hv.
Qed.

Lemma store_with_buffer w hd d i v :
  (hd < length (bufs w))%nat → 0 ≤ i < Z.of_nat (length d) →
  store hd i v (with_buffer w hd d) =
  (Ok (), with_buffer w hd (<[Z.to_nat i := v]> d)).
Proof.
  intros Hh Hi. unfold store, read_buffer, bind.
  unfold with_buffer at 1; wsimpl.
  rewrite list_lookup_insert_eq by done.
  rewrite (proj2 (Z.ltb_ge _ _)) by lia.
  rewrite (proj2 (Z.leb_gt _ _)) by lia. cbn [orb].
  f_equal. apply with_buffer_twice.
Qed.

(** A launch whose [j]-th work-item writes [vals !! j] at position [j] of
    the buffer [hd] and changes nothing else fills the buffer with
    [vals]. *)
Lemma for_each_fill {A} w hd (item : A → M T unit) n :
  ∀ (gids : list A) (vals : list T) (k : nat) (d : list T),
  length vals = length gids → length d = n → (k + length gids ≤ n)%nat →
  (∀ j gid v d', gids !! j = Some gid → vals !! j = Some v → length d' = n →
     item gid (with_buffer w hd d') =
     (Ok (), with_buffer w hd (<[(k + j)%nat := v]> d'))) →
  for_each gids item (with_buffer w hd d) =
  (Ok (), with_buffer w hd (take k d ++ vals ++ drop (k + length gids) d)).
Proof.
  induction gids as [|gid gids IH]; intros vals k d Hlen Hd Hk Hitem.
  - destruct vals; [|done]. cbn. rewrite Nat.add_0_r, take_drop. done.
  - destruct vals as [|v vals]; [done|]. cbn [for_each].
    unfold bind. rewrite (Hitem 0%nat gid v d) by done.
    rewrite Nat.add_0_r.
    rewrite (IH vals (S k)).
    + do 2 f_equal. cbn [length] in *.
      assert (k < length d)%nat by lia.
      rewrite (take_S_r _ _ v) by (by apply list_lookup_insert_eq).
      rewrite take_insert_ge by lia.
      rewrite drop_insert_lt by lia.
      rewrite <- app_assoc. cbn. by rewrite Nat.add_succ_r.
    + cbn in Hlen. lia.
    + by rewrite length_insert.
    + cbn in Hk. lia.
    + intros j gid' v' d' Hg Hv Hd'.
      rewrite (Hitem (S j) gid' v' d') by done. do 3 f_equal. lia.
Qed.

End StoreFacts.

(** ** The gather kernel of [contiguous_op] *)

Section Contiguous.
Context {T : Type} {F : Float32 T}.
Implicit Types w : world T.

Lemma length_interleave2 xs ys :
  length xs = length ys → length (interleave2 xs ys) = (2 * length xs)%nat.
Proof.
  revert ys. induction xs as [|x xs IH]; intros [|y ys] H; try done.
  change (interleave2 (x :: xs) (y :: ys)) with (x :: y :: interleave2 xs ys).
  cbn [length] in *. rewrite (IH ys) by lia. lia.
Qed.

(** The kernel finds the shape in its even arguments and the strides in
    its odd arguments. *)
Lemma interleave2_args xs : ∀ ys,
  length xs = length ys →
  (λ i, arg (interleave2 xs ys) (2 * i)) <$> seq 0 (length xs) = xs ∧
  (λ i, arg (interleave2 xs ys) (2 * i + 1)) <$> seq 0 (length xs) = ys.
Proof.
  induction xs as [|x xs IH]; intros [|y ys] H; try done.
  destruct (IH ys ltac:(cbn in H; lia)) as [IH1 IH2].
  change (interleave2 (x :: xs) (y :: ys)) with (x :: y :: interleave2 xs ys).
  cbn [length seq fmap list_fmap]. rewrite <- !fmap_S_seq, <- !list_fmap_compose.
  split; f_equal.
  - etrans; [|exact IH1]. apply list_fmap_ext. intros _ i _. unfold compose.
    replace (2 * S i)%nat with (S (S (2 * i))) by lia. done.
  - etrans; [|exact IH2]. apply list_fmap_ext. intros _ i _. unfold compose.
    replace (2 * S i + 1)%nat with (S (S (2 * i + 1))) by lia. done.
Qed.

Lemma grid_one n : grid [n] = (λ i, [i]) <$> seqZ 0 n.
Proof.
  cbn [grid]. generalize (seqZ 0 n). intros l.
  induction l as [|a l IH]; [done|]. cbn. by f_equal.
Qed.

(** The run of a gather launch: the fresh buffer [hd] receives, at every
    linear id, the source element at [Σ coordinate × source stride]. *)
Lemma contiguous_launch w hs hd src d0 sh st vals :
  bufs w !! hs = Some src → bufs w !! hd = Some d0 → hs ≠ hd →
  sh ≠ [] → Forall (λ d, 0 < d) sh → length st = length sh →
  length d0 = Z.to_nat (prod sh) →
  mapM (λ idx, let a := dot idx st in
               if a <? 0 then None else src !! Z.to_nat a) (grid sh)
    = Some vals →
  enqueue_nd_range [prod sh]
    (contiguous_kernel (length sh) (interleave2 sh st) hs hd) w =
  (Ok (), with_buffer w hd vals).
Proof.
  intros Hs Hd Hne Hsh Hpos Hlen Hd0 Hvals.
  pose proof (prod_pos _ Hpos) as Hp.
  unfold enqueue_nd_range. rewrite bool_decide_eq_false_2 by done.
  rewrite bool_decide_eq_false_2
    by (unfold max_work_item_dimensions in *; cbn [length]; lia).
  cbn [forallb]. rewrite (proj2 (Z.ltb_lt _ _) Hp). cbn [andb].
  rewrite grid_one. rewrite <- (with_buffer_id w hd d0 Hd) at 1.
  apply mapM_Some in Hvals.
  pose proof (Forall2_length _ _ _ Hvals) as Hlv.
  rewrite length_grid in Hlv by done.
  rewrite (for_each_fill w hd _ (Z.to_nat (prod sh)) _ vals 0 d0).
  - rewrite length_fmap, length_seqZ. cbn [take app Nat.add].
    rewrite drop_ge by lia. by rewrite app_nil_r.
  - rewrite length_fmap, length_seqZ. lia.
  - done.
  - rewrite length_fmap, length_seqZ. lia.
  - intros j gid v d' Hg Hv Hd'. cbn [Nat.add].
    rewrite list_lookup_fmap in Hg.
    destruct (seqZ 0 (prod sh) !! j) as [i|] eqn:Hi; [|done].
    cbn in Hg. injection Hg as <-.
    apply lookup_seqZ in Hi as [-> Hj].
    unfold contiguous_kernel.
    destruct (interleave2_args sh st ltac:(done)) as [-> ->].
    rewrite trailing_products_c_strides by done.
    unfold get_global_id. cbn [lookup list_lookup default from_option id].
    rewrite Z.add_0_l, decompose_grid by (done || lia).
    rewrite Nat2Z.id.
    destruct (Forall2_lookup_r _ _ _ _ _ Hvals Hv) as (idx & Hidx & Hel).
    rewrite Hidx. cbn zeta in Hel.
    destruct (dot idx st <? 0) eqn:Hneg; [done|].
    apply Z.ltb_ge in Hneg.
    unfold bind. rewrite (dot_comm st idx).
    rewrite (load_with_buffer w hs hd src d' _ v Hs Hne Hneg Hel).
    rewrite store_with_buffer.
    + by rewrite Nat2Z.id.
    + by eapply lookup_lt_Some.
    + lia.
Qed.

End Contiguous.

(** ** Fresh arrays are C-contiguous *)

Section FreshArrays.

Lemma non_unit_strides_rec sh : ∀ st pre_sh pre_st,
  length st = length sh → length pre_sh = length pre_st →
  mapM (λ i, (pre_st ++ st) !! i)
       (filter (λ i, (pre_sh ++ sh) !! i ≠ Some 1)
               (seq (length pre_sh) (length sh))) = Some (non_unit sh st).
Proof.
  induction sh as [|d ds IH]; intros [|t ts] pre_sh pre_st Hlen Hpre; try done.
  cbn [length seq non_unit].
  specialize (IH ts (pre_sh ++ [d]) (pre_st ++ [t]) ltac:(cbn in Hlen; lia)
                 ltac:(rewrite !length_app; cbn; lia)).
  rewrite <- !app_assoc in IH. cbn [app] in IH.
  rewrite length_app in IH. cbn [length] in IH.
  rewrite Nat.add_1_r in IH.
  rewrite filter_cons.
  assert ((pre_sh ++ d :: ds) !! length pre_sh = Some d) as Hd
    by (by rewrite lookup_app_r, Nat.sub_diag).
  assert ((pre_st ++ t :: ts) !! length pre_sh = Some t) as Ht
    by (by rewrite Hpre, lookup_app_r, Nat.sub_diag).
  destruct (d =? 1) eqn:E.
  - apply Z.eqb_eq in E as ->.
    rewrite decide_False by (rewrite Hd; intros H; by apply H).
    exact IH.
  - apply Z.eqb_neq in E.
    rewrite decide_True by (rewrite Hd; congruence).
    cbn [mapM]. rewrite Ht. cbn. rewrite IH. done.
Qed.

Lemma non_unit_strides_eq x :
  length (strides x) = length (shape x) →
  non_unit_strides x = Some (non_unit (shape x) (strides x)).
Proof.
  intros H. exact (non_unit_strides_rec (shape x) (strides x) [] [] H eq_refl).
Qed.

Lemma insert_sorted_last x l :
  Forall (λ y, y < x) l → insert_sorted x l = l ++ [x].
Proof.
  induction 1 as [|y l Hy _ IH]; [done|]. cbn.
  rewrite (proj2 (Z.leb_gt _ _)) by lia. by rewrite IH.
Qed.

Lemma sorted_descending sh :
  Forall (λ d, 0 < d) sh →
  let s := non_unit sh (c_strides sh) in
  Forall (λ t, 0 < t ∧ 2 * t ≤ prod sh) s ∧ sorted s = reverse s.
Proof.
  induction 1 as [|d ds Hd Hds [IH1 IH2]]; [by split|].
  pose proof (prod_pos _ Hds) as Hp. cbn zeta in *.
  cbn [c_strides non_unit]. rewrite prod_cons.
  assert (Forall (λ t, 0 < t ∧ 2 * t ≤ d * prod ds)
                 (non_unit ds (c_strides ds))) as IH1'.
  { eapply Forall_impl; [exact IH1|]. cbn. intros t [? ?]. nia. }
  destruct (d =? 1) eqn:E; [by split|].
  apply Z.eqb_neq in E. split.
  - constructor; [nia|done].
  - cbn [sorted foldr]. fold (sorted (non_unit ds (c_strides ds))).
    rewrite IH2, insert_sorted_last, reverse_cons; [done|].
    apply Forall_reverse. eapply Forall_impl; [exact IH1|].
    cbn. intros t [? ?]. lia.
Qed.

Lemma fresh_array_fields h sh dt :
  buffer (fresh_array h sh dt) = h ∧ shape (fresh_array h sh dt) = sh ∧
  dtype_of (fresh_array h sh dt) = dt ∧
  strides (fresh_array h sh dt) = c_strides sh ∧
  offset (fresh_array h sh dt) = 0.
Proof. done. Qed.

Lemma fresh_array_c_contiguous h sh dt :
  Forall (λ d, 0 < d) sh → c_contiguous (fresh_array h sh dt) = true.
Proof.
  intros Hpos. unfold fresh_array.
  rewrite non_unit_strides_eq by (cbn; by rewrite length_c_strides).
  cbn [default from_option id c_contiguous shape strides].
  destruct (sorted_descending sh Hpos) as [_ Hs]. cbn zeta in Hs.
  rewrite Hs, reverse_involutive. by apply bool_decide_eq_true_2.
Qed.

(** Linear id and multi-index determine each other. *)
Lemma decompose_dot sh : ∀ id idx,
  Forall (λ d, 0 < d) sh → 0 ≤ id < prod sh →
  decompose id (c_strides sh) = Some idx → dot idx (c_strides sh) = id.
Proof.
  induction sh as [|d ds IH]; intros id idx Hpos Hid Hdec.
  - cbn in *. injection Hdec as <-. cbn. lia.
  - inversion Hpos as [|? ? Hd Hds]; subst.
    pose proof (prod_pos _ Hds) as Hp. rewrite prod_cons in Hid.
    cbn [c_strides decompose] in Hdec.
    rewrite (proj2 (Z.eqb_neq _ _)) in Hdec by lia.
    rewrite Z.quot_div_nonneg, Z.rem_mod_nonneg in Hdec by lia.
    destruct (decompose _ (c_strides ds)) as [idx'|] eqn:E; [|done].
    cbn in Hdec. injection Hdec as <-.
    cbn [c_strides]. rewrite dot_cons.
    rewrite (IH _ _ Hds (Z.mod_pos_bound _ _ Hp) E).
    rewrite (Z.div_mod id (prod ds)) at 3 by lia. lia.
Qed.

Lemma grid_dot sh (j : nat) idx :
  Forall (λ d, 0 < d) sh → grid sh !! j = Some idx →
  dot idx (c_strides sh) = Z.of_nat j.
Proof.
  intros Hpos Hj.
  assert (j < Z.to_nat (prod sh))%nat as Hlt.
  { rewrite <- length_grid by done. by eapply lookup_lt_Some. }
  apply decompose_dot; [done|lia|].
  rewrite decompose_grid, Nat2Z.id by (done || lia). done.
Qed.

(** The logical content of a fresh array is its buffer. *)
Lemma logical_fresh {T} (data : list T) h sh dt :
  Forall (λ d, 0 < d) sh → length data = Z.to_nat (prod sh) →
  logical data (fresh_array h sh dt) = Some data.
Proof.
  intros Hpos Hlen. unfold logical. apply mapM_Some.
  apply Forall2_same_length_lookup_2.
  - by rewrite length_grid.
  - intros j idx v Hj Hv. unfold element_at. cbn [offset strides fresh_array].
    rewrite Z.add_0_l, (grid_dot _ _ _ Hpos Hj).
    rewrite (proj2 (Z.ltb_ge _ _)) by lia. by rewrite Nat2Z.id.
Qed.

End FreshArrays.

(** ** Transposition *)

Section Transpose.
Context {T : Type} {F : Float32 T}.
Implicit Types w : world T.

Lemma index_all_reverse w (l : list Z) :
  index_all l (Z.of_nat <$> reverse (seq 0 (length l))) w = (Ok (reverse l), w).
Proof.
  unfold index_all.
  assert (mapM (py_index l) (Z.of_nat <$> reverse (seq 0 (length l)))
          = Some (reverse l)) as ->; [|done].
  apply mapM_Some, Forall2_fmap_l, Forall2_reverse.
  apply Forall2_same_length_lookup_2; [by rewrite length_seq|].
  intros j i y Hi Hy. apply lookup_seq in Hi as [-> _]. cbn.
  unfold py_index. rewrite (proj2 (Z.ltb_ge _ _)) by lia.
  by rewrite Nat2Z.id.
Qed.

Lemma GPUArray_T_run w self x :
  objs w !! self = Some x → length (strides x) = length (shape x) →
  GPUArray_T self w = (Ok (length (objs w)), push w (transposed x)).
Proof.
  intros Hx Hlen. unfold GPUArray_T, GPUArray_permute.
  rewrite (bind_ok _ _ _ _ _ (deref_ok _ _ _ Hx)).
  rewrite (bind_ok _ _ _ _ _ (copy_copy_ok _ _ _ Hx)).
  rewrite (bind_ok _ _ _ _ _ (deref_push w x)).
  rewrite <- Hlen at 1.
  rewrite (bind_ok _ _ _ _ _ (index_all_reverse _ _)).
  unfold bind at 1. rewrite assign_push.
  rewrite (bind_ok _ _ _ _ _ (deref_push w _)).
  cbn [shape set_strides].
  rewrite (bind_ok _ _ _ _ _ (index_all_reverse _ _)).
  unfold bind at 1. rewrite assign_push.
  erewrite bind_ok.
  2:{ apply update_contiguousness_push, non_unit_strides_eq. cbn.
      by rewrite !length_reverse. }
  done.
Qed.

Lemma dot_app xs ys xs' ys' :
  length xs = length ys →
  dot (xs ++ xs') (ys ++ ys') = dot xs ys + dot xs' ys'.
Proof.
  revert ys. induction xs as [|x xs IH]; intros [|y ys] H; try done.
  cbn [app]. rewrite !dot_cons, IH by (cbn in H; lia). lia.
Qed.

Lemma dot_reverse xs : ∀ ys,
  length xs = length ys → dot (reverse xs) (reverse ys) = dot xs ys.
Proof.
  induction xs as [|x xs IH]; intros [|y ys] H; try done.
  rewrite !reverse_cons, dot_app by (rewrite !length_reverse; cbn in H; lia).
  rewrite IH by (cbn in H; lia). rewrite !dot_cons. cbn. lia.
Qed.

(** An element of the transposed view is the element of the view at the
    reversed index. *)
Lemma element_at_transposed (src : list T) x idx :
  length (strides x) = length idx →
  element_at src (transposed x) idx = element_at src x (reverse idx).
Proof.
  intros H. unfold element_at. cbn [offset strides transposed].
  assert (dot idx (reverse (strides x)) = dot (reverse idx) (strides x)) as ->.
  { rewrite <- (reverse_involutive idx) at 1.
    apply dot_reverse. rewrite length_reverse. lia. }
  done.
Qed.

Lemma logical_transposed_fresh (data : list T) h sh dt :
  Forall (λ d, 0 < d) sh → length data = Z.to_nat (prod sh) →
  is_Some (logical data (transposed (fresh_array h sh dt))).
Proof.
  intros Hpos Hlen. unfold logical. apply mapM_is_Some, Forall_forall.
  intros idx Hin. cbn [shape transposed fresh_array] in Hin.
  apply grid_in_range in Hin.
  assert (length idx = length sh) as Hl.
  { apply Forall2_length in Hin. by rewrite length_reverse in Hin. }
  cbn [compose]. rewrite element_at_transposed
    by (cbn; by rewrite length_c_strides).
  apply Forall2_reverse in Hin. rewrite reverse_involutive in Hin.
  pose proof (dot_c_strides_bound _ _ Hin) as Hb.
  unfold element_at. cbn [offset strides fresh_array]. rewrite Z.add_0_l.
  rewrite (proj2 (Z.ltb_ge _ _)) by lia.
  apply lookup_lt_is_Some. lia.
Qed.

End Transpose.

(** ** Materialisation and round trip *)

Section Materialise.
Context {T : Type} {F : Float32 T}.
Implicit Types w : world T.

Lemma alloc_lookup_new w x d : objs (alloc w x d) !! length (objs w) = Some x.
Proof. unfold alloc; wsimpl. by rewrite lookup_app_r, Nat.sub_diag. Qed.

Lemma alloc_lookup_buf w x d : bufs (alloc w x d) !! length (bufs w) = Some d.
Proof. unfold alloc; wsimpl. by rewrite lookup_app_r, Nat.sub_diag. Qed.

Lemma alloc_lookup_old w x d r y :
  objs w !! r = Some y → objs (alloc w x d) !! r = Some y.
Proof. intros H. unfold alloc; wsimpl. by apply lookup_app_l_Some. Qed.

(** C1, the defect.  [numpy()] materialises through [contiguous_op], which
    reads the attribute [ndims]; no [GPUArray] has it.  Every round trip of
    a non-empty host array ends in [AttributeError]. *)
Theorem C1_roundtrip_reads_missing_attribute (w : world T) (sh : list Z)
    (data : list T) :
  0 < prod sh →
  ((x <- GPUArray_init (FromHost (mkNdarray sh float32 data)) None float32 ;;
    GPUArray_numpy x) w).1 = Raise (AttributeError "ndims").
Proof.
  intros Hp.
  rewrite (bind_ok _ _ _ _ _ (GPUArray_init_host w sh float32 data Hp)).
  set (a := fresh_array _ _ _). set (w1 := alloc w a data).
  unfold GPUArray_numpy, numpy_via.
  rewrite (bind_ok _ _ _ _ _ (deref_ok _ _ _ (alloc_lookup_new w a data))).
  unfold GPUArray_contiguous, contiguous_op.
  erewrite bind_raise; [done|].
  rewrite (bind_ok _ _ _ _ _ (deref_ok _ _ _ (alloc_lookup_new w a data))).
  rewrite (bind_ok _ _ _ _ _ (GPUArray_init_nodata w1 _ _ Hp)).
  erewrite bind_raise; [done|].
  unfold getattr_missing.
  erewrite bind_ok; [done|].
  apply deref_ok, alloc_lookup_old, alloc_lookup_new.
Qed.

(** C2, the defect.  The claim has [contiguous_op] return the gathered
    copy of every view, and the storage of a materialised transpose list
    the elements of the transposed array in row-major order.
    [contiguous_op] allocates the result and then reads [x.ndims], which no
    [GPUArray] has: for every view with a positive number of elements it
    ends in [AttributeError], before any kernel is built or launched.  So
    for every host array with positive dimensions the row-major
    linearisation [vals] of the transpose exists, and transposing,
    materialising and reading the storage raises instead of giving it. *)
Theorem C2_contiguous_op_reads_missing_attribute :
  (∀ (w : world T) (x : ref) (xo : GPUArray),
     objs w !! x = Some xo → 0 < prod (shape xo) →
     (contiguous_op x w).1 = Raise (AttributeError "ndims") ∧
     bufs (contiguous_op x w).2 =
       bufs w ++ [replicate (Z.to_nat (prod (shape xo))) f_uninit]) ∧
  (∀ (w : world T) (sh : list Z) (data : list T),
     Forall (λ d, 0 < d) sh → length data = Z.to_nat (prod sh) →
     ∃ vals,
       logical data (transposed (fresh_array (length (bufs w)) sh float32))
         = Some vals ∧
       ((x <- GPUArray_init (FromHost (mkNdarray sh float32 data)) None float32 ;;
         t <- GPUArray_T x ;;
         c <- GPUArray_contiguous t ;;
         GPUArray_storage c) w).1 = Raise (AttributeError "ndims")).
Proof.
  assert (∀ (w : world T) x xo,
            objs w !! x = Some xo → 0 < prod (shape xo) →
            contiguous_op x w =
            (Raise (AttributeError "ndims"),
             alloc w (fresh_array (length (bufs w)) (shape xo) (dtype_of xo))
                   (replicate (Z.to_nat (prod (shape xo))) f_uninit)))
    as Hraise.
  { intros w x xo Hx Hp. unfold contiguous_op.
    rewrite (bind_ok _ _ _ _ _ (deref_ok _ _ _ Hx)).
    rewrite (bind_ok _ _ _ _ _ (GPUArray_init_nodata w _ _ Hp)).
    erewrite bind_raise; [done|].
    unfold getattr_missing.
    erewrite bind_ok; [done|].
    by apply deref_ok, alloc_lookup_old. }
  split.
  - intros w x xo Hx Hp. by rewrite (Hraise w x xo Hx Hp).
  - intros w sh data Hpos Hlen.
    pose proof (prod_pos _ Hpos) as Hp.
    destruct (logical_transposed_fresh data (length (bufs w)) sh float32
                Hpos Hlen) as [vals Hvals].
    exists vals. split; [done|].
    rewrite (bind_ok _ _ _ _ _ (GPUArray_init_host w sh float32 data Hp)).
    set (a := fresh_array _ _ _). set (w1 := alloc w a data).
    erewrite bind_ok.
    2:{ apply (GPUArray_T_run w1 _ a); [apply alloc_lookup_new|].
        cbn. by rewrite length_c_strides. }
    erewrite bind_raise; [done|].
    unfold GPUArray_contiguous.
    apply (Hraise (push w1 (transposed a)) _ (transposed a)).
    + apply push_lookup.
    + change (0 < prod (reverse sh)). apply prod_pos. by apply Forall_reverse.
Qed.

End Materialise.

(** ** Matrix product *)

Section Matmul.
Context {T : Type} {F : Float32 T}.
Implicit Types w : world T.

Lemma spec_inner_ext ks (fa fb fa' fb' : Z → option T) acc :
  (∀ k, k ∈ ks → fa k = fa' k ∧ fb k = fb' k) →
  spec_inner ks fa fb acc = spec_inner ks fa' fb' acc.
Proof.
  revert acc. induction ks as [|k ks IH]; intros acc H; [done|].
  cbn. destruct (H k ltac:(by left)) as [<- <-].
  destruct (fa k), (fb k); try done.
  apply IH. intros k' Hk'. apply H. by right.
Qed.

Lemma matmul_acc_run w hA hB hd srcA srcB d ks idx : ∀ acc v,
  bufs w !! hA = Some srcA → bufs w !! hB = Some srcB →
  hA ≠ hd → hB ≠ hd →
  spec_inner ks (λ k, rd srcA (idx k).1) (λ k, rd srcB (idx k).2) acc
    = Some v →
  matmul_acc ks idx hA hB acc (with_buffer w hd d) =
  (Ok v, with_buffer w hd d).
Proof.
  induction ks as [|k ks IH]; intros acc v HA HB HnA HnB Hspec.
  - cbn in *. by injection Hspec as ->.
  - cbn [matmul_acc spec_inner] in *. unfold rd in Hspec at 1 2.
    destruct ((idx k).1 <? 0) eqn:E1; [done|].
    destruct (srcA !! _) as [x|] eqn:Ex; [|done].
    destruct ((idx k).2 <? 0) eqn:E2; [done|].
    destruct (srcB !! _) as [y|] eqn:Ey; [|done].
    apply Z.ltb_ge in E1, E2.
    unfold bind at 1.
    rewrite (load_with_buffer w hA hd srcA d _ x HA HnA E1 Ex).
    unfold bind at 1.
    rewrite (load_with_buffer w hB hd srcB d _ y HB HnB E2 Ey).
    by apply IH.
Qed.

Lemma list_prod_lookup {A B} (l1 : list A) (l2 : list B) : ∀ m n x y,
  l1 !! m = Some x → l2 !! n = Some y →
  list_prod l1 l2 !! (m * length l2 + n)%nat = Some (x, y).
Proof.
  induction l1 as [|a l1 IH]; intros m n x y Hm Hn; [done|].
  cbn [list_prod]. destruct m as [|m].
  - cbn in Hm. injection Hm as ->. cbn [Nat.mul Nat.add].
    rewrite lookup_app_l.
    + change (map (λ y0, (x, y0)) l2) with ((λ y0, (x, y0)) <$> l2).
      by rewrite list_lookup_fmap, Hn.
    + rewrite length_map. by eapply lookup_lt_Some.
  - cbn in Hm. rewrite lookup_app_r by (rewrite length_map; cbn; lia).
    rewrite length_map.
    replace (S m * length l2 + n - length l2)%nat
      with (m * length l2 + n)%nat by (cbn; lia).
    by apply IH.
Qed.

Lemma length_list_prod {A B} (l1 : list A) (l2 : list B) :
  length (list_prod l1 l2) = (length l1 * length l2)%nat.
Proof.
  induction l1 as [|a l1 IH]; [done|].
  cbn. by rewrite length_app, length_map, IH.
Qed.

Lemma c_strides_snoc sh K :
  c_strides (sh ++ [K]) = ((λ s, s * K) <$> c_strides sh) ++ [1].
Proof.
  induction sh as [|d ds IH]; [done|].
  cbn [app c_strides fmap list_fmap]. rewrite IH. f_equal. f_equal.
  clear. induction ds as [|d ds IH]; cbn; [lia|].
  change (foldr Z.mul 1 (ds ++ [K])) with (prod (ds ++ [K])).
  change (foldr Z.mul 1 ds) with (prod ds). rewrite IH. lia.
Qed.

Lemma dot_fmap_mul idx cs K :
  dot idx ((λ s, s * K) <$> cs) = dot idx cs * K.
Proof.
  revert cs. induction idx as [|i idx IH]; intros [|c cs]; try done.
  cbn [fmap list_fmap]. rewrite !dot_cons, IH. lia.
Qed.

(** The address of [A[m, k]] in a C-contiguous array of shape
    [lead ++ [K]]. *)
Lemma row_address lead K (m : nat) m_idx k :
  Forall (λ d, 0 < d) lead → grid lead !! m = Some m_idx →
  dot (m_idx ++ [k]) (c_strides (lead ++ [K])) = Z.of_nat m * K + k.
Proof.
  intros Hpos Hm. rewrite c_strides_snoc.
  pose proof (grid_in_range lead m_idx) as Hr.
  assert (length m_idx = length lead) as Hl.
  { apply Forall2_length with (P := λ i d, 0 ≤ i < d), Hr.
    by eapply list_elem_of_lookup_2. }
  rewrite dot_app by (by rewrite length_fmap, length_c_strides).
  rewrite dot_fmap_mul, (grid_dot _ _ _ Hpos Hm). cbn. lia.
Qed.

(** The launch of the kernel on two C-contiguous operands. *)
Lemma matmul_launch w hA hB hd srcA srcB d0 lead trail K a b vals :
  bufs w !! hA = Some srcA → bufs w !! hB = Some srcB →
  bufs w !! hd = Some d0 → hA ≠ hd → hB ≠ hd →
  Forall (λ d, 0 < d) lead → Forall (λ d, 0 < d) trail →
  shape a = lead ++ [K] → strides a = c_strides (shape a) → offset a = 0 →
  tail (shape b) = trail → strides b = c_strides (shape b) → offset b = 0 →
  shape b ≠ [] →
  length d0 = Z.to_nat (prod lead * prod trail) →
  spec_matmul srcA srcB a b = Some vals →
  enqueue_nd_range [prod lead; prod trail]
    (matmul_kernel [prod lead; prod trail; K; 1; 1] hA hB hd) w =
  (Ok (), with_buffer w hd vals).
Proof.
  intros HA HB Hd HnA HnB Hlead Htrail Hsa Hsta Hoa Hsb Hstb Hob Hbne Hd0 Hspec.
  pose proof (prod_pos _ Hlead) as HM. pose proof (prod_pos _ Htrail) as HN.
  unfold enqueue_nd_range. rewrite bool_decide_eq_false_2 by done.
  rewrite bool_decide_eq_false_2
    by (unfold max_work_item_dimensions in *; cbn [length]; lia).
  cbn [forallb]. rewrite (proj2 (Z.ltb_lt _ _) HM), (proj2 (Z.ltb_lt _ _) HN).
  cbn [andb]. rewrite <- (with_buffer_id w hd d0 Hd) at 1.
  unfold spec_matmul in Hspec. rewrite Hsa in Hspec.
  rewrite removelast_last, last_snoc, Hsb in Hspec.
  cbn [default from_option id] in Hspec.
  apply mapM_Some in Hspec.
  pose proof (Forall2_length _ _ _ Hspec) as Hlv.
  rewrite length_list_prod, !length_grid in Hlv by done.
  assert (Forall (λ d, 0 < d) [prod lead; prod trail]) as Hmn
    by (repeat constructor; done).
  assert (prod [prod lead; prod trail] = prod lead * prod trail) as Hpmn
    by (cbn; lia).
  rewrite (for_each_fill w hd _ (Z.to_nat (prod lead * prod trail)) _ vals 0 d0).
  - rewrite length_grid, Hpmn by done. cbn [take app Nat.add].
    rewrite drop_ge by lia. by rewrite app_nil_r.
  - rewrite length_grid, Hpmn by done. nia.
  - done.
  - rewrite length_grid, Hpmn by done. lia.
  - intros j gid v d' Hg Hv Hd'. cbn [Nat.add].
    pose proof (grid_dot _ _ _ Hmn Hg) as Hj.
    pose proof (grid_in_range _ gid (list_elem_of_lookup_2 _ _ _ Hg)) as Hr.
    destruct gid as [|m [|n [|? ?]]]; try (by apply Forall2_length in Hr).
    apply Forall2_cons_1 in Hr as [Hm Hr].
    apply Forall2_cons_1 in Hr as [Hn _].
    cbn in Hj.
    assert (is_Some (grid lead !! Z.to_nat m)) as [m_idx Hmi].
    { apply lookup_lt_is_Some. rewrite length_grid by done. lia. }
    assert (is_Some (grid trail !! Z.to_nat n)) as [n_idx Hni].
    { apply lookup_lt_is_Some. rewrite length_grid by done. lia. }
    pose proof (list_prod_lookup _ _ _ _ _ _ Hmi Hni) as Hp.
    rewrite length_grid in Hp by done.
    replace (Z.to_nat m * Z.to_nat (prod trail) + Z.to_nat n)%nat with j in Hp
      by nia.
    destruct (Forall2_lookup_l _ _ _ _ _ Hspec Hp) as (v' & Hv' & Hin).
    rewrite Hv in Hv'. injection Hv' as <-. cbn [fst snd] in Hin.
    unfold matmul_kernel, arg, get_global_id.
    cbn [lookup list_lookup default from_option id].
    change (negb (1 =? 0)) with true. cbn iota.
    unfold bind.
    rewrite (matmul_acc_run w hA hB hd srcA srcB d' _ _ f_zero v HA HB HnA HnB).
    + rewrite store_with_buffer.
      * do 3 f_equal. lia.
      * by eapply lookup_lt_Some.
      * nia.
    + rewrite <- Hin. apply spec_inner_ext. intros k Hk.
      unfold element_at, rd. rewrite Hoa, Hob, Hsta, Hstb, Hsa, !Z.add_0_l.
      cbn [fst snd].
      rewrite (row_address lead K (Z.to_nat m) m_idx k Hlead Hmi).
      rewrite Z2Nat.id by lia.
      destruct (shape b) as [|K' trail'] eqn:Eb; [done|].
      cbn [tail] in Hsb. subst trail'.
      cbn [c_strides]. rewrite dot_cons.
      rewrite (grid_dot _ _ _ Htrail Hni), Z2Nat.id by lia.
      done.
Qed.

End Matmul.

Section MatmulTotal.
Context {T : Type} {F : Float32 T}.
Implicit Types w : world T.

Lemma spec_inner_is_Some ks (fa fb : Z → option T) : ∀ acc,
  (∀ k, k ∈ ks → is_Some (fa k) ∧ is_Some (fb k)) →
  is_Some (spec_inner ks fa fb acc).
Proof.
  induction ks as [|k ks IH]; intros acc H; [by eexists|].
  cbn. destruct (H k ltac:(by left)) as [[x ->] [y ->]].
  apply IH. intros k' Hk'. apply H. by right.
Qed.

Lemma element_at_dense (src : list T) x idx :
  dense x src → Forall2 (λ i d, 0 ≤ i < d) idx (shape x) →
  is_Some (element_at src x idx).
Proof.
  intros (Hpos & Hst & Hoff & _ & Hlen) Hidx.
  unfold element_at. rewrite Hoff, Hst, Z.add_0_l.
  pose proof (dot_c_strides_bound _ _ Hidx) as Hb.
  rewrite (proj2 (Z.ltb_ge _ _)) by lia.
  apply lookup_lt_is_Some. lia.
Qed.

(** On dense operands with matching contraction length every product of
    the reference addresses elements of the buffers. *)
Lemma spec_matmul_is_Some (srcA srcB : list T) a b lead trail K :
  dense a srcA → dense b srcB →
  shape a = lead ++ [K] → shape b = K :: trail →
  is_Some (spec_matmul srcA srcB a b).
Proof.
  intros Ha Hb Hsa Hsb. unfold spec_matmul.
  rewrite Hsa, removelast_last, last_snoc, Hsb.
  cbn [tail default from_option id].
  apply mapM_is_Some, Forall_forall. intros [m_idx n_idx] Hin.
  apply list_elem_of_In, in_prod_iff in Hin as [Hm Hn].
  apply list_elem_of_In, grid_in_range in Hm.
  apply list_elem_of_In, grid_in_range in Hn.
  cbn [compose fst snd]. apply spec_inner_is_Some.
  intros k Hk%elem_of_seqZ. split.
  - apply element_at_dense; [done|]. rewrite Hsa.
    apply Forall2_app; [done|]. constructor; [lia|constructor].
  - apply element_at_dense; [done|]. rewrite Hsb.
    constructor; [lia|done].
Qed.

End MatmulTotal.

(** ** The stores of the examples are what the code builds *)

Lemma w_a23_b32_init :
  GPUArray_init (FromHost b32) None float32 w_a23 = (Ok 1%nat, w_a23_b32).
Proof. reflexivity. Qed.

Lemma w_v3_tail_getitem :
  GPUArray_getitem 0 [KSlice (Some 1) None None] w_v3 = (Ok 1%nat, w_v3_tail).
Proof. reflexivity. Qed.

(** ** C1 *)

Lemma C1_roundtrip_witness :
  0 < prod [2; 3] ∧
  ((x <- GPUArray_init (FromHost a23) None float32 ;; GPUArray_numpy x)
     (world0 (T:=Z))).1 = Raise (AttributeError "ndims").
Proof.
  split; [reflexivity|].
  exact (C1_roundtrip_reads_missing_attribute world0 [2; 3]
           [1; 2; 3; 4; 5; 6] eq_refl).
Defined.

(** ** C2 *)

(** The first scenario of the design document: the transpose of
    [[[1,2,3],[4,5,6]]] has the row-major elements 1, 4, 2, 5, 3, 6, and
    [contiguous()] on it raises. *)
Lemma C2_contiguous_witness :
  (objs w_a23 !! 0%nat = Some x_a23 ∧ 0 < prod (shape x_a23) ∧
   (contiguous_op 0 w_a23).1 = Raise (AttributeError "ndims") ∧
   bufs (contiguous_op 0 w_a23).2 =
     bufs w_a23 ++ [replicate (Z.to_nat (prod (shape x_a23))) f_uninit]) ∧
  ∃ vals,
    logical [1; 2; 3; 4; 5; 6] (transposed (fresh_array 0 [2; 3] float32))
      = Some vals ∧
    ((x <- GPUArray_init (FromHost a23) None float32 ;;
      t <- GPUArray_T x ;;
      c <- GPUArray_contiguous t ;;
      GPUArray_storage c) (world0 (T:=Z))).1 = Raise (AttributeError "ndims").
Proof.
  split.
  - split; [reflexivity|]. split; [reflexivity|].
    exact (proj1 (C2_contiguous_op_reads_missing_attribute (T:=Z))
             w_a23 0%nat x_a23 eq_refl eq_refl).
  - refine (proj2 (C2_contiguous_op_reads_missing_attribute (T:=Z))
              world0 [2; 3] [1; 2; 3; 4; 5; 6] _ eq_refl).
    repeat constructor.
Defined.

Lemma transpose_a23_elements :
  logical [1; 2; 3; 4; 5; 6] (transposed (fresh_array 0 [2; 3] float32))
    = Some [1; 4; 2; 5; 3; 6].
Proof. reflexivity. Qed.

(** ** C4 *)

(** C4, the defect.  The claim has [matmul_op] return the matrix product,
    [[58,64],[139,154]] for the example of the design document.
    [matmul_op] allocates the result, builds the kernel and then reads
    [a._c_contiguous]; [GPUArray] sets [c_contiguous] and nothing of that
    name.  For every pair of arrays, [a] of rank at least 1 and the result
    of positive size, the call ends in [AttributeError] before the kernel
    is launched; the product the claim words, [spec_matmul], is
    [[58,64],[139,154]] on the example, and the call on it raises. *)
Theorem C4_matmul_op_reads_missing_attribute :
  (∀ (T : Type) (F : Float32 T) (w : world T) (a b : ref)
     (ao bo : GPUArray),
     objs w !! a = Some ao → objs w !! b = Some bo →
     shape ao ≠ [] →
     0 < prod (removelast (shape ao) ++ tail (shape bo)) →
     (matmul_op a b None w).1 = Raise (AttributeError "_c_contiguous")) ∧
  spec_matmul [1; 2; 3; 4; 5; 6] [7; 8; 9; 10; 11; 12] x_a23 x_b32
    = Some [58; 64; 139; 154] ∧
  (matmul_op 0 1 None w_a23_b32).1 = Raise (AttributeError "_c_contiguous").
Proof.
  split; [|split; reflexivity].
  intros T F w a b ao bo Ha Hb Hne Hp. unfold matmul_op.
  rewrite (bind_ok _ _ _ _ _ (deref_ok _ _ _ Ha)).
  rewrite (bind_ok _ _ _ _ _ (deref_ok _ _ _ Hb)).
  rewrite (bind_ok _ _ _ _ _ (GPUArray_init_nodata w _ _ Hp)).
  set (w1 := alloc w _ _).
  destruct (cl_build_ok "matmul_op" matmul_op_src w1) as (k & c & n & Hk).
  rewrite (bind_ok _ _ _ _ _ Hk).
  assert (is_Some (py_index (shape ao) (-1))) as [K HK].
  { unfold py_index. destruct (shape ao) as [|d ds] eqn:E; [done|].
    change (-1 <? 0) with true. cbn [length].
    destruct (_ <? 0) eqn:E1; [apply Z.ltb_lt in E1; lia|].
    apply lookup_lt_is_Some. cbn [length]. lia. }
  rewrite HK.
  erewrite bind_ok; [|reflexivity].
  erewrite bind_raise; [done|].
  unfold getattr_missing.
  erewrite bind_ok; [done|].
  apply deref_ok. cbn [objs]. by apply alloc_lookup_old.
Qed.

Lemma C4_matmul_witness :
  objs w_a23_b32 !! 0%nat = Some x_a23 ∧
  objs w_a23_b32 !! 1%nat = Some x_b32 ∧
  shape x_a23 ≠ [] ∧
  0 < prod (removelast (shape x_a23) ++ tail (shape x_b32)) ∧
  (matmul_op 0 1 None w_a23_b32).1 = Raise (AttributeError "_c_contiguous").
Proof.
  split; [reflexivity|]. split; [reflexivity|].
  split; [discriminate|]. split; [reflexivity|].
  exact (proj1 C4_matmul_op_reads_missing_attribute Z Z_float32 w_a23_b32
           0%nat 1%nat x_a23 x_b32 eq_refl eq_refl
           ltac:(discriminate) eq_refl).
Defined.

(** ** Offsets are never read by the elementwise dispatchers *)

Section OffsetBlind.
Context {T : Type} {F : Float32 T}.
Implicit Types w : world T.


































End OffsetBlind.

(** ** The addresses computed by the elementwise kernels *)

Section ElementwiseKernels.
Context {T : Type} {F : Float32 T}.

Lemma interleave3_args xs : ∀ ys zs,
  length ys = length xs → length zs = length xs →
  (λ i, arg (interleave3 xs ys zs) (3 * i)) <$> seq 0 (length xs) = xs ∧
  (λ i, arg (interleave3 xs ys zs) (3 * i + 1)) <$> seq 0 (length xs) = ys ∧
  (λ i, arg (interleave3 xs ys zs) (3 * i + 2)) <$> seq 0 (length xs) = zs.
Proof.
  induction xs as [|x xs IH]; intros [|y ys] [|z zs] Hy Hz; try done.
  destruct (IH ys zs ltac:(cbn in Hy; lia) ltac:(cbn in Hz; lia))
    as (IH1 & IH2 & IH3).
  change (interleave3 (x :: xs) (y :: ys) (z :: zs))
    with (x :: y :: z :: interleave3 xs ys zs).
  cbn [length seq fmap list_fmap]. rewrite <- !fmap_S_seq, <- !list_fmap_compose.
  split; [|split]; f_equal.
  - etrans; [|exact IH1]. apply list_fmap_ext. intros _ i _. unfold compose.
    replace (3 * S i)%nat with (S (S (S (3 * i)))) by lia. done.
  - etrans; [|exact IH2]. apply list_fmap_ext. intros _ i _. unfold compose.
    replace (3 * S i + 1)%nat with (S (S (S (3 * i + 1)))) by lia. done.
  - etrans; [|exact IH3]. apply list_fmap_ext. intros _ i _. unfold compose.
    replace (3 * S i + 2)%nat with (S (S (S (3 * i + 2)))) by lia. done.
Qed.

(** [idx0, idx1, ...] of a work-item are the components of its index. *)
Lemma global_ids gid : get_global_id gid <$> seq 0 (length gid) = gid.
Proof.
  induction gid as [|g gid IH]; [done|].
  cbn [length seq fmap list_fmap]. rewrite <- fmap_S_seq, <- list_fmap_compose.
  f_equal. etrans; [|exact IH]. by apply list_fmap_ext.
Qed.

Lemma unary_kernel_address (f : T → T) sa sr A R gid :
  length sa = length gid → length sr = length gid →
  unary_kernel (length gid) f (interleave2 sa sr) A R gid =
  (a <- load A (dot gid sa) ;; store R (dot gid sr) (f a)).
Proof.
  intros Ha Hr. unfold unary_kernel.
  destruct (interleave2_args sa sr ltac:(lia)) as [E1 E2].
  rewrite Ha in E1, E2. by rewrite global_ids, E1, E2.
Qed.

Lemma binary_kernel_address (f : T → T → T) sa sb sr A B R gid :
  length sa = length gid → length sb = length gid → length sr = length gid →
  binary_kernel (length gid) f (interleave3 sa sb sr) A B R gid =
  (a <- load A (dot gid sa) ;; b <- load B (dot gid sb) ;;
   store R (dot gid sr) (f a b)).
Proof.
  intros Ha Hb Hr. unfold binary_kernel.
  destruct (interleave3_args sa sb sr ltac:(lia) ltac:(lia)) as (E1 & E2 & E3).
  rewrite Ha in E1, E2, E3. by rewrite global_ids, E1, E2, E3.
Qed.

End ElementwiseKernels.



(** Negating the slice [v[1:]] of [[10, 20, 30]] negates the first two
    elements of the buffer, not the two elements of the slice. *)
Lemma neg_of_tail_slice :
  ((r <- unary_op "neg" 1 None ;; GPUArray_storage r) w_v3_tail).1 =
  Ok (mkNdarray [2] float32 [-10; -20]).
Proof. vm_compute. reflexivity. Qed.

(** * Further properties of the two modules *)

(** ** Calls that cannot return *)

Section NeverReturns.
Context {T : Type} {F : Float32 T}.
Implicit Types w : world T.

Lemma not_ok_bind {A B} (m : M T A) (k : A → M T B) w :
  (∀ a w', is_ok (k a w').1 = false) → is_ok (bind m k w).1 = false.
Proof. intros Hk. unfold bind. destruct (m w) as [[a|e] w']; [apply Hk|done]. Qed.

Lemma not_ok_bind_l {A B} (m : M T A) (k : A → M T B) w :
  is_ok (m w).1 = false → is_ok (bind m k w).1 = false.
Proof. unfold bind. by destruct (m w) as [[a|e] w']. Qed.

Lemma not_ok_getattr_missing {A} x name w :
  is_ok (getattr_missing (T:=T) (A:=A) x name w).1 = false.
Proof. unfold getattr_missing. by apply not_ok_bind. Qed.

Lemma not_ok_contiguous_op x w : is_ok (contiguous_op x w).1 = false.
Proof.
  unfold contiguous_op. apply not_ok_bind. intros xo w1.
  apply not_ok_bind. intros r w2.
  apply not_ok_bind_l, not_ok_getattr_missing.
Qed.

Lemma not_ok_numpy x w : is_ok (GPUArray_numpy x w).1 = false.
Proof.
  unfold GPUArray_numpy, numpy_via. apply not_ok_bind. intros so w1.
  apply not_ok_bind_l, not_ok_contiguous_op.
Qed.

(** The exception, for a view that exists and has a positive size. *)
Lemma contiguous_op_raises w x xo :
  objs w !! x = Some xo → 0 < prod (shape xo) →
  contiguous_op x w =
  (Raise (AttributeError "ndims"),
   alloc w (fresh_array (length (bufs w)) (shape xo) (dtype_of xo))
           (replicate (Z.to_nat (prod (shape xo))) f_uninit)).
Proof.
  intros Hx Hp. unfold contiguous_op.
  rewrite (bind_ok _ _ _ _ _ (deref_ok _ _ _ Hx)).
  rewrite (bind_ok _ _ _ _ _ (GPUArray_init_nodata w _ _ Hp)).
  erewrite bind_raise; [done|].
  unfold getattr_missing.
  erewrite bind_ok; [done|].
  apply deref_ok. unfold alloc; wsimpl. by apply lookup_app_l_Some.
Qed.

Lemma not_ok_reshape_rec fuel w x xo target :
  objs w !! x = Some xo → c_contiguous xo = false → f_contiguous xo = false →
  is_ok (reshape_rec fuel x target w).1 = false.
Proof.
  intros Hx Hc Hf. destruct fuel as [|fuel]; [done|]. cbn [reshape_rec].
  rewrite (bind_ok _ _ _ _ _ (deref_ok _ _ _ Hx)).
  apply not_ok_bind. intros t w1. apply not_ok_bind. intros _ w2.
  rewrite Hc, Hf. cbn [orb].
  apply not_ok_bind_l, not_ok_contiguous_op.
Qed.

Lemma reshape_rec_raises fuel w x xo target :
  objs w !! x = Some xo → c_contiguous xo = false → f_contiguous xo = false →
  0 < prod (shape xo) → -1 ∉ target → prod target = prod (shape xo) →
  (reshape_rec (S fuel) x target w).1 = Raise (AttributeError "ndims").
Proof.
  intros Hx Hc Hf Hp Hm Ht. cbn [reshape_rec].
  rewrite (bind_ok _ _ _ _ _ (deref_ok _ _ _ Hx)).
  rewrite bool_decide_eq_false_2 by done.
  unfold bind at 1. cbn [ret].
  rewrite (proj2 (Z.eqb_eq _ _) Ht).
  unfold bind at 1. rewrite py_assert_true.
  rewrite Hc, Hf. cbn [orb]. unfold GPUArray_contiguous.
  erewrite bind_raise; [done|]. by apply contiguous_op_raises.
Qed.

Lemma reduce_non_contiguous_raises name w x xo axis keepdims :
  objs w !! x = Some xo → c_contiguous xo = false → 0 < prod (shape xo) →
  (so <- deref x ;;
   arr <- (if negb (c_contiguous so) then GPUArray_contiguous x else ret x) ;;
   reduce_op name arr None axis keepdims) w =
  (Raise (AttributeError "ndims"),
   alloc w (fresh_array (length (bufs w)) (shape xo) (dtype_of xo))
           (replicate (Z.to_nat (prod (shape xo))) f_uninit)).
Proof.
  intros Hx Hc Hp.
  rewrite (bind_ok _ _ _ _ _ (deref_ok _ _ _ Hx)).
  rewrite Hc. cbn [negb]. unfold GPUArray_contiguous.
  erewrite bind_raise; [done|]. by apply contiguous_op_raises.
Qed.

Lemma not_ok_matmul_op a b r w : is_ok (matmul_op a b r w).1 = false.
Proof.
  unfold matmul_op. apply not_ok_bind. intros ao w1.
  apply not_ok_bind. intros bo w2. apply not_ok_bind. intros r' w3.
  apply not_ok_bind. intros _ w4. apply not_ok_bind. intros K w5.
  apply not_ok_bind_l, not_ok_getattr_missing.
Qed.

End NeverReturns.

(** X1.  [contiguous_op] reads [x.ndims], an attribute no [GPUArray] has:
    neither [contiguous()] nor [numpy()] returns a value, whatever the view
    and the store.  For a view that exists and has a positive size both
    raise [AttributeError] after the result array has been allocated. *)
Theorem X1_contiguous_and_numpy_never_return {T} `{Float32 T}
    (w : world T) (x : ref) :
  is_ok (GPUArray_contiguous x w).1 = false ∧
  is_ok (GPUArray_numpy x w).1 = false ∧
  ∀ xo, objs w !! x = Some xo → 0 < prod (shape xo) →
    (GPUArray_contiguous x w).1 = Raise (AttributeError "ndims") ∧
    (GPUArray_numpy x w).1 = Raise (AttributeError "ndims") ∧
    length (objs (GPUArray_contiguous x w).2) = S (length (objs w)) ∧
    length (bufs (GPUArray_contiguous x w).2) = S (length (bufs w)).
Proof.
  split; [apply not_ok_contiguous_op|]. split; [apply not_ok_numpy|].
  intros xo Hx Hp. unfold GPUArray_numpy, numpy_via, GPUArray_contiguous.
  rewrite (bind_ok _ _ _ _ _ (deref_ok _ _ _ Hx)).
  erewrite bind_raise; [|by apply contiguous_op_raises].
  rewrite (contiguous_op_raises w x xo Hx Hp). unfold alloc; wsimpl.
  rewrite !length_app. cbn. split_and!; [done|done|lia|lia].
Qed.

Lemma X1_contiguous_witness :
  (GPUArray_contiguous 1 w_v3_tail).1 = Raise (AttributeError "ndims") ∧
  (GPUArray_numpy 1 w_v3_tail).1 = Raise (AttributeError "ndims") ∧
  length (objs (GPUArray_contiguous 1 w_v3_tail).2) = 3%nat ∧
  length (bufs (GPUArray_contiguous 1 w_v3_tail).2) = 2%nat.
Proof.
  exact (proj2 (proj2 (X1_contiguous_and_numpy_never_return w_v3_tail 1%nat))
           x_v3_tail eq_refl eq_refl).
Defined.

(** X2.  A view that is flagged neither C- nor F-contiguous (every slice
    and every expanded view is) cannot be reshaped: for a target of the
    right size [reshape] goes through [contiguous()] and raises
    [AttributeError]; [sum] and [max] of a view that is not flagged
    C-contiguous do the same. *)
Theorem X2_non_contiguous_views_cannot_be_materialised {T} `{Float32 T}
    (w : world T) (x : ref) (xo : GPUArray) :
  objs w !! x = Some xo → c_contiguous xo = false → 0 < prod (shape xo) →
  (f_contiguous xo = false →
   ∀ target, is_ok (GPUArray_reshape x target w).1 = false ∧
     (-1 ∉ target → prod target = prod (shape xo) →
      (GPUArray_reshape x target w).1 = Raise (AttributeError "ndims"))) ∧
  (∀ axis keepdims,
     (GPUArray_sum x axis keepdims w).1 = Raise (AttributeError "ndims") ∧
     (GPUArray_max x axis keepdims w).1 = Raise (AttributeError "ndims")).
Proof.
  intros Hx Hc Hp. split.
  - intros Hf target. split.
    + by apply (not_ok_reshape_rec _ w x xo).
    + intros Hm Ht. by apply (reshape_rec_raises _ w x xo).
  - intros axis keepdims. unfold GPUArray_sum, GPUArray_max.
    by rewrite !(reduce_non_contiguous_raises _ w x xo).
Qed.

Lemma X2_non_contiguous_witness :
  (GPUArray_reshape 1 [2; 1] w_v3_tail).1 = Raise (AttributeError "ndims") ∧
  (GPUArray_sum 1 None false w_v3_tail).1 = Raise (AttributeError "ndims").
Proof.
  pose proof (X2_non_contiguous_views_cannot_be_materialised
                w_v3_tail 1%nat x_v3_tail eq_refl eq_refl eq_refl) as [H1 H2].
  split.
  - apply (H1 eq_refl [2; 1]); [|reflexivity].
    intros Hin. apply list_elem_of_In in Hin. cbn in Hin.
    destruct Hin as [?|[?|[]]]; discriminate.
  - apply (H2 None false).
Defined.

(** X3.  [matmul_op] reads [a._c_contiguous], an attribute no [GPUArray]
    has: neither [matmul_op] nor the operator [@] returns a value, whatever
    the operands. *)
Theorem X3_matmul_never_returns {T} `{Float32 T}
    (w : world T) (a b : ref) (r : option ref) (o : operand T) :
  is_ok (matmul_op a b r w).1 = false ∧
  is_ok (GPUArray_matmul a o w).1 = false.
Proof.
  split; [apply not_ok_matmul_op|].
  unfold GPUArray_matmul. apply not_ok_bind. intros b' w'.
  apply not_ok_matmul_op.
Qed.


(** ** The operator tables *)

Section OperatorTables.
Context {T : Type} {F : Float32 T}.
Implicit Types w : world T.

Lemma dict_get_binary name w :
  name ∉ ["add"; "sub"; "truediv"; "mul"] →
  dict_get binary_mapping name w = (Raise (KeyError name), w) ∨
  (name = "pow" ∧ dict_get binary_mapping name w = (Ok "power(a,b)", w)).
Proof.
  intros Hn. unfold dict_get, binary_mapping. cbn [list_find fst snd].
  repeat (destruct (decide (_ = name)) as [<-|?];
          [first [by exfalso; apply Hn; repeat constructor | by right]|]).
  left. reflexivity.
Qed.

Lemma dict_get_unary name w :
  name ∉ ["neg"; "log"; "exp"] →
  dict_get unary_mapping name w = (Raise (KeyError name), w) ∨
  (name = "relu" ∧ dict_get unary_mapping name w = (Ok "", w)).
Proof.
  intros Hn. unfold dict_get, unary_mapping. cbn [list_find fst snd].
  repeat (destruct (decide (_ = name)) as [<-|?];
          [first [by exfalso; apply Hn; repeat constructor | by right]|]).
  left. reflexivity.
Qed.

Lemma not_ok_binary_op name a b r w :
  name ∉ ["add"; "sub"; "truediv"; "mul"] →
  is_ok (binary_op name a b r w).1 = false.
Proof.
  intros Hn. unfold binary_op.
  apply not_ok_bind. intros ab w1. apply not_ok_bind. intros ao w2.
  apply not_ok_bind. intros bo w3. apply not_ok_bind. intros r' w4.
  destruct (dict_get_binary name w4 Hn) as [E|[_ E]].
  - by rewrite (bind_raise _ _ _ _ _ E).
  - by rewrite (bind_ok _ _ _ _ _ E).
Qed.

Lemma not_ok_unary_op name a r w :
  name ∉ ["neg"; "log"; "exp"] →
  is_ok (unary_op name a r w).1 = false.
Proof.
  intros Hn. unfold unary_op.
  apply not_ok_bind. intros ao w1. apply not_ok_bind. intros r' w2.
  destruct (dict_get_unary name w2 Hn) as [E|[_ E]].
  - by rewrite (bind_raise _ _ _ _ _ E).
  - by rewrite (bind_ok _ _ _ _ _ E).
Qed.

(** With operands of one shape the allocation of the result precedes the
    lookup of the name. *)
Lemma binary_op_key_error name a b ao bo w :
  objs w !! a = Some ao → objs w !! b = Some bo → shape ao = shape bo →
  0 < prod (shape ao) → name ∉ ["add"; "sub"; "truediv"; "mul"; "pow"] →
  binary_op name a b None w =
  (Raise (KeyError name),
   alloc w (fresh_array (length (bufs w)) (shape ao) (dtype_of ao))
           (replicate (Z.to_nat (prod (shape ao))) f_uninit)).
Proof.
  intros Ha Hb Hsh Hp Hn. unfold binary_op, broadcast.
  erewrite bind_ok.
  2:{ rewrite (bind_ok _ _ _ _ _ (deref_ok _ _ _ Ha)).
      rewrite (bind_ok _ _ _ _ _ (deref_ok _ _ _ Hb)).
      by rewrite bool_decide_eq_true_2. }
  cbn [fst snd].
  rewrite (bind_ok _ _ _ _ _ (deref_ok _ _ _ Ha)).
  rewrite (bind_ok _ _ _ _ _ (deref_ok _ _ _ Hb)).
  rewrite (bind_ok _ _ _ _ _ (GPUArray_init_nodata w _ _ Hp)).
  erewrite bind_raise; [done|].
  destruct (dict_get_binary name (alloc w (fresh_array (length (bufs w))
              (shape ao) (dtype_of ao))
              (replicate (Z.to_nat (prod (shape ao))) f_uninit))) as [E|[E _]].
  - intros Hin. apply Hn.
    apply list_elem_of_In in Hin. apply list_elem_of_In. cbn in *. tauto.
  - exact E.
  - subst. exfalso. apply Hn. repeat constructor.
Qed.

End OperatorTables.

(** X4.  [binary_op] returns only for the names [add], [sub], [truediv]
    and [mul], [unary_op] only for [neg], [log] and [exp]: any other name
    is missing from the table of the dispatcher ([KeyError]) or maps to text
    that is no OpenCL expression ([pow] to [power(a,b)], [relu] to the empty
    text).  So the comparison operators, the three forms of [**], [relu]
    and [drelu] never return a value. *)
Theorem X4_only_listed_operators_return {T} `{Float32 T} (w : world T) :
  (∀ name a b r, is_ok (binary_op name a b r w).1 = true →
     name ∈ ["add"; "sub"; "truediv"; "mul"]) ∧
  (∀ name a r, is_ok (unary_op name a r w).1 = true →
     name ∈ ["neg"; "log"; "exp"]) ∧
  (∀ op a o, op ∈ ["eq"; "ge"; "gt"; "pow"] →
     is_ok (GPUArray_binop op a o w).1 = false ∧
     is_ok (GPUArray_ibinop op a o w).1 = false ∧
     is_ok (GPUArray_rbinop op a o w).1 = false) ∧
  (∀ a o, is_ok (GPUArray_drelu a o w).1 = false) ∧
  (∀ a inplace, is_ok (GPUArray_relu a inplace w).1 = false).
Proof.
  split_and!.
  - intros name a b r Hok.
    destruct (decide (name ∈ ["add"; "sub"; "truediv"; "mul"])) as [|Hn];
      [done|].
    by rewrite (not_ok_binary_op name a b r w Hn) in Hok.
  - intros name a r Hok.
    destruct (decide (name ∈ ["neg"; "log"; "exp"])) as [|Hn]; [done|].
    by rewrite (not_ok_unary_op name a r w Hn) in Hok.
  - intros op a o Hop.
    assert (op ∉ ["add"; "sub"; "truediv"; "mul"]) as Hn.
    { intros Hin. apply list_elem_of_In in Hin, Hop. cbn in Hin, Hop.
      destruct Hop as [<-|[<-|[<-|[<-|[]]]]];
        destruct Hin as [?|[?|[?|[?|[]]]]]; discriminate. }
    unfold GPUArray_binop, GPUArray_ibinop, GPUArray_rbinop.
    split_and!; apply not_ok_bind; intros b' w'; by apply not_ok_binary_op.
  - intros a o. unfold GPUArray_drelu. apply not_ok_bind. intros b' w'.
    apply not_ok_binary_op.
    intros Hin. apply list_elem_of_In in Hin. cbn in Hin.
    destruct Hin as [?|[?|[?|[?|[]]]]]; discriminate.
  - intros a inplace. unfold GPUArray_relu. apply not_ok_unary_op.
    intros Hin. apply list_elem_of_In in Hin. cbn in Hin.
    destruct Hin as [?|[?|[?|[]]]]; discriminate.
Qed.

Lemma X4_operators_witness :
  is_ok (binary_op "add" 0 1 None (w_arange2 [2] [2])).1 = true ∧
  "add" ∈ ["add"; "sub"; "truediv"; "mul"] ∧
  is_ok (GPUArray_binop "eq" 0 (OArray 1) (w_arange2 [2] [2])).1 = false.
Proof.
  split; [reflexivity|]. split.
  - exact (proj1 (X4_only_listed_operators_return (w_arange2 [2] [2]))
             "add" 0%nat 1%nat None eq_refl).
  - apply (proj1 (proj2 (proj2 (X4_only_listed_operators_return
                                  (w_arange2 [2] [2]))))).
    repeat constructor.
Defined.

(** X5.  A name that is in no table is looked up after the result array has
    been allocated: on two existing arrays of one shape, [binary_op] with
    such a name raises [KeyError] for the name and leaves one new descriptor
    and one new buffer behind; the operands are unchanged. *)
Theorem X5_unknown_operator_key_error {T} `{Float32 T}
    (w : world T) (name : string) (a b : ref) (ao bo : GPUArray) :
  objs w !! a = Some ao → objs w !! b = Some bo → shape ao = shape bo →
  0 < prod (shape ao) → name ∉ ["add"; "sub"; "truediv"; "mul"; "pow"] →
  binary_op name a b None w =
  (Raise (KeyError name),
   alloc w (fresh_array (length (bufs w)) (shape ao) (dtype_of ao))
           (replicate (Z.to_nat (prod (shape ao))) f_uninit)).
Proof. apply binary_op_key_error. Qed.

Lemma X5_key_error_witness :
  (binary_op "eq" 0 1 None (w_arange2 [2] [2])).1 = Raise (KeyError "eq").
Proof.
  assert ("eq" ∉ ["add"; "sub"; "truediv"; "mul"; "pow"]) as Hn.
  { intros Hin. apply list_elem_of_In in Hin. cbn in Hin.
    destruct Hin as [?|[?|[?|[?|[?|[]]]]]]; discriminate. }
  by rewrite (X5_unknown_operator_key_error (w_arange2 [2] [2]) "eq" 0%nat 1%nat
                _ _ eq_refl eq_refl eq_refl eq_refl Hn).
Defined.


(** ** [__setitem__], [fill] and the constructors *)

Section FillAndSetitem.
Context {T : Type} {F : Float32 T}.
Implicit Types w : world T.

Lemma frame_preserved_any {A} (m : M T A) w Q :
  frame (length (objs w)) m Q → preserved w (m w).2.
Proof.
  intros Hm. destruct (Hm w (le_n _)) as (Ho & Hl & Hb & HQ).
  rewrite firstn_all in Ho. split.
  - intros u x Hu. rewrite <- Ho in Hu.
    by rewrite lookup_take_Some in Hu; destruct Hu.
  - intros h b Hh. by eapply prefix_lookup_Some.
Qed.

(** The run of [__getitem__] on a valid key. *)
Lemma GPUArray_getitem_run w self x key y :
  objs w !! self = Some x → length (strides x) = length (shape x) →
  (length key ≤ length (shape x))%nat → spec_getitem x key = Some y →
  GPUArray_getitem self key w = (Ok (length (objs w)), push w y).
Proof.
  intros Hx Hst Hlen Hy. unfold GPUArray_getitem. unfold spec_getitem in Hy.
  rewrite (bind_ok _ _ _ _ _ (copy_copy_ok _ _ _ Hx)).
  rewrite (bind_ok _ _ _ _ _ (deref_push w x)).
  pose proof (getitem_loop_spec w key 0 [] (shape x) x Hst eq_refl eq_refl
                ltac:(constructor) ltac:(lia)) as Hloop.
  rewrite !drop_0 in Hloop.
  destruct (spec_dims (shape x) (strides x) key) as [r|]; [|done].
  injection Hy as <-.
  destruct Hloop as (rf & sf & Hrun & H1 & H2).
  rewrite (bind_ok _ _ _ _ _ Hrun). cbn [fst snd].
  unfold bind at 1. rewrite assign_push.
  unfold bind at 1. rewrite deref_push.
  unfold bind at 1. rewrite assign_push.
  cbn [ret set_shape set_strides buffer shape dtype_of strides offset
       c_contiguous f_contiguous].
  rewrite H1, H2. done.
Qed.

Lemma fill_run w self so b v :
  objs w !! self = Some so → bufs w !! buffer so = Some b →
  GPUArray_fill self v w =
  (Ok self, with_buffer w (buffer so) (replicate (length b) v)).
Proof.
  intros Hs Hb. unfold GPUArray_fill, GPUArray_size.
  rewrite (bind_ok _ _ _ _ _ (deref_ok _ _ _ Hs)).
  erewrite bind_ok.
  2:{ rewrite (bind_ok _ _ _ _ _ (deref_ok _ _ _ Hs)).
      erewrite bind_ok; [reflexivity|]. unfold read_buffer. by rewrite Hb. }
  unfold enqueue_fill_buffer, itemsize.
  set (n := Z.of_nat (length b)).
  assert ((4 * n) `mod` 4 = 0) as Hm by (rewrite Z.mul_comm; apply Z_mod_mult).
  assert ((4 * n) `div` 4 = n) as Hd by (rewrite Z.mul_comm; apply Z_div_mult; lia).
  erewrite bind_ok.
  2:{ erewrite bind_ok; [|unfold read_buffer; by rewrite Hb].
      fold n. rewrite Hm, Hd, Z.add_0_l, !Z.ltb_irrefl.
      rewrite (proj2 (Z.ltb_ge (4 * n) 0)) by lia.
      change (0 `mod` 4) with 0. change (0 `div` 4) with 0.
      cbn [orb negb Z.eqb Z.to_nat take app Nat.add].
      unfold n. rewrite !Nat2Z.id. rewrite drop_ge by (cbn; lia).
      rewrite app_nil_r. reflexivity. }
  done.
Qed.

Lemma full_run w sh dt v :
  0 < prod sh →
  GPUArray_full sh v dt w =
  (Ok (length (objs w)),
   alloc w (fresh_array (length (bufs w)) sh dt)
           (replicate (Z.to_nat (prod sh)) v)).
Proof.
  intros Hp. unfold GPUArray_full.
  rewrite (bind_ok _ _ _ _ _ (GPUArray_init_nodata w _ _ Hp)).
  erewrite fill_run.
  2:{ unfold alloc; wsimpl. by rewrite lookup_app_r, Nat.sub_diag. }
  2:{ unfold alloc; wsimpl. cbn [buffer fresh_array].
      by rewrite lookup_app_r, Nat.sub_diag. }
  f_equal. unfold with_buffer, alloc, set_bufs; wsimpl.
  cbn [buffer fresh_array]. f_equal.
  rewrite insert_app_r_alt, Nat.sub_diag by lia. cbn.
  by rewrite length_replicate.
Qed.

End FillAndSetitem.

(** X6.  [__setitem__] never assigns: it takes the view for the key and
    then stops at [assert False].  It never returns, it leaves every
    descriptor and every buffer that existed as they were, and for a valid
    key the exception is that [AssertionError], raised after the view has
    been created. *)
Theorem X6_setitem_never_assigns {T} `{Float32 T} (w : world T)
    (self value : ref) (key : list index_key) :
  is_ok (GPUArray_setitem self key value w).1 = false ∧
  preserved w (GPUArray_setitem self key value w).2 ∧
  ∀ x y, objs w !! self = Some x → length (strides x) = length (shape x) →
    (length key ≤ length (shape x))%nat → spec_getitem x key = Some y →
    GPUArray_setitem self key value w =
    (Raise (AssertionError "TODO: implement assign ops"), push w y).
Proof.
  split_and!.
  - unfold GPUArray_setitem. by apply not_ok_bind.
  - apply (frame_preserved_any _ w (λ _, True)). unfold GPUArray_setitem.
    eapply frame_bind; [apply frame_GPUArray_getitem|].
    intros item _. apply frame_py_assert.
  - intros x y Hx Hst Hlen Hy. unfold GPUArray_setitem.
    by rewrite (bind_ok _ _ _ _ _ (GPUArray_getitem_run w self x key y Hx Hst Hlen Hy)).
Qed.

Lemma X6_setitem_witness :
  GPUArray_setitem 0 [KInt 1] 0 w_a23 =
  (Raise (AssertionError "TODO: implement assign ops"),
   push w_a23 (mkGPUArray 0 [3] float32 [1] 3 true false)).
Proof.
  exact (proj2 (proj2 (X6_setitem_never_assigns w_a23 0%nat 0%nat [KInt 1]))
           x_a23 _ eq_refl eq_refl ltac:(cbn; lia) eq_refl).
Defined.

(** X7.  [fill] overwrites the whole buffer of the array, not the elements
    of the view: every element of the buffer becomes the value, whatever
    the shape, the strides and the offset of the view, and the same object
    is returned.  Filling a slice fills the array it was taken from. *)
Theorem X7_fill_overwrites_whole_buffer {T} `{Float32 T} (w : world T)
    (self : ref) (so : GPUArray) (b : list T) (v : T) :
  objs w !! self = Some so → bufs w !! buffer so = Some b →
  GPUArray_fill self v w =
  (Ok self, with_buffer w (buffer so) (replicate (length b) v)).
Proof. apply fill_run. Qed.

Lemma X7_fill_witness :
  GPUArray_fill 1 7 w_v3_tail =
  (Ok 1%nat, with_buffer w_v3_tail 0 [7; 7; 7]).
Proof.
  exact (X7_fill_overwrites_whole_buffer w_v3_tail 1%nat x_v3_tail
           [10; 20; 30] 7 eq_refl eq_refl).
Defined.

(** X8.  For a shape of positive size, [full(shape, value)] returns a new
    C-contiguous array whose buffer holds [prod shape] copies of the value,
    [zeros(shape)] one that holds zeros, and [storage()] of the result
    returns exactly these elements. *)
Theorem X8_full_and_zeros {T} `{Float32 T} (w : world T) (sh : list Z)
    (dt : dtype) (v : T) :
  0 < prod sh →
  GPUArray_full sh v dt w =
    (Ok (length (objs w)),
     alloc w (fresh_array (length (bufs w)) sh dt)
             (replicate (Z.to_nat (prod sh)) v)) ∧
  GPUArray_zeros sh dt w =
    (Ok (length (objs w)),
     alloc w (fresh_array (length (bufs w)) sh dt)
             (replicate (Z.to_nat (prod sh)) f_zero)) ∧
  ((x <- GPUArray_full sh v dt ;; GPUArray_storage x) w).1 =
    Ok (mkNdarray [prod sh] dt (replicate (Z.to_nat (prod sh)) v)).
Proof.
  intros Hp. split_and!.
  - by apply full_run.
  - by apply (full_run w sh dt f_zero).
  - rewrite (bind_ok _ _ _ _ _ (full_run w sh dt v Hp)).
    unfold GPUArray_storage.
    erewrite bind_ok.
    2:{ apply deref_ok. unfold alloc; wsimpl.
        by rewrite lookup_app_r, Nat.sub_diag. }
    erewrite bind_ok.
    2:{ unfold read_buffer, alloc; wsimpl. cbn [buffer fresh_array].
        by rewrite lookup_app_r, Nat.sub_diag. }
    cbn [ret fst dtype_of fresh_array]. rewrite length_replicate, Z2Nat.id by lia.
    done.
Qed.

Lemma X8_full_witness :
  ((x <- GPUArray_full [2; 2] 5 float32 ;; GPUArray_storage x)
     (world0 (T:=Z))).1 = Ok (mkNdarray [4] float32 [5; 5; 5; 5]).
Proof.
  exact (proj2 (proj2 (X8_full_and_zeros world0 [2; 2] float32 5 eq_refl))).
Defined.

(** ** [reshape] *)

Section Reshape.
Context {T : Type} {F : Float32 T}.
Implicit Types w : world T.

Lemma prod_app l1 l2 : prod (l1 ++ l2) = prod l1 * prod l2.
Proof.
  induction l1 as [|a l1 IH]; cbn [app].
  - unfold prod at 2. cbn. by destruct (prod l2).
  - rewrite !prod_cons, IH. lia.
Qed.

Lemma filter_all {A} (P : A → Prop) `{∀ x, Decision (P x)} (l : list A) :
  Forall P l → filter P l = l.
Proof.
  induction 1 as [|a l Ha _ IH]; [done|].
  by rewrite filter_cons, decide_True, IH.
Qed.

Lemma filter_none {A} (P : A → Prop) `{∀ x, Decision (P x)} (l : list A) :
  Forall (λ x, ¬ P x) l → filter P l = [].
Proof.
  induction 1 as [|a l Ha _ IH]; [done|].
  by rewrite filter_cons, decide_False, IH.
Qed.

Lemma not_elem_Forall (l : list Z) (v : Z) : v ∉ l ↔ Forall (λ s, s ≠ v) l.
Proof.
  rewrite Forall_forall. split.
  - intros Hn s Hs ->. done.
  - intros Hall Hin. by apply (Hall v Hin).
Qed.

(** A target with exactly one [-1]. *)
Lemma one_minus_one_split (l : list Z) :
  length (filter (λ s, s = -1) l) = 1%nat →
  ∃ pre post, l = pre ++ -1 :: post ∧ (-1 ∉ pre) ∧ (-1 ∉ post).
Proof.
  induction l as [|a l IH]; [done|]. rewrite filter_cons.
  destruct (decide (a = -1)) as [->|Ha]; cbn [length]; intros Hl.
  - exists [], l. split_and!; [done|apply not_elem_of_nil|].
    intros Hin.
    assert (-1 ∈ filter (λ s, s = -1) l) as Hf
      by (by apply list_elem_of_filter).
    destruct (filter _ l); [by apply elem_of_nil in Hf|done].
  - destruct (IH Hl) as (pre & post & -> & Hpre & Hpost).
    exists (a :: pre), post. split_and!; [done| |done].
    intros [?|?]%elem_of_cons; [congruence|done].
Qed.

Lemma minus_one_facts pre post :
  -1 ∉ pre → -1 ∉ post →
  let target := pre ++ -1 :: post in
  bool_decide (-1 ∈ target) = true ∧
  length (filter (λ s, s = -1) target) = 1%nat ∧
  index_of_minus_one target = length pre ∧
  filter (λ s, s ≠ -1) target = pre ++ post.
Proof.
  intros Hpre Hpost target. unfold target. split_and!.
  - apply bool_decide_eq_true_2, elem_of_app. right. constructor.
  - rewrite filter_app, filter_cons, decide_True by done.
    rewrite !filter_none; [done| |].
    + apply not_elem_Forall in Hpost.
      eapply Forall_impl; [exact Hpost|]. cbn. auto.
    + apply not_elem_Forall in Hpre.
      eapply Forall_impl; [exact Hpre|]. cbn. auto.
  - unfold index_of_minus_one.
    assert (list_find (λ s, s = -1) (pre ++ -1 :: post) =
            Some (length pre, -1)) as ->; [|done].
    apply list_find_Some. split_and!.
    + by rewrite lookup_app_r, Nat.sub_diag.
    + done.
    + intros j y Hj Hlt ->. rewrite lookup_app_l in Hj by done.
      apply Hpre. by eapply list_elem_of_lookup_2.
  - rewrite filter_app, filter_cons, decide_False by (intros ?; done).
    rewrite !filter_all; [done| |]; by apply not_elem_Forall.
Qed.

(** The part of [reshape] that follows the inference of the target. *)
Lemma reshape_rec_explicit fuel w self x target :
  objs w !! self = Some x → -1 ∉ target →
  reshape_rec (S fuel) self target w =
  (py_assert (prod target =? prod (shape x)) "Can not reshape" ;;;
   if c_contiguous x || f_contiguous x then
     inst <- copy_copy self ;;
     let strides :=
       if c_contiguous x then c_strides target else f_strides target in
     assign inst (λ o, set_strides strides (set_shape target o)) ;;;
     update_contiguousness inst ;;;
     ret inst
   else
     c <- GPUArray_contiguous self ;;
     reshape_rec fuel c target) w.
Proof.
  intros Hx Hm. cbn [reshape_rec].
  rewrite (bind_ok _ _ _ _ _ (deref_ok _ _ _ Hx)).
  rewrite bool_decide_eq_false_2 by done.
  unfold bind at 1. done.
Qed.

Lemma reshape_rec_infer fuel w self x target :
  objs w !! self = Some x →
  length (filter (λ s, s = -1) target) = 1%nat →
  let infer := prod (filter (λ s, s ≠ -1) target) in
  let q := prod (shape x) `div` infer in
  infer ≠ 0 → prod (shape x) `mod` infer = 0 → q ≠ -1 →
  reshape_rec (S fuel) self target w =
  reshape_rec (S fuel) self (<[index_of_minus_one target := q]> target) w ∧
  prod (<[index_of_minus_one target := q]> target) = prod (shape x).
Proof.
  intros Hx H1 infer q Hi Hmod Hq.
  destruct (one_minus_one_split target H1) as (pre & post & Ht & Hpre & Hpost).
  destruct (minus_one_facts pre post Hpre Hpost) as (E1 & E2 & E3 & E4).
  cbn zeta in *. rewrite <- Ht in E1, E2, E3, E4.
  assert (<[index_of_minus_one target := q]> target = pre ++ [q] ++ post)
    as Hins.
  { rewrite E3, Ht. rewrite insert_app_r_alt, Nat.sub_diag by lia. done. }
  assert (-1 ∉ pre ++ [q] ++ post) as Hno.
  { rewrite !not_elem_of_app. split_and!; [done| |done].
    intros Hin%list_elem_of_singleton. congruence. }
  assert (infer = prod pre * prod post) as Hinf.
  { unfold infer. by rewrite E4, prod_app. }
  assert (take (length pre) target = pre) as Htake
    by (by rewrite Ht, take_app_length).
  assert (drop (S (length pre)) target = post) as Hdrop.
  { rewrite Ht, drop_app_ge, Nat.sub_succ_l, Nat.sub_diag by lia. done. }
  split.
  - rewrite Hins, (reshape_rec_explicit fuel w self x _ Hx Hno).
    cbn [reshape_rec].
    rewrite (bind_ok _ _ _ _ _ (deref_ok _ _ _ Hx)).
    rewrite E1, E2. cbn [Nat.leb].
    erewrite bind_ok.
    2:{ unfold bind at 1. rewrite py_assert_true.
        fold infer. rewrite (proj2 (Z.eqb_neq _ _) Hi).
        unfold bind at 1. rewrite Hmod. cbn [Z.eqb]. rewrite py_assert_true.
        rewrite E3. fold q. rewrite Htake, Hdrop. reflexivity. }
    done.
  - rewrite Hins, !prod_app, prod_cons. unfold prod at 2. cbn [foldr].
    unfold q. rewrite Hinf in *.
    pose proof (Z.div_mod (prod (shape x)) (prod pre * prod post) Hi) as Hdm.
    rewrite Hmod in Hdm. lia.
Qed.

Lemma length_f_strides sh : length (f_strides sh) = length sh.
Proof. unfold f_strides. by rewrite length_fmap, length_seq. Qed.

(** The run of [reshape] on a view that is flagged contiguous. *)
Lemma reshape_contiguous_run fuel w self x target :
  objs w !! self = Some x → c_contiguous x || f_contiguous x = true →
  -1 ∉ target → prod target = prod (shape x) →
  reshape_rec (S fuel) self target w =
  (Ok (length (objs w)), push w (reshaped x target)).
Proof.
  intros Hx Hcf Hm Hp.
  rewrite (reshape_rec_explicit fuel w self x _ Hx Hm).
  rewrite (proj2 (Z.eqb_eq _ _) Hp).
  unfold bind at 1. rewrite py_assert_true. rewrite Hcf.
  rewrite (bind_ok _ _ _ _ _ (copy_copy_ok _ _ _ Hx)).
  unfold bind at 1. rewrite assign_push.
  erewrite bind_ok.
  2:{ apply update_contiguousness_push, non_unit_strides_eq.
      cbn [shape strides set_shape set_strides].
      destruct (c_contiguous x);
        [apply length_c_strides|apply length_f_strides]. }
  done.
Qed.

Lemma reshaped_dense h sh dt target :
  Forall (λ d, 0 < d) target →
  reshaped (fresh_array h sh dt) target = fresh_array h target dt ∨
  c_contiguous (fresh_array h sh dt) = false.
Proof.
  intros Ht. destruct (c_contiguous (fresh_array h sh dt)) eqn:E; [left|by right].
  unfold reshaped. rewrite E. unfold fresh_array.
  cbn [buffer dtype_of offset].
  rewrite non_unit_strides_eq by (cbn; by rewrite length_c_strides).
  done.
Qed.

End Reshape.

(** X10.  [reshape] of a view that is flagged C-contiguous (or
    F-contiguous) to a target of the same size returns a new view on the
    same buffer with the same offset, the target as shape and the
    C-contiguous (F-contiguous) strides of the target; the array itself is
    unchanged.  For a newly constructed array and a target of positive
    dimensions the result is the descriptor a new array of the target shape
    has, so its elements in row-major order are those of the array. *)
Theorem X10_reshape_of_contiguous_view {T} `{Float32 T} (w : world T)
    (self : ref) (x : GPUArray) (target : list Z) :
  objs w !! self = Some x → c_contiguous x || f_contiguous x = true →
  -1 ∉ target → prod target = prod (shape x) →
  GPUArray_reshape self target w =
    (Ok (length (objs w)), push w (reshaped x target)) ∧
  buffer (reshaped x target) = buffer x ∧
  offset (reshaped x target) = offset x ∧
  shape (reshaped x target) = target ∧
  strides (reshaped x target) =
    (if c_contiguous x then c_strides target else f_strides target) ∧
  (∀ h sh dt (data : list T),
     x = fresh_array h sh dt → Forall (λ d, 0 < d) sh →
     Forall (λ d, 0 < d) target → length data = Z.to_nat (prod sh) →
     reshaped x target = fresh_array h target dt ∧
     logical data (reshaped x target) = Some data ∧
     logical data x = Some data).
Proof.
  intros Hx Hcf Hm Hp. split_and!; try done.
  - by apply reshape_contiguous_run.
  - intros h sh dt data -> Hsh Ht Hlen.
    destruct (reshaped_dense h sh dt target Ht) as [E|E].
    + rewrite E. split_and!; [done| |by apply logical_fresh].
      apply logical_fresh; [done|]. cbn [shape fresh_array] in Hp. by rewrite Hp.
    + by rewrite fresh_array_c_contiguous in E.
Qed.

Lemma X10_reshape_witness :
  GPUArray_reshape 0 [3; 2] w_a23 =
  (Ok 1%nat, push w_a23 (mkGPUArray 0 [3; 2] float32 [2; 1] 0 true false)).
Proof.
  refine (proj1 (X10_reshape_of_contiguous_view w_a23 0%nat x_a23 [3; 2]
                   eq_refl eq_refl _ eq_refl)).
  intros Hin. apply list_elem_of_In in Hin. cbn in Hin.
  destruct Hin as [?|[?|[]]]; discriminate.
Defined.

(** X11.  A target with exactly one [-1] is completed before anything else
    is checked: when the product [p] of the other entries is not 0 and
    divides the size of the view, [reshape] behaves as [reshape] with the
    [-1] replaced by [size // p], and the completed target has the size of
    the view, so that its size check passes. *)
Theorem X11_reshape_infers_one_dimension {T} `{Float32 T} (w : world T)
    (self : ref) (x : GPUArray) (target : list Z) :
  objs w !! self = Some x →
  length (filter (λ s, s = -1) target) = 1%nat →
  let p := prod (filter (λ s, s ≠ -1) target) in
  let q := prod (shape x) `div` p in
  p ≠ 0 → prod (shape x) `mod` p = 0 → q ≠ -1 →
  GPUArray_reshape self target w =
  GPUArray_reshape self (<[index_of_minus_one target := q]> target) w ∧
  prod (<[index_of_minus_one target := q]> target) = prod (shape x).
Proof. intros Hx H1 p q. by apply reshape_rec_infer. Qed.

Lemma X11_reshape_infer_witness :
  GPUArray_reshape 0 [-1; 2] w_a23 = GPUArray_reshape 0 [3; 2] w_a23 ∧
  prod [3; 2] = prod (shape x_a23).
Proof.
  exact (X11_reshape_infers_one_dimension w_a23 0%nat x_a23 [-1; 2]
           eq_refl eq_refl ltac:(discriminate) eq_refl ltac:(discriminate)).
Defined.

Section ReshapeErrors.
Context {T : Type} {F : Float32 T}.
Implicit Types w : world T.

Lemma minus_one_counted (l : list Z) :
  Nat.lt 0 (length (filter (λ s, s = -1) l)) → -1 ∈ l.
Proof.
  destruct (filter _ l) as [|a f] eqn:E; cbn [length]; [lia|]. intros _.
  assert (a ∈ filter (λ s, s = -1) l) as Ha by (rewrite E; constructor).
  apply list_elem_of_filter in Ha as [-> Ha]. done.
Qed.

Lemma reshape_rejects w self x target fuel :
  objs w !! self = Some x →
  (-1 ∉ target → prod target ≠ prod (shape x) →
   reshape_rec (S fuel) self target w =
   (Raise (AssertionError "Can not reshape"), w)) ∧
  (Nat.le 2 (length (filter (λ s, s = -1) target)) →
   reshape_rec (S fuel) self target w =
   (Raise (AssertionError "Only one dimension can be inferred"), w)) ∧
  (length (filter (λ s, s = -1) target) = 1%nat →
   let p := prod (filter (λ s, s ≠ -1) target) in
   (p = 0 → reshape_rec (S fuel) self target w = (Raise ZeroDivisionError, w)) ∧
   (p ≠ 0 → prod (shape x) `mod` p ≠ 0 →
    reshape_rec (S fuel) self target w =
    (Raise (AssertionError "Shape invalid for size"), w))).
Proof.
  intros Hx. split_and!.
  - intros Hm Hp. rewrite (reshape_rec_explicit fuel w self x _ Hx Hm).
    rewrite (proj2 (Z.eqb_neq _ _) Hp). done.
  - intros H2. cbn [reshape_rec].
    rewrite (bind_ok _ _ _ _ _ (deref_ok _ _ _ Hx)).
    rewrite bool_decide_eq_true_2 by (apply minus_one_counted; lia).
    destruct (length (filter (λ s, s = -1) target)) as [|[|n]]; [lia|lia|].
    done.
  - intros H1 p. split.
    + intros Hp. cbn [reshape_rec].
      rewrite (bind_ok _ _ _ _ _ (deref_ok _ _ _ Hx)).
      rewrite bool_decide_eq_true_2 by (apply minus_one_counted; lia).
      rewrite H1. fold p. rewrite Hp. done.
    + intros Hp Hmod. cbn [reshape_rec].
      rewrite (bind_ok _ _ _ _ _ (deref_ok _ _ _ Hx)).
      rewrite bool_decide_eq_true_2 by (apply minus_one_counted; lia).
      rewrite H1. fold p.
      rewrite (proj2 (Z.eqb_neq _ _) Hp), (proj2 (Z.eqb_neq _ _) Hmod).
      done.
Qed.

End ReshapeErrors.

(** X12.  [reshape] checks the target before it touches anything, for
    every view, contiguous or not: a target without [-1] of another size,
    a target with more than one [-1], and a target with one [-1] whose
    other entries multiply to 0 or to a number that does not divide the
    size are rejected with the store unchanged. *)
Theorem X12_reshape_rejects_bad_targets {T} `{Float32 T} (w : world T)
    (self : ref) (x : GPUArray) (target : list Z) :
  objs w !! self = Some x →
  (-1 ∉ target → prod target ≠ prod (shape x) →
   GPUArray_reshape self target w =
   (Raise (AssertionError "Can not reshape"), w)) ∧
  (Nat.le 2 (length (filter (λ s, s = -1) target)) →
   GPUArray_reshape self target w =
   (Raise (AssertionError "Only one dimension can be inferred"), w)) ∧
  (length (filter (λ s, s = -1) target) = 1%nat →
   let p := prod (filter (λ s, s ≠ -1) target) in
   (p = 0 → GPUArray_reshape self target w = (Raise ZeroDivisionError, w)) ∧
   (p ≠ 0 → prod (shape x) `mod` p ≠ 0 →
    GPUArray_reshape self target w =
    (Raise (AssertionError "Shape invalid for size"), w))).
Proof. apply reshape_rejects. Qed.

Lemma X12_reshape_rejects_witness :
  GPUArray_reshape 0 [4; 2] w_a23 =
    (Raise (AssertionError "Can not reshape"), w_a23) ∧
  GPUArray_reshape 0 [-1; -1] w_a23 =
    (Raise (AssertionError "Only one dimension can be inferred"), w_a23) ∧
  GPUArray_reshape 0 [-1; 0] w_a23 = (Raise ZeroDivisionError, w_a23) ∧
  GPUArray_reshape 0 [-1; 4] w_a23 =
    (Raise (AssertionError "Shape invalid for size"), w_a23).
Proof.
  split_and!.
  - refine (proj1 (X12_reshape_rejects_bad_targets w_a23 0%nat x_a23 [4; 2]
                     eq_refl) _ ltac:(discriminate)).
    intros Hin. apply list_elem_of_In in Hin. cbn in Hin.
    destruct Hin as [?|[?|[]]]; discriminate.
  - apply (proj1 (proj2 (X12_reshape_rejects_bad_targets w_a23 0%nat x_a23
                           [-1; -1] eq_refl))).
    vm_compute. lia.
  - apply (proj1 (proj2 (proj2 (X12_reshape_rejects_bad_targets w_a23 0%nat
                                  x_a23 [-1; 0] eq_refl)) eq_refl)).
    reflexivity.
  - apply (proj2 (proj2 (proj2 (X12_reshape_rejects_bad_targets w_a23 0%nat
                                  x_a23 [-1; 4] eq_refl)) eq_refl));
      discriminate.
Defined.


(** ** Transposition and the contiguity flags *)

Section Flags.

Lemma non_unit_app sh1 : ∀ st1 sh2 st2,
  length sh1 = length st1 →
  non_unit (sh1 ++ sh2) (st1 ++ st2) = non_unit sh1 st1 ++ non_unit sh2 st2.
Proof.
  induction sh1 as [|d sh1 IH]; intros [|t st1] sh2 st2 Hl; try done.
  cbn [app non_unit]. rewrite IH by (cbn in Hl; lia).
  by destruct (d =? 1).
Qed.

Lemma non_unit_reverse sh : ∀ st,
  length sh = length st →
  non_unit (reverse sh) (reverse st) = reverse (non_unit sh st).
Proof.
  induction sh as [|d sh IH]; intros [|t st] Hl; try done.
  rewrite !reverse_cons, non_unit_app by (rewrite !length_reverse; cbn in Hl; lia).
  rewrite IH by (cbn in Hl; lia). cbn [non_unit].
  destruct (d =? 1); [by rewrite app_nil_r|by rewrite reverse_cons].
Qed.

Lemma length_non_unit sh : ∀ st,
  length sh = length st →
  length (non_unit sh st) = length (filter (λ d, d ≠ 1) sh).
Proof.
  induction sh as [|d sh IH]; intros [|t st] Hl; try done.
  cbn [non_unit]. rewrite filter_cons.
  destruct (d =? 1) eqn:E.
  - apply Z.eqb_eq in E. rewrite decide_False by auto.
    apply IH. cbn in Hl. lia.
  - apply Z.eqb_neq in E. rewrite decide_True by done.
    cbn [length]. f_equal. apply IH. cbn in Hl. lia.
Qed.

(** The strides of the dimensions of size other than 1 of a new array
    decrease strictly. *)
Lemma non_unit_head sh :
  Forall (λ d, 0 < d) sh →
  match non_unit sh (c_strides sh) with
  | [] => True
  | a :: s' => Forall (λ t, t < a) s'
  end.
Proof.
  induction 1 as [|d ds Hd Hds IH]; [done|].
  cbn [c_strides non_unit]. destruct (d =? 1); [exact IH|].
  destruct (sorted_descending ds Hds) as [Hb _]. cbn zeta in Hb.
  eapply Forall_impl; [exact Hb|]. cbn. intros t [? ?]. lia.
Qed.

Lemma reverse_fixed_short (a : Z) s :
  Forall (λ t, t < a) s → reverse (a :: s) = a :: s → s = [].
Proof.
  intros Hall Hrev. destruct s as [|b s] using rev_ind; [done|].
  rewrite reverse_cons, reverse_app in Hrev. cbn in Hrev.
  injection Hrev as Hab _.
  apply Forall_app in Hall as [_ Hb]. inversion Hb; subst. lia.
Qed.

Lemma reverse_fixed_iff s :
  match s with [] => True | a :: s' => Forall (λ t, t < a) s' end →
  bool_decide (reverse s = s) = bool_decide (length s ≤ 1)%nat.
Proof.
  intros Hs. destruct s as [|a s]; [done|].
  destruct (decide (s = [])) as [->|Hne].
  - rewrite !bool_decide_eq_true_2; [done|cbn; lia|done].
  - rewrite bool_decide_eq_false_2.
    + rewrite bool_decide_eq_false_2; [done|].
      destruct s; [done|cbn; lia].
    + intros Hrev. by apply Hne, (reverse_fixed_short a).
Qed.

Lemma insert_sorted_head x l :
  Forall (λ y, x ≤ y) l → insert_sorted x l = x :: l.
Proof.
  destruct 1 as [|y l Hy _]; [done|]. cbn.
  by rewrite (proj2 (Z.leb_le _ _)) by lia.
Qed.

Lemma Forall_insert_sorted (P : Z → Prop) x l :
  P x → Forall P l → Forall P (insert_sorted x l).
Proof.
  intros Hx. induction 1 as [|y l Hy Hl IH]; cbn.
  - by constructor.
  - destruct (x <=? y); repeat constructor; auto.
Qed.

Lemma insert_sorted_ascending x l :
  StronglySorted Z.le l → StronglySorted Z.le (insert_sorted x l).
Proof.
  induction 1 as [|y l Hl IH Hy]; cbn.
  - repeat constructor.
  - destruct (x <=? y) eqn:E.
    + apply Z.leb_le in E. constructor; [by constructor|].
      constructor; [done|]. eapply Forall_impl; [exact Hy|]. cbn. lia.
    + apply Z.leb_gt in E. constructor; [done|].
      apply Forall_insert_sorted; [lia|done].
Qed.

Lemma sorted_ascending l : StronglySorted Z.le (sorted l).
Proof.
  induction l as [|x l IH]; [constructor|].
  cbn [sorted foldr]. by apply insert_sorted_ascending.
Qed.

Lemma sorted_fixed l : StronglySorted Z.le l → sorted l = l.
Proof.
  induction 1 as [|x l Hl IH Hx]; [done|].
  cbn [sorted foldr]. fold (sorted l). rewrite IH.
  by apply insert_sorted_head.
Qed.

Lemma sorted_idemp l : sorted (sorted l) = sorted l.
Proof. apply sorted_fixed, sorted_ascending. Qed.

Lemma fresh_array_flags h sh dt :
  Forall (λ d, 0 < d) sh →
  let a := fresh_array h sh dt in
  let n := length (filter (λ d, d ≠ 1) sh) in
  c_contiguous a = true ∧
  f_contiguous a = bool_decide (n ≤ 1)%nat ∧
  c_contiguous (transposed a) = bool_decide (n ≤ 1)%nat ∧
  f_contiguous (transposed a) = true.
Proof.
  intros Hpos a n.
  destruct (sorted_descending sh Hpos) as [_ Hs]. cbn zeta in Hs.
  pose proof (non_unit_head sh Hpos) as Hh.
  assert (length (non_unit sh (c_strides sh)) = n) as Hn
    by (apply length_non_unit; by rewrite length_c_strides).
  set (s := non_unit sh (c_strides sh)) in *.
  split_and!.
  - by apply fresh_array_c_contiguous.
  - unfold a, fresh_array.
    rewrite non_unit_strides_eq by (cbn; by rewrite length_c_strides).
    cbn [f_contiguous default from_option id shape strides]. fold s.
    rewrite Hs, <- Hn. by apply reverse_fixed_iff.
  - unfold a. cbn [transposed c_contiguous shape strides fresh_array].
    rewrite non_unit_reverse by (by rewrite length_c_strides). fold s.
    rewrite <- Hs, sorted_idemp, Hs, reverse_involutive.
    rewrite <- Hn, <- (reverse_fixed_iff s Hh).
    apply bool_decide_ext. split; intros E; by symmetry.
  - unfold a. cbn [transposed f_contiguous shape strides fresh_array].
    rewrite non_unit_reverse by (by rewrite length_c_strides). fold s.
    rewrite <- Hs, sorted_idemp. by apply bool_decide_eq_true_2.
Qed.

Lemma transposed_involutive x :
  length (strides x) = length (shape x) →
  let s := non_unit (shape x) (strides x) in
  transposed (transposed x) =
  set_contiguous (bool_decide (reverse (sorted s) = s))
                 (bool_decide (sorted s = s)) x.
Proof.
  intros Hl s. unfold transposed at 1.
  cbn [buffer shape dtype_of strides offset transposed].
  by rewrite !reverse_involutive.
Qed.

Lemma transposed_fresh h sh dt :
  transposed (transposed (fresh_array h sh dt)) = fresh_array h sh dt.
Proof.
  rewrite transposed_involutive by (cbn; by rewrite length_c_strides).
  unfold fresh_array.
  rewrite non_unit_strides_eq by (cbn; by rewrite length_c_strides).
  done.
Qed.

End Flags.

(** X13.  Transposing twice gives back the view: [x.T.T] is a new
    descriptor on the same buffer with the shape, strides and offset of
    [x]; its flags are the ones [update_contiguousness] computes from shape
    and strides, and for a newly constructed array the whole descriptor is
    the one of the array.  Both transposes are new objects; the array is
    unchanged. *)
Theorem X13_transpose_twice {T} `{Float32 T} (w : world T) (self : ref)
    (x : GPUArray) :
  objs w !! self = Some x → length (strides x) = length (shape x) →
  let y := transposed (transposed x) in
  (t <- GPUArray_T self ;; GPUArray_T t) w =
    (Ok (S (length (objs w))), push (push w (transposed x)) y) ∧
  buffer y = buffer x ∧ shape y = shape x ∧ strides y = strides x ∧
  offset y = offset x ∧ dtype_of y = dtype_of x ∧
  (∀ h sh dt, x = fresh_array h sh dt → y = x).
Proof.
  intros Hx Hl y. split_and!.
  - rewrite (bind_ok _ _ _ _ _ (GPUArray_T_run w self x Hx Hl)).
    rewrite (GPUArray_T_run (push w (transposed x)) (length (objs w))
               (transposed x)).
    + unfold push at 1 2; wsimpl. rewrite length_app. cbn [length].
      by rewrite Nat.add_1_r.
    + apply push_lookup.
    + cbn. by rewrite !length_reverse.
  - done.
  - unfold y. cbn [shape transposed]. apply reverse_involutive.
  - unfold y. cbn [strides transposed]. apply reverse_involutive.
  - done.
  - done.
  - intros h sh dt ->. apply transposed_fresh.
Qed.

Lemma X13_transpose_witness :
  (t <- GPUArray_T 0 ;; GPUArray_T t) w_a23 =
  (Ok 2%nat,
   push (push w_a23 (mkGPUArray 0 [3; 2] float32 [1; 3] 0 false true)) x_a23).
Proof.
  exact (proj1 (X13_transpose_twice w_a23 0%nat x_a23 eq_refl eq_refl)).
Defined.

(** X14.  The flags of a newly constructed array of positive dimensions
    are those NumPy reports: it is flagged C-contiguous, and F-contiguous
    exactly when at most one of its dimensions has a size other than 1;
    its transpose is flagged F-contiguous, and C-contiguous under the same
    condition. *)
Theorem X14_flags_of_new_arrays {T} `{Float32 T} (w : world T)
    (sh : list Z) (data : list T) :
  Forall (λ d, 0 < d) sh →
  let n := length (filter (λ d, d ≠ 1) sh) in
  ((x <- GPUArray_from_numpy (mkNdarray sh float32 data) ;;
    t <- GPUArray_T x ;;
    xo <- deref x ;;
    to <- deref t ;;
    ret (c_contiguous xo, f_contiguous xo, c_contiguous to, f_contiguous to))
     w).1 =
  Ok (true, bool_decide (n ≤ 1)%nat, bool_decide (n ≤ 1)%nat, true).
Proof.
  intros Hpos n. pose proof (prod_pos _ Hpos) as Hp.
  unfold GPUArray_from_numpy.
  rewrite (bind_ok _ _ _ _ _ (GPUArray_init_host w sh float32 data Hp)).
  set (a := fresh_array _ _ _). set (w1 := alloc w a data).
  assert (objs w1 !! length (objs w) = Some a) as Ha
    by apply alloc_lookup_new.
  erewrite bind_ok.
  2:{ apply (GPUArray_T_run w1 _ a Ha). cbn. by rewrite length_c_strides. }
  erewrite bind_ok.
  2:{ apply deref_ok. unfold push; wsimpl. by apply lookup_app_l_Some. }
  erewrite bind_ok; [|apply deref_ok, push_lookup].
  destruct (fresh_array_flags (length (bufs w)) sh float32 Hpos)
    as (E1 & E2 & E3 & E4).
  cbn zeta in E1, E2, E3, E4. fold a in E1, E2, E3, E4.
  cbn [ret fst]. by rewrite E1, E2, E3, E4.
Qed.

Lemma X14_flags_witness :
  ((x <- GPUArray_from_numpy (mkNdarray [2; 1; 3] float32 [1; 2; 3; 4; 5; 6]) ;;
    t <- GPUArray_T x ;;
    xo <- deref x ;;
    to <- deref t ;;
    ret (c_contiguous xo, f_contiguous xo, c_contiguous to, f_contiguous to))
     (world0 (T:=Z))).1 =
  Ok (true, false, false, true).
Proof.
  apply (X14_flags_of_new_arrays world0 [2; 1; 3] [1; 2; 3; 4; 5; 6]).
  repeat constructor.
Defined.


(** ** The elementwise dispatchers on strided views *)

Section Elementwise.
Context {T : Type} {F : Float32 T}.
Implicit Types w : world T.

Lemma forallb_pos sh : Forall (λ d, 0 < d) sh → forallb (λ d, 0 <? d) sh = true.
Proof.
  induction 1 as [|d ds Hd _ IH]; [done|]. cbn.
  by rewrite (proj2 (Z.ltb_lt _ _) Hd), IH.
Qed.

Lemma length_grid_item sh (j : nat) gid :
  grid sh !! j = Some gid → length gid = length sh.
Proof.
  intros Hj. apply list_elem_of_lookup_2, grid_in_range in Hj.
  by apply Forall2_length in Hj.
Qed.

Lemma length_interleave3 xs ys zs :
  length ys = length xs → length zs = length xs →
  length (interleave3 xs ys zs) = (3 * length xs)%nat.
Proof.
  revert ys zs. induction xs as [|x xs IH]; intros [|y ys] [|z zs] Hy Hz;
    try done.
  change (interleave3 (x :: xs) (y :: ys) (z :: zs))
    with (x :: y :: z :: interleave3 xs ys zs).
  cbn [length] in *. rewrite (IH ys zs) by lia. lia.
Qed.

(** The run of a unary launch into a new buffer [hd]: the element for the
    [j]-th index vector is [f] of the source element at
    [Σ index × source stride]. *)
Lemma unary_launch w hs hd src d0 sh st (f : T → T) vals :
  bufs w !! hs = Some src → bufs w !! hd = Some d0 → hs ≠ hd →
  sh ≠ [] → (length sh ≤ max_work_item_dimensions)%nat →
  Forall (λ d, 0 < d) sh → length st = length sh →
  length d0 = Z.to_nat (prod sh) →
  mapM (λ idx, rd src (dot idx st)) (grid sh) = Some vals →
  enqueue_nd_range sh
    (unary_kernel (length st) f (interleave2 st (c_strides sh)) hs hd) w =
  (Ok (), with_buffer w hd (f <$> vals)).
Proof.
  intros Hs Hd Hne Hsh Hrank Hpos Hlen Hd0 Hvals.
  pose proof (prod_pos _ Hpos) as Hp.
  unfold enqueue_nd_range. rewrite bool_decide_eq_false_2 by done.
  rewrite bool_decide_eq_false_2
    by (unfold max_work_item_dimensions in *; cbn [length]; lia).
  rewrite forallb_pos by done.
  rewrite <- (with_buffer_id w hd d0 Hd) at 1.
  apply mapM_Some in Hvals.
  pose proof (Forall2_length _ _ _ Hvals) as Hlv.
  rewrite length_grid in Hlv by done.
  rewrite (for_each_fill w hd _ (Z.to_nat (prod sh)) _ (f <$> vals) 0 d0).
  - rewrite length_grid by done. cbn [take app Nat.add].
    rewrite drop_ge by lia. by rewrite app_nil_r.
  - rewrite length_fmap, length_grid by done. lia.
  - done.
  - rewrite length_grid by done. lia.
  - intros j gid v d' Hg Hv Hd'. cbn [Nat.add].
    rewrite list_lookup_fmap in Hv.
    destruct (vals !! j) as [v0|] eqn:Hv0; [|done]. injection Hv as <-.
    pose proof (length_grid_item _ _ _ Hg) as Hlg.
    rewrite Hlen, <- Hlg.
    rewrite unary_kernel_address by (rewrite ?length_c_strides; lia).
    destruct (Forall2_lookup_l _ _ _ _ _ Hvals Hg) as (v1 & Hv1 & Hel).
    rewrite Hv0 in Hv1. injection Hv1 as <-.
    unfold rd in Hel. destruct (dot gid st <? 0) eqn:Hneg; [done|].
    apply Z.ltb_ge in Hneg.
    unfold bind.
    rewrite (load_with_buffer w hs hd src d' _ v0 Hs Hne Hneg Hel).
    rewrite (grid_dot _ _ _ Hpos Hg).
    rewrite store_with_buffer.
    + by rewrite Nat2Z.id.
    + by eapply lookup_lt_Some.
    + apply lookup_lt_Some in Hg. rewrite length_grid in Hg by done. lia.
Qed.

(** The same for a binary launch; the two sources may be one buffer. *)
Lemma binary_launch w ha hb hd srcA srcB d0 sh sa sb (f : T → T → T) va vb :
  bufs w !! ha = Some srcA → bufs w !! hb = Some srcB →
  bufs w !! hd = Some d0 → ha ≠ hd → hb ≠ hd →
  Forall (λ d, 0 < d) sh →
  length sa = length sh → length sb = length sh →
  length d0 = Z.to_nat (prod sh) →
  mapM (λ idx, rd srcA (dot idx sa)) (grid sh) = Some va →
  mapM (λ idx, rd srcB (dot idx sb)) (grid sh) = Some vb →
  for_each (grid sh)
    (binary_kernel (length sa) f (interleave3 sa sb (c_strides sh)) ha hb hd) w =
  (Ok (), with_buffer w hd (zip_with f va vb)).
Proof.
  intros Ha Hb Hd Hna Hnb Hpos Hla Hlb Hd0 Hva Hvb.
  pose proof (prod_pos _ Hpos) as Hp.
  rewrite <- (with_buffer_id w hd d0 Hd) at 1.
  apply mapM_Some in Hva, Hvb.
  pose proof (Forall2_length _ _ _ Hva) as Hlva.
  pose proof (Forall2_length _ _ _ Hvb) as Hlvb.
  rewrite length_grid in Hlva, Hlvb by done.
  rewrite (for_each_fill w hd _ (Z.to_nat (prod sh)) _ (zip_with f va vb) 0 d0).
  - rewrite length_grid by done. cbn [take app Nat.add].
    rewrite drop_ge by lia. by rewrite app_nil_r.
  - rewrite length_zip_with, length_grid by done. lia.
  - done.
  - rewrite length_grid by done. lia.
  - intros j gid v d' Hg Hv Hd'. cbn [Nat.add].
    apply lookup_zip_with_Some in Hv as (x & y & -> & Hx & Hy).
    pose proof (length_grid_item _ _ _ Hg) as Hlg.
    rewrite Hla, <- Hlg.
    rewrite binary_kernel_address by (rewrite ?length_c_strides; lia).
    destruct (Forall2_lookup_l _ _ _ _ _ Hva Hg) as (x' & Hx' & Hela).
    destruct (Forall2_lookup_l _ _ _ _ _ Hvb Hg) as (y' & Hy' & Helb).
    rewrite Hx in Hx'. injection Hx' as <-.
    rewrite Hy in Hy'. injection Hy' as <-.
    unfold rd in Hela, Helb.
    destruct (dot gid sa <? 0) eqn:Hnega; [done|].
    destruct (dot gid sb <? 0) eqn:Hnegb; [done|].
    apply Z.ltb_ge in Hnega, Hnegb.
    unfold bind.
    rewrite (load_with_buffer w ha hd srcA d' _ x Ha Hna Hnega Hela).
    rewrite (load_with_buffer w hb hd srcB d' _ y Hb Hnb Hnegb Helb).
    rewrite (grid_dot _ _ _ Hpos Hg).
    rewrite store_with_buffer.
    + by rewrite Nat2Z.id.
    + by eapply lookup_lt_Some.
    + apply lookup_lt_Some in Hg. rewrite length_grid in Hg by done. lia.
Qed.

Lemma unary_table name (f : T → T) w :
  (name, f) ∈ [("neg", f_neg); ("log", f_log); ("exp", f_exp)] →
  ∃ expr, dict_get unary_mapping name w = (Ok expr, w) ∧
          unary_expr expr = Some f.
Proof.
  intros Hin. apply list_elem_of_In in Hin. cbn in Hin.
  destruct Hin as [[= <- <-]|[[= <- <-]|[[= <- <-]|[]]]]; eexists;
    split; reflexivity.
Qed.

Lemma binary_table name (f : T → T → T) w :
  (name, f) ∈ [("add", f_add); ("sub", f_sub); ("truediv", f_div);
               ("mul", f_mul)] →
  ∃ expr, dict_get binary_mapping name w = (Ok expr, w) ∧
          binary_expr expr = Some f.
Proof.
  intros Hin. apply list_elem_of_In in Hin. cbn in Hin.
  destruct Hin as [[= <- <-]|[[= <- <-]|[[= <- <-]|[[= <- <-]|[]]]]];
    eexists; split; reflexivity.
Qed.

Lemma unary_op_run w a ao src vals name f :
  objs w !! a = Some ao → bufs w !! buffer ao = Some src →
  shape ao ≠ [] → (length (shape ao) ≤ max_work_item_dimensions)%nat →
  Forall (λ d, 0 < d) (shape ao) →
  length (strides ao) = length (shape ao) →
  logical src (set_offset 0 ao) = Some vals →
  (name, f) ∈ [("neg", f_neg); ("log", f_log); ("exp", f_exp)] →
  ∃ c b,
    unary_op name a None w =
    (Ok (length (objs w)),
     mkWorld (objs w ++ [fresh_array (length (bufs w)) (shape ao) (dtype_of ao)])
             (bufs w ++ [f <$> vals]) c b).
Proof.
  intros Hx Hsrc Hsh Hrank Hpos Hlen Hvals Hname.
  pose proof (prod_pos _ Hpos) as Hp.
  unfold unary_op.
  rewrite (bind_ok _ _ _ _ _ (deref_ok _ _ _ Hx)).
  rewrite (bind_ok _ _ _ _ _ (GPUArray_init_nodata w _ _ Hp)).
  set (fx := fresh_array _ _ _). set (d0 := replicate _ _).
  set (w1 := alloc w fx d0).
  destruct (unary_table name f w1 Hname) as (expr & Hget & Hexpr).
  rewrite (bind_ok _ _ _ _ _ Hget), Hexpr.
  destruct (cl_build_ok "unary_op" (unary_op_src expr (length (strides ao))) w1)
    as (k & c & b & Hb).
  rewrite (bind_ok _ _ _ _ _ Hb).
  set (w2 := mkWorld _ _ c b).
  assert (objs w2 !! length (objs w) = Some fx) as Hr
    by (unfold w2, w1, alloc; wsimpl; by rewrite lookup_app_r, Nat.sub_diag).
  rewrite (bind_ok _ _ _ _ _ (deref_ok _ _ _ Hr)).
  unfold check_args.
  rewrite length_interleave2
    by (cbn [strides fx fresh_array]; by rewrite length_c_strides).
  rewrite bool_decide_eq_true_2 by done.
  unfold bind at 1. cbn [ret].
  erewrite bind_ok.
  2:{ apply (unary_launch w2 (buffer ao) (length (bufs w)) src d0
               (shape ao) (strides ao) f vals); try done.
      - unfold w2, w1, alloc; wsimpl. by apply lookup_app_l_Some.
      - unfold w2, w1, alloc; wsimpl. by rewrite lookup_app_r, Nat.sub_diag.
      - apply lookup_lt_Some in Hsrc. lia.
      - unfold d0. by rewrite length_replicate. }
  exists c, b. cbn [ret]. f_equal.
  unfold with_buffer, w2, w1, alloc, set_bufs; wsimpl. f_equal.
  rewrite insert_app_r_alt, Nat.sub_diag by lia. done.
Qed.

(** A view of more dimensions than the device has work dimensions: the
    kernel is built and the launch rejected. *)
Lemma unary_op_rank_above w a ao name f :
  objs w !! a = Some ao → 0 < prod (shape ao) →
  length (strides ao) = length (shape ao) →
  (max_work_item_dimensions < length (shape ao))%nat →
  (name, f) ∈ [("neg", f_neg); ("log", f_log); ("exp", f_exp)] →
  (unary_op name a None w).1 = Raise (CLError "INVALID_WORK_DIMENSION").
Proof.
  intros Hx Hp Hlen Hrank Hname.
  unfold unary_op.
  rewrite (bind_ok _ _ _ _ _ (deref_ok _ _ _ Hx)).
  rewrite (bind_ok _ _ _ _ _ (GPUArray_init_nodata w _ _ Hp)).
  set (fx := fresh_array _ _ _). set (d0 := replicate _ _).
  set (w1 := alloc w fx d0).
  destruct (unary_table name f w1 Hname) as (expr & Hget & Hexpr).
  rewrite (bind_ok _ _ _ _ _ Hget), Hexpr.
  destruct (cl_build_ok "unary_op" (unary_op_src expr (length (strides ao))) w1)
    as (k & c & b & Hb).
  rewrite (bind_ok _ _ _ _ _ Hb).
  set (w2 := mkWorld _ _ c b).
  assert (objs w2 !! length (objs w) = Some fx) as Hr
    by (unfold w2, w1, alloc; wsimpl; by rewrite lookup_app_r, Nat.sub_diag).
  rewrite (bind_ok _ _ _ _ _ (deref_ok _ _ _ Hr)).
  unfold check_args.
  rewrite length_interleave2
    by (cbn [strides fx fresh_array]; by rewrite length_c_strides).
  rewrite bool_decide_eq_true_2 by done.
  unfold bind at 1. cbn [ret].
  erewrite bind_raise; [done|].
  unfold enqueue_nd_range.
  rewrite bool_decide_eq_false_2
    by (intros E; rewrite E in Hrank; cbn in Hrank; lia).
  by rewrite bool_decide_eq_true_2.
Qed.

(** [binary_op] once [broadcast] has returned two views of one shape. *)
Lemma binary_op_after_broadcast w w' a b a' b' ao bo srcA srcB va vb name f :
  broadcast a b w = (Ok (a', b'), w') →
  objs w' !! a' = Some ao → objs w' !! b' = Some bo →
  bufs w' !! buffer ao = Some srcA → bufs w' !! buffer bo = Some srcB →
  shape ao = shape bo → shape ao ≠ [] →
  (length (shape ao) ≤ max_work_item_dimensions)%nat →
  Forall (λ d, 0 < d) (shape ao) →
  length (strides ao) = length (shape ao) →
  length (strides bo) = length (shape ao) →
  logical srcA (set_offset 0 ao) = Some va →
  logical srcB (set_offset 0 bo) = Some vb →
  (name, f) ∈ [("add", f_add); ("sub", f_sub); ("truediv", f_div);
               ("mul", f_mul)] →
  ∃ c k,
    binary_op name a b None w =
    (Ok (length (objs w')),
     mkWorld (objs w' ++ [fresh_array (length (bufs w')) (shape ao) (dtype_of ao)])
             (bufs w' ++ [zip_with f va vb]) c k).
Proof.
  intros Hbr Ha Hb HsA HsB Heq Hsh Hrank Hpos Hla Hlb Hva Hvb Hname.
  pose proof (prod_pos _ Hpos) as Hp.
  unfold binary_op.
  rewrite (bind_ok _ _ _ _ _ Hbr). cbn [fst snd].
  rewrite (bind_ok _ _ _ _ _ (deref_ok _ _ _ Ha)).
  rewrite (bind_ok _ _ _ _ _ (deref_ok _ _ _ Hb)).
  rewrite (bind_ok _ _ _ _ _ (GPUArray_init_nodata w' _ _ Hp)).
  set (fx := fresh_array _ _ _). set (d0 := replicate _ _).
  set (w1 := alloc w' fx d0).
  destruct (binary_table name f w1 Hname) as (expr & Hget & Hexpr).
  rewrite (bind_ok _ _ _ _ _ Hget), Hexpr.
  destruct (cl_build_ok "binary_op" (binary_op_src expr (length (strides ao))) w1)
    as (k & c & b0 & Hbuild).
  rewrite (bind_ok _ _ _ _ _ Hbuild).
  set (w2 := mkWorld _ _ c b0).
  assert (objs w2 !! length (objs w') = Some fx) as Hr
    by (unfold w2, w1, alloc; wsimpl; by rewrite lookup_app_r, Nat.sub_diag).
  rewrite (bind_ok _ _ _ _ _ (deref_ok _ _ _ Hr)).
  unfold check_args.
  rewrite length_interleave3
    by (cbn [strides fx fresh_array]; rewrite ?length_c_strides; lia).
  rewrite bool_decide_eq_true_2 by done.
  unfold bind at 1. cbn [ret].
  rewrite bool_decide_eq_false_2 by done.
  unfold enqueue_nd_range. rewrite bool_decide_eq_false_2 by done.
  rewrite bool_decide_eq_false_2
    by (unfold max_work_item_dimensions in *; cbn [length]; lia).
  rewrite forallb_pos by done.
  erewrite bind_ok.
  2:{ apply (binary_launch w2 (buffer ao) (buffer bo) (length (bufs w'))
               srcA srcB d0 (shape ao) (strides ao) (strides bo) f va vb);
        try done.
      - unfold w2, w1, alloc; wsimpl. by apply lookup_app_l_Some.
      - unfold w2, w1, alloc; wsimpl. by apply lookup_app_l_Some.
      - unfold w2, w1, alloc; wsimpl. by rewrite lookup_app_r, Nat.sub_diag.
      - apply lookup_lt_Some in HsA. lia.
      - apply lookup_lt_Some in HsB. lia.
      - unfold d0. by rewrite length_replicate.
      - rewrite Heq. exact Hvb. }
  exists c, b0. cbn [ret]. f_equal.
  unfold with_buffer, w2, w1, alloc, set_bufs; wsimpl. f_equal.
  rewrite insert_app_r_alt, Nat.sub_diag by lia. done.
Qed.

Lemma broadcast_same_shape w a b ao bo :
  objs w !! a = Some ao → objs w !! b = Some bo → shape ao = shape bo →
  broadcast a b w = (Ok (a, b), w).
Proof.
  intros Ha Hb Heq. unfold broadcast.
  rewrite (bind_ok _ _ _ _ _ (deref_ok _ _ _ Ha)).
  rewrite (bind_ok _ _ _ _ _ (deref_ok _ _ _ Hb)).
  by rewrite bool_decide_eq_true_2.
Qed.

(** The run of [expand] on a target it accepts. *)
Lemma GPUArray_expand_run w self x target :
  objs w !! self = Some x → length (strides x) = length (shape x) →
  length target = length (shape x) → expandable (shape x) target = true →
  GPUArray_expand self target w =
  (Ok (length (objs w)), push w (expanded x target)).
Proof.
  intros Hx Hst Hlen Hex. unfold GPUArray_expand.
  rewrite (bind_ok _ _ _ _ _ (copy_copy_ok _ _ _ Hx)).
  rewrite (bind_ok _ _ _ _ _ (deref_push w x)).
  rewrite bool_decide_eq_true_2 by done.
  unfold bind at 1. rewrite py_assert_true.
  unfold bind at 1. rewrite expand_loop_spec.
  2:{ rewrite length_zip, drop_0. lia. }
  unfold expandable in Hex. rewrite Hex, drop_0, app_nil_l.
  unfold bind at 1. rewrite assign_push.
  unfold bind at 1. rewrite assign_push. done.
Qed.

Lemma broadcast_check_run pairs w :
  broadcast_check pairs w =
  if forallb (λ p : Z * Z, (p.1 =? p.2) || (p.1 =? 1) || (p.2 =? 1)) pairs
  then (Ok (), w)
  else (Raise (ValueError "Error broadcasting for {a.shape} and {b.shape}"), w).
Proof.
  induction pairs as [|[i j] pairs IH]; [done|].
  cbn [broadcast_check forallb fst snd].
  destruct (i =? j), (i =? 1), (j =? 1); cbn [negb andb orb]; done || exact IH.
Qed.

(** Among positive sizes, compatible pairs can be expanded to their
    maximum. *)
Lemma expandable_to_max sa : ∀ sb,
  Forall (λ d, 0 < d) sa → Forall (λ d, 0 < d) sb →
  forallb (λ p : Z * Z, (p.1 =? p.2) || (p.1 =? 1) || (p.2 =? 1)) (zip sa sb)
    = true →
  expandable sa (zip_with Z.max sa sb) = true ∧
  expandable sb (zip_with Z.max sa sb) = true.
Proof.
  unfold expandable.
  induction sa as [|s sa IH]; intros [|t sb] Ha Hb Hc; try done.
  inversion Ha as [|? ? Hs Ha']; inversion Hb as [|? ? Ht Hb']; subst.
  cbn [zip zip_with forallb fst snd] in *.
  apply andb_true_iff in Hc as [Hc Hc'].
  destruct (IH sb Ha' Hb' Hc') as [IH1 IH2]. rewrite IH1, IH2.
  split; apply andb_true_iff; split; try done.
  - destruct (s <? Z.max s t) eqn:E; [cbn|done]. apply Z.ltb_lt in E.
    apply Z.eqb_eq. apply orb_true_iff in Hc as [Hc|Hc]; [|apply Z.eqb_eq in Hc; lia].
    apply orb_true_iff in Hc as [Hc|Hc]; apply Z.eqb_eq in Hc; lia.
  - destruct (t <? Z.max s t) eqn:E; [cbn|done]. apply Z.ltb_lt in E.
    apply Z.eqb_eq. apply orb_true_iff in Hc as [Hc|Hc]; [|apply Z.eqb_eq in Hc; lia].
    apply orb_true_iff in Hc as [Hc|Hc]; apply Z.eqb_eq in Hc; lia.
Qed.

(** The run of [broadcast] on two views of one rank and different
    shapes. *)
Lemma broadcast_same_rank_run w a b ao bo :
  objs w !! a = Some ao → objs w !! b = Some bo →
  shape ao ≠ shape bo → length (shape ao) = length (shape bo) →
  length (strides ao) = length (shape ao) →
  length (strides bo) = length (shape bo) →
  Forall (λ d, 0 < d) (shape ao) → Forall (λ d, 0 < d) (shape bo) →
  let bs := zip_with Z.max (shape ao) (shape bo) in
  broadcast a b w =
  if forallb (λ p : Z * Z, (p.1 =? p.2) || (p.1 =? 1) || (p.2 =? 1))
             (zip (shape ao) (shape bo))
  then (Ok (length (objs w), S (length (objs w))),
        push (push w (expanded ao bs)) (expanded bo bs))
  else (Raise (ValueError "Error broadcasting for {a.shape} and {b.shape}"), w).
Proof.
  intros Ha Hb Hne Hrank Hla Hlb Hpa Hpb bs. unfold broadcast.
  rewrite (bind_ok _ _ _ _ _ (deref_ok _ _ _ Ha)).
  rewrite (bind_ok _ _ _ _ _ (deref_ok _ _ _ Hb)).
  rewrite bool_decide_eq_false_2 by done.
  unfold bind at 1. rewrite broadcast_check_run.
  destruct (forallb _ _) eqn:Hc; [|done].
  rewrite <- Hrank, Nat.max_id, Nat.eqb_refl. cbn [negb].
  erewrite bind_ok; [|reflexivity]. erewrite bind_ok; [|reflexivity].
  rewrite (bind_ok _ _ _ _ _ (deref_ok _ _ _ Ha)).
  rewrite (bind_ok _ _ _ _ _ (deref_ok _ _ _ Hb)).
  unfold tuple_ne_list. fold bs.
  destruct (expandable_to_max _ _ Hpa Hpb Hc) as [Ea Eb]. fold bs in Ea, Eb.
  assert (length bs = length (shape ao)) as Hlbs
    by (unfold bs; rewrite length_zip_with; lia).
  rewrite (bind_ok _ _ _ _ _ (GPUArray_expand_run w a ao bs Ha Hla Hlbs Ea)).
  assert (objs (push w (expanded ao bs)) !! b = Some bo) as Hb'
    by (unfold push; wsimpl; by apply lookup_app_l_Some).
  rewrite (bind_ok _ _ _ _ _ (deref_ok _ _ _ Hb')).
  assert (length bs = length (shape bo)) as Hlbs' by lia.
  rewrite (bind_ok _ _ _ _ _ (GPUArray_expand_run _ b bo bs Hb' Hlb Hlbs' Eb)).
  unfold ret.
  replace (length (objs (push w (expanded ao bs)))) with (S (length (objs w)));
    [done|].
  unfold push; wsimpl. rewrite length_app. cbn. lia.
Qed.

(** An expanded view reads the view it was made from at the index with 0
    in every grown dimension. *)
Lemma dot_expanded sh : ∀ target st idx,
  length target = length sh → length st = length sh → length idx = length sh →
  dot idx (expanded_strides sh target st) = dot (broadcast_index sh target idx) st.
Proof.
  unfold expanded_strides, broadcast_index.
  induction sh as [|s sh IH]; intros [|t target] [|u st] [|i idx] H1 H2 H3;
    try done.
  cbn [zip zip_with fst snd]. rewrite !dot_cons.
  rewrite IH by (cbn in *; lia). destruct (s <? t); lia.
Qed.

Lemma element_at_expanded (src : list T) x target idx :
  length target = length (shape x) → length (strides x) = length (shape x) →
  length idx = length (shape x) →
  element_at src (expanded x target) idx =
  element_at src x (broadcast_index (shape x) target idx).
Proof.
  intros H1 H2 H3. unfold element_at. cbn [offset strides expanded].
  by rewrite dot_expanded.
Qed.

End Elementwise.

(** X15.  [unary_op] with [neg], [log] or [exp] on a view of positive
    dimensions.  The shape of the view is the ND-range of the launch, so
    the rank must be one the device accepts.  For rank 1, 2 or 3 and
    addresses inside the buffer the call returns a new C-contiguous array
    of the same shape; its buffer holds, in row-major order of the indices,
    the function applied to the buffer element at [Σ index × stride] (the
    elements of the view when its offset is 0), and the operand and every
    other array are unchanged.  For rank 4 and above the launch is rejected
    with [INVALID_WORK_DIMENSION]. *)
Theorem X15_unary_op_maps_the_view {T} `{Float32 T} (w : world T) (a : ref)
    (ao : GPUArray) (src : list T) (name : string) (f : T → T) :
  objs w !! a = Some ao → bufs w !! buffer ao = Some src →
  shape ao ≠ [] → Forall (λ d, 0 < d) (shape ao) →
  length (strides ao) = length (shape ao) →
  (name, f) ∈ [("neg", f_neg); ("log", f_log); ("exp", f_exp)] →
  (∀ vals,
     (length (shape ao) ≤ max_work_item_dimensions)%nat →
     logical src (set_offset 0 ao) = Some vals →
     ∃ c b,
       unary_op name a None w =
       (Ok (length (objs w)),
        mkWorld (objs w ++ [fresh_array (length (bufs w)) (shape ao)
                                        (dtype_of ao)])
                (bufs w ++ [f <$> vals]) c b)) ∧
  ((max_work_item_dimensions < length (shape ao))%nat →
   (unary_op name a None w).1 = Raise (CLError "INVALID_WORK_DIMENSION")).
Proof.
  intros Hx Hsrc Hsh Hpos Hlen Hname. split.
  - intros vals Hrank Hvals. by eapply unary_op_run.
  - intros Hrank. eapply unary_op_rank_above; try done. by apply prod_pos.
Qed.

Lemma X15_unary_op_witness :
  (∃ c b,
     unary_op "neg" 0 None w_a23 =
     (Ok 1%nat,
      mkWorld (objs w_a23 ++ [fresh_array 1 [2; 3] float32])
              (bufs w_a23 ++ [[-1; -2; -3; -4; -5; -6]]) c b)) ∧
  (unary_op "neg" 0 None (w_arange [1; 2; 3; 1])).1 =
    Raise (CLError "INVALID_WORK_DIMENSION").
Proof.
  split.
  - refine (proj1 (X15_unary_op_maps_the_view w_a23 0%nat x_a23
                     [1; 2; 3; 4; 5; 6] "neg" f_neg eq_refl eq_refl _ _
                     eq_refl _) [1; 2; 3; 4; 5; 6] _ eq_refl).
    + discriminate.
    + repeat constructor.
    + repeat constructor.
    + unfold max_work_item_dimensions. cbn. lia.
  - refine (proj2 (X15_unary_op_maps_the_view (w_arange [1; 2; 3; 1]) 0%nat
                     (fresh_array 0 [1; 2; 3; 1] float32)
                     [0; 1; 2; 3; 4; 5] "neg" f_neg eq_refl eq_refl _ _
                     eq_refl _) _).
    + discriminate.
    + repeat constructor.
    + repeat constructor.
    + unfold max_work_item_dimensions. cbn. lia.
Defined.

(** X16.  [binary_op] with [add], [sub], [truediv] or [mul] on two views
    of one shape (rank 1, 2 or 3, as many dimensions as the device has
    work dimensions; addresses inside the buffers) returns a
    new C-contiguous array of that shape whose buffer holds the function
    applied to the pairs of elements the two views address, in row-major
    order; no view is created and the operands are unchanged. *)
Theorem X16_binary_op_on_one_shape {T} `{Float32 T} (w : world T)
    (a b : ref) (ao bo : GPUArray) (srcA srcB va vb : list T)
    (name : string) (f : T → T → T) :
  objs w !! a = Some ao → objs w !! b = Some bo →
  bufs w !! buffer ao = Some srcA → bufs w !! buffer bo = Some srcB →
  shape ao = shape bo → shape ao ≠ [] →
  (length (shape ao) ≤ max_work_item_dimensions)%nat →
  Forall (λ d, 0 < d) (shape ao) →
  length (strides ao) = length (shape ao) →
  length (strides bo) = length (shape ao) →
  logical srcA (set_offset 0 ao) = Some va →
  logical srcB (set_offset 0 bo) = Some vb →
  (name, f) ∈ [("add", f_add); ("sub", f_sub); ("truediv", f_div);
               ("mul", f_mul)] →
  ∃ c k,
    binary_op name a b None w =
    (Ok (length (objs w)),
     mkWorld (objs w ++ [fresh_array (length (bufs w)) (shape ao) (dtype_of ao)])
             (bufs w ++ [zip_with f va vb]) c k).
Proof.
  intros Ha Hb. intros.
  eapply (binary_op_after_broadcast w w a b a b); try done.
  by eapply broadcast_same_shape.
Qed.

Lemma X16_binary_op_witness :
  ∃ c k,
    binary_op "mul" 0 0 None w_a23 =
    (Ok 1%nat,
     mkWorld (objs w_a23 ++ [fresh_array 1 [2; 3] float32])
             (bufs w_a23 ++ [[1; 4; 9; 16; 25; 36]]) c k).
Proof.
  refine (X16_binary_op_on_one_shape w_a23 0%nat 0%nat x_a23 x_a23
            [1; 2; 3; 4; 5; 6] [1; 2; 3; 4; 5; 6]
            [1; 2; 3; 4; 5; 6] [1; 2; 3; 4; 5; 6] "mul" f_mul
            eq_refl eq_refl eq_refl eq_refl eq_refl _ _ _ eq_refl eq_refl
            eq_refl eq_refl _).
  - discriminate.
  - unfold max_work_item_dimensions. cbn. lia.
  - repeat constructor.
  - repeat constructor.
Defined.

(** X17.  [broadcast] of two views of one rank, positive dimensions and
    different shapes: when every pair of sizes is equal or contains a 1 it
    returns two new views of shape [max] of the two, each on the buffer of
    its operand, with stride 0 in every grown dimension (both operands are
    expanded, also one that has the target shape already); otherwise it
    raises [ValueError] and changes nothing.  An element of an expanded
    view is the element of the operand at the index with 0 in every grown
    dimension. *)
Theorem X17_broadcast_of_one_rank {T} `{Float32 T} (w : world T) (a b : ref)
    (ao bo : GPUArray) :
  objs w !! a = Some ao → objs w !! b = Some bo →
  shape ao ≠ shape bo → length (shape ao) = length (shape bo) →
  length (strides ao) = length (shape ao) →
  length (strides bo) = length (shape bo) →
  Forall (λ d, 0 < d) (shape ao) → Forall (λ d, 0 < d) (shape bo) →
  let bs := zip_with Z.max (shape ao) (shape bo) in
  broadcast a b w =
    (if forallb (λ p : Z * Z, (p.1 =? p.2) || (p.1 =? 1) || (p.2 =? 1))
                (zip (shape ao) (shape bo))
     then (Ok (length (objs w), S (length (objs w))),
           push (push w (expanded ao bs)) (expanded bo bs))
     else (Raise (ValueError "Error broadcasting for {a.shape} and {b.shape}"),
           w)) ∧
  ∀ (src : list T) idx, length idx = length bs →
    element_at src (expanded ao bs) idx =
      element_at src ao (broadcast_index (shape ao) bs idx) ∧
    element_at src (expanded bo bs) idx =
      element_at src bo (broadcast_index (shape bo) bs idx).
Proof.
  intros Ha Hb Hne Hrank Hla Hlb Hpa Hpb bs. split.
  - by apply broadcast_same_rank_run.
  - intros src idx Hidx.
    assert (length bs = length (shape ao)) as Hlbs
      by (unfold bs; rewrite length_zip_with; lia).
    split; apply element_at_expanded; lia.
Qed.

Lemma X17_broadcast_witness :
  broadcast 0 1 (w_arange2 [3; 1] [1; 3]) =
  (Ok (2%nat, 3%nat),
   push (push (w_arange2 [3; 1] [1; 3])
              (mkGPUArray 0 [3; 3] float32 [1; 0] 0 false false))
        (mkGPUArray 1 [3; 3] float32 [0; 1] 0 false false)).
Proof.
  refine (proj1 (X17_broadcast_of_one_rank (w_arange2 [3; 1] [1; 3]) 0%nat 1%nat
                   _ _ eq_refl eq_refl _ eq_refl eq_refl eq_refl _ _)).
  - discriminate.
  - repeat constructor.
  - repeat constructor.
Defined.

(** X18.  [binary_op] on two views of one rank (1, 2 or 3, as many
    dimensions as the device has work dimensions) and different, compatible
    shapes computes on the two expanded views: it returns a new
    C-contiguous array of the broadcast shape whose buffer holds the
    function applied to the pairs of elements the expanded views address,
    in row-major order, and leaves the two expanded views behind as new
    objects. *)
Theorem X18_binary_op_broadcasts {T} `{Float32 T} (w : world T) (a b : ref)
    (ao bo : GPUArray) (srcA srcB va vb : list T) (name : string)
    (f : T → T → T) :
  objs w !! a = Some ao → objs w !! b = Some bo →
  bufs w !! buffer ao = Some srcA → bufs w !! buffer bo = Some srcB →
  shape ao ≠ shape bo → length (shape ao) = length (shape bo) →
  (length (shape ao) ≤ max_work_item_dimensions)%nat →
  length (strides ao) = length (shape ao) →
  length (strides bo) = length (shape bo) →
  Forall (λ d, 0 < d) (shape ao) → Forall (λ d, 0 < d) (shape bo) →
  forallb (λ p : Z * Z, (p.1 =? p.2) || (p.1 =? 1) || (p.2 =? 1))
          (zip (shape ao) (shape bo)) = true →
  let bs := zip_with Z.max (shape ao) (shape bo) in
  logical srcA (set_offset 0 (expanded ao bs)) = Some va →
  logical srcB (set_offset 0 (expanded bo bs)) = Some vb →
  (name, f) ∈ [("add", f_add); ("sub", f_sub); ("truediv", f_div);
               ("mul", f_mul)] →
  ∃ c k,
    binary_op name a b None w =
    (Ok (S (S (length (objs w)))),
     mkWorld (objs w ++ [expanded ao bs; expanded bo bs;
                         fresh_array (length (bufs w)) bs (dtype_of ao)])
             (bufs w ++ [zip_with f va vb]) c k).
Proof.
  intros Ha Hb HsA HsB Hne Hrank Hdims Hla Hlb Hpa Hpb Hc bs Hva Hvb Hname.
  pose proof (broadcast_same_rank_run w a b ao bo Ha Hb Hne Hrank Hla Hlb
                Hpa Hpb) as Hbr.
  cbn zeta in Hbr. rewrite Hc in Hbr. fold bs in Hbr.
  set (w' := push (push w (expanded ao bs)) (expanded bo bs)) in *.
  assert (length bs = length (shape ao)) as Hlbs
    by (unfold bs; rewrite length_zip_with; lia).
  assert (Forall (λ d, 0 < d) bs) as Hpbs.
  { unfold bs. clear -Hpa Hpb. revert Hpb. generalize (shape bo).
    induction Hpa as [|s sa Hs _ IH]; intros [|t sb] Hpb; cbn; [done..|].
    inversion Hpb; subst. constructor; [lia|by apply IH]. }
  assert (objs w' !! length (objs w) = Some (expanded ao bs)) as Ha'.
  { unfold w', push; wsimpl. rewrite <- app_assoc.
    by rewrite lookup_app_r, Nat.sub_diag. }
  assert (objs w' !! S (length (objs w)) = Some (expanded bo bs)) as Hb'.
  { unfold w', push; wsimpl.
    rewrite lookup_app_r by (rewrite length_app; cbn; lia).
    rewrite length_app. cbn [length].
    by replace (S (length (objs w)) - (length (objs w) + 1))%nat
      with 0%nat by lia. }
  assert (shape (expanded ao bs) ≠ []) as Hnil.
  { intros E. cbn [shape expanded] in E. rewrite E in Hlbs.
    destruct (shape ao); [|done]. destruct (shape bo); [|done]. done. }
  assert (length (strides (expanded ao bs)) = length (shape (expanded ao bs)))
    as Hla'.
  { cbn [strides shape expanded]. unfold expanded_strides.
    rewrite length_zip_with, length_zip. lia. }
  assert (length (strides (expanded bo bs)) = length (shape (expanded ao bs)))
    as Hlb'.
  { cbn [strides shape expanded]. unfold expanded_strides.
    rewrite length_zip_with, length_zip. lia. }
  assert (length (shape (expanded ao bs)) ≤ max_work_item_dimensions)%nat
    as Hdims' by (cbn [shape expanded]; lia).
  destruct (binary_op_after_broadcast w w' a b _ _ (expanded ao bs)
              (expanded bo bs) srcA srcB va vb name f Hbr Ha' Hb' HsA HsB
              eq_refl Hnil Hdims' Hpbs Hla' Hlb' Hva Hvb Hname)
    as (c & k & Hrun).
  exists c, k. rewrite Hrun. unfold w', push; wsimpl.
  rewrite !length_app. cbn [length shape expanded dtype_of].
  rewrite <- !app_assoc. cbn [app].
  by replace (length (objs w) + 1 + 1)%nat with (S (S (length (objs w)))) by lia.
Qed.

Lemma X18_binary_broadcast_witness :
  ∃ c k,
    binary_op "add" 0 1 None (w_arange2 [3; 1] [1; 3]) =
    (Ok 4%nat,
     mkWorld (objs (w_arange2 [3; 1] [1; 3]) ++
              [mkGPUArray 0 [3; 3] float32 [1; 0] 0 false false;
               mkGPUArray 1 [3; 3] float32 [0; 1] 0 false false;
               fresh_array 2 [3; 3] float32])
             (bufs (w_arange2 [3; 1] [1; 3]) ++ [[0; 1; 2; 1; 2; 3; 2; 3; 4]])
             c k).
Proof.
  refine (X18_binary_op_broadcasts (w_arange2 [3; 1] [1; 3]) 0%nat 1%nat _ _
            [0; 1; 2] [0; 1; 2] [0; 0; 0; 1; 1; 1; 2; 2; 2]
            [0; 1; 2; 0; 1; 2; 0; 1; 2] "add" f_add
            eq_refl eq_refl eq_refl eq_refl _ eq_refl _ eq_refl eq_refl _ _
            eq_refl eq_refl eq_refl _).
  - discriminate.
  - unfold max_work_item_dimensions. cbn. lia.
  - repeat constructor.
  - repeat constructor.
  - repeat constructor.
Defined.


(** ** In-place arithmetic *)

Section InPlace.
Context {T : Type} {F : Float32 T}.
Implicit Types w : world T.

(** A launch whose [j]-th work-item replaces the element at position
    [k + j] of the buffer [hd] by a function of that element. *)
Lemma for_each_update {A} w hd (item : A → M T unit) :
  ∀ (gids : list A) (gs : list (T → T)) (k : nat) (d : list T),
  length gs = length gids → (k + length gids ≤ length d)%nat →
  (∀ j gid g d' v, gids !! j = Some gid → gs !! j = Some g →
     length d' = length d → d' !! (k + j)%nat = Some v →
     item gid (with_buffer w hd d') =
     (Ok (), with_buffer w hd (<[(k + j)%nat := g v]> d'))) →
  for_each gids item (with_buffer w hd d) =
  (Ok (), with_buffer w hd
            (take k d ++ zip_with (λ g v, g v) gs (take (length gids) (drop k d))
                    ++ drop (k + length gids) d)).
Proof.
  induction gids as [|gid gids IH]; intros gs k d Hlen Hk Hitem.
  - destruct gs; [|done]. cbn. rewrite Nat.add_0_r, take_drop. done.
  - destruct gs as [|g gs]; [done|]. cbn [for_each length] in *.
    destruct (lookup_lt_is_Some_2 d k ltac:(lia)) as [v Hv].
    unfold bind. rewrite (Hitem 0%nat gid g d v) by (rewrite ?Nat.add_0_r; done).
    rewrite Nat.add_0_r.
    rewrite (IH gs (S k)).
    + do 2 f_equal.
      rewrite (take_S_r _ _ (g v))
        by (apply list_lookup_insert_eq; by eapply lookup_lt_Some).
      rewrite take_insert_ge by lia.
      rewrite !drop_insert_lt by lia.
      rewrite (drop_S _ _ _ Hv). cbn [take zip_with].
      rewrite <- app_assoc. cbn [app]. by rewrite Nat.add_succ_r.
    + lia.
    + rewrite length_insert. lia.
    + intros j gid' g' d' v' Hg Hgs Hd' Hv'.
      rewrite length_insert in Hd'.
      replace (S k + j)%nat with (k + S j)%nat in * by lia.
      by apply Hitem.
Qed.

Lemma load_same_buffer w hd d a v :
  (hd < length (bufs w))%nat → 0 ≤ a → d !! Z.to_nat a = Some v →
  load hd a (with_buffer w hd d) = (Ok v, with_buffer w hd d).
Proof.
  intros Hh Ha Hv. unfold load, read_buffer, bind, with_buffer; wsimpl.
  rewrite list_lookup_insert_eq by done.
  rewrite (proj2 (Z.ltb_ge _ _)) by done. by rewrite Hv.
Qed.

(** The in-place launch on a dense destination. *)
Lemma binary_launch_inplace w ha hb srcA srcB sh sb (f : T → T → T) vb :
  bufs w !! ha = Some srcA → bufs w !! hb = Some srcB → hb ≠ ha →
  Forall (λ d, 0 < d) sh → length sb = length sh →
  length srcA = Z.to_nat (prod sh) →
  mapM (λ idx, rd srcB (dot idx sb)) (grid sh) = Some vb →
  for_each (grid sh)
    (binary_kernel (length sh) f
       (interleave3 (c_strides sh) sb (c_strides sh)) ha hb ha) w =
  (Ok (), with_buffer w ha (zip_with f srcA vb)).
Proof.
  intros Ha Hb Hne Hpos Hlb HlA Hvb.
  pose proof (prod_pos _ Hpos) as Hp.
  rewrite <- (with_buffer_id w ha srcA Ha) at 1.
  apply mapM_Some in Hvb.
  pose proof (Forall2_length _ _ _ Hvb) as Hlvb.
  rewrite length_grid in Hlvb by done.
  rewrite (for_each_update w ha _ _ ((λ y x, f x y) <$> vb) 0 srcA).
  - rewrite length_grid by done. cbn [Nat.add].
    rewrite take_0, drop_0. rewrite drop_ge, app_nil_r by lia.
    rewrite take_ge by lia. cbn [app].
    do 2 f_equal. clear. revert srcA.
    induction vb as [|y vb IH]; intros [|x srcA]; cbn; try done.
    by rewrite IH.
  - rewrite length_fmap, length_grid by done. lia.
  - rewrite length_grid by done. lia.
  - intros j gid g d' v Hg Hgs Hd' Hv. cbn [Nat.add] in *.
    rewrite list_lookup_fmap in Hgs.
    destruct (vb !! j) as [y|] eqn:Hy; [|done]. injection Hgs as <-.
    pose proof (length_grid_item _ _ _ Hg) as Hlg.
    rewrite <- Hlg.
    rewrite binary_kernel_address by (rewrite ?length_c_strides; lia).
    destruct (Forall2_lookup_l _ _ _ _ _ Hvb Hg) as (y' & Hy' & Hel).
    rewrite Hy in Hy'. injection Hy' as <-.
    unfold rd in Hel. destruct (dot gid sb <? 0) eqn:Hneg; [done|].
    apply Z.ltb_ge in Hneg.
    rewrite (grid_dot _ _ _ Hpos Hg).
    assert (ha < length (bufs w))%nat as Hha by (by eapply lookup_lt_Some).
    unfold bind.
    rewrite (load_same_buffer w ha d' _ v Hha) by (rewrite ?Nat2Z.id; done || lia).
    rewrite (load_with_buffer w hb ha srcB d' _ y Hb Hne Hneg Hel).
    rewrite store_with_buffer.
    + by rewrite Nat2Z.id.
    + done.
    + apply lookup_lt_Some in Hv. lia.
Qed.

Lemma binary_op_inplace_run w a b ao bo srcA srcB vb name f :
  objs w !! a = Some ao → objs w !! b = Some bo →
  bufs w !! buffer ao = Some srcA → bufs w !! buffer bo = Some srcB →
  buffer bo ≠ buffer ao → dense ao srcA →
  shape ao = shape bo → shape ao ≠ [] →
  (length (shape ao) ≤ max_work_item_dimensions)%nat →
  length (strides bo) = length (shape ao) →
  logical srcB (set_offset 0 bo) = Some vb →
  (name, f) ∈ [("add", f_add); ("sub", f_sub); ("truediv", f_div);
               ("mul", f_mul)] →
  ∃ c k,
    binary_op name a b (Some a) w =
    (Ok a, mkWorld (objs w) (<[buffer ao := zip_with f srcA vb]> (bufs w)) c k).
Proof.
  intros Ha Hb HsA HsB Hne (Hpos & Hst & Hoff & Hc & HlA) Heq Hsh Hrank Hlb
    Hvb Hname.
  unfold binary_op.
  rewrite (bind_ok _ _ _ _ _ (broadcast_same_shape w a b ao bo Ha Hb Heq)).
  cbn [fst snd].
  rewrite (bind_ok _ _ _ _ _ (deref_ok _ _ _ Ha)).
  rewrite (bind_ok _ _ _ _ _ (deref_ok _ _ _ Hb)).
  erewrite bind_ok; [|reflexivity].
  destruct (binary_table name f w Hname) as (expr & Hget & Hexpr).
  rewrite (bind_ok _ _ _ _ _ Hget), Hexpr.
  destruct (cl_build_ok "binary_op" (binary_op_src expr (length (strides ao))) w)
    as (k & c & b0 & Hbuild).
  rewrite (bind_ok _ _ _ _ _ Hbuild).
  set (w2 := mkWorld _ _ c b0).
  assert (objs w2 !! a = Some ao) as Hr by done.
  rewrite (bind_ok _ _ _ _ _ (deref_ok _ _ _ Hr)).
  unfold check_args. rewrite !Hst.
  rewrite length_interleave3 by (rewrite ?length_c_strides; lia).
  rewrite bool_decide_eq_true_2 by done.
  unfold bind at 1. cbn [ret].
  rewrite bool_decide_eq_false_2 by done.
  unfold enqueue_nd_range. rewrite bool_decide_eq_false_2 by done.
  rewrite bool_decide_eq_false_2
    by (unfold max_work_item_dimensions in *; cbn [length]; lia).
  rewrite forallb_pos by done.
  rewrite length_c_strides.
  erewrite bind_ok.
  2:{ apply (binary_launch_inplace w2 (buffer ao) (buffer bo) srcA srcB
               (shape ao) (strides bo) f vb); try done.
      rewrite Heq. exact Hvb. }
  exists c, b0. done.
Qed.

End InPlace.

(** X19.  In-place arithmetic writes into the buffer of the left operand:
    for a C-contiguous array [a] of offset 0 that covers its buffer, of
    rank 1, 2 or 3 (as many dimensions as the device has work dimensions),
    and a view [b] of the same shape on another buffer, [binary_op(op, a, b,
    ret=a)], the call behind [a op= b], returns [a] itself, creates no
    object and no buffer, and replaces every element of the buffer of [a]
    by the function of it and the element of [b] at the same index. *)
Theorem X19_inplace_binary_op {T} `{Float32 T} (w : world T) (a b : ref)
    (ao bo : GPUArray) (srcA srcB vb : list T) (name : string)
    (f : T → T → T) :
  objs w !! a = Some ao → objs w !! b = Some bo →
  bufs w !! buffer ao = Some srcA → bufs w !! buffer bo = Some srcB →
  buffer bo ≠ buffer ao → dense ao srcA →
  shape ao = shape bo → shape ao ≠ [] →
  (length (shape ao) ≤ max_work_item_dimensions)%nat →
  length (strides bo) = length (shape ao) →
  logical srcB (set_offset 0 bo) = Some vb →
  (name, f) ∈ [("add", f_add); ("sub", f_sub); ("truediv", f_div);
               ("mul", f_mul)] →
  ∃ c k,
    GPUArray_ibinop name a (OArray b) w =
    (Ok a, mkWorld (objs w) (<[buffer ao := zip_with f srcA vb]> (bufs w)) c k).
Proof.
  intros. unfold GPUArray_ibinop, as_gpu_array.
  erewrite bind_ok; [|reflexivity]. by eapply binary_op_inplace_run.
Qed.

Lemma X19_inplace_witness :
  ∃ c k,
    GPUArray_ibinop "sub" 0 (OArray 1) (w_arange2 [2; 2] [2; 2]) =
    (Ok 0%nat,
     mkWorld (objs (w_arange2 [2; 2] [2; 2]))
             (<[0%nat := [0; 0; 0; 0]]> (bufs (w_arange2 [2; 2] [2; 2]))) c k).
Proof.
  refine (X19_inplace_binary_op (w_arange2 [2; 2] [2; 2]) 0%nat 1%nat _ _
            [0; 1; 2; 3] [0; 1; 2; 3] [0; 1; 2; 3] "sub" f_sub
            eq_refl eq_refl eq_refl eq_refl _ _ eq_refl _ _ eq_refl eq_refl
            _).
  - discriminate.
  - repeat split; repeat constructor.
  - discriminate.
  - unfold max_work_item_dimensions. cbn. lia.
  - repeat constructor.
Defined.


(** ** Indexing twice *)

Section IndexTwice.
Context {T : Type} {F : Float32 T}.
Implicit Types w : world T.

(** A leading integer index can be split off the key. *)
Lemma spec_getitem_leading_int x i key y1 y :
  spec_getitem x [KInt i] = Some y1 → spec_getitem y1 key = Some y →
  spec_getitem x (KInt i :: key) = Some y ∧
  shape y1 = tail (shape x) ∧ strides y1 = tail (strides x).
Proof.
  unfold spec_getitem. cbn [spec_dims].
  destruct (shape x) as [|size sh'] eqn:Hsh; [done|].
  destruct (strides x) as [|stride st'] eqn:Hst; [done|].
  destruct (spec_key size (KInt i)) as [[idx|start stop]|] eqn:Hk; try done.
  - cbn [new_shape new_strides offset_delta sliced]. intros [= <-].
    cbn [shape strides buffer dtype_of offset c_contiguous f_contiguous].
    destruct (spec_dims sh' st' key) as [r|]; [|done].
    intros [= <-]. cbn [new_shape new_strides offset_delta sliced tail].
    split; [|done]. do 2 f_equal; first [lia | by destruct (sliced r)].
  - cbn [spec_key] in Hk. by destruct ((- size <=? i) && (i <? size)).
Qed.

Lemma getitem_twice_run w self x i key y1 y :
  objs w !! self = Some x → length (strides x) = length (shape x) →
  (S (length key) ≤ length (shape x))%nat →
  spec_getitem x [KInt i] = Some y1 → spec_getitem y1 key = Some y →
  (v <- GPUArray_getitem self [KInt i] ;; GPUArray_getitem v key) w =
    (Ok (S (length (objs w))), push (push w y1) y) ∧
  GPUArray_getitem self (KInt i :: key) w = (Ok (length (objs w)), push w y).
Proof.
  intros Hx Hst Hlen H1 H2.
  destruct (spec_getitem_leading_int x i key y1 y H1 H2) as (H12 & Hsh & Hstr).
  split.
  - rewrite (bind_ok _ _ _ _ _ (GPUArray_getitem_run w self x [KInt i] y1 Hx Hst
                                  ltac:(cbn; lia) H1)).
    rewrite (GPUArray_getitem_run (push w y1) (length (objs w)) y1 key y).
    + unfold push at 1 2; wsimpl. rewrite length_app. cbn [length].
      by rewrite Nat.add_1_r.
    + apply push_lookup.
    + rewrite Hsh, Hstr. destruct (shape x), (strides x); cbn in *; lia.
    + rewrite Hsh. destruct (shape x); cbn in *; lia.
    + done.
  - apply (GPUArray_getitem_run w self x (KInt i :: key) y Hx Hst);
      [cbn; lia|done].
Qed.

End IndexTwice.

(** X20.  Indexing composes: for an integer [i] and a key [k] that are
    valid, [x[i][k]] and [x[(i,) + k]] are views with the same descriptor
    (buffer, shape, strides, offset and flags); the first leaves the
    intermediate view [x[i]] behind as one more object. *)
Theorem X20_indexing_composes {T} `{Float32 T} (w : world T) (self : ref)
    (x y1 y : GPUArray) (i : Z) (key : list index_key) :
  objs w !! self = Some x → length (strides x) = length (shape x) →
  (S (length key) ≤ length (shape x))%nat →
  spec_getitem x [KInt i] = Some y1 → spec_getitem y1 key = Some y →
  (v <- GPUArray_getitem self [KInt i] ;; GPUArray_getitem v key) w =
    (Ok (S (length (objs w))), push (push w y1) y) ∧
  GPUArray_getitem self (KInt i :: key) w = (Ok (length (objs w)), push w y).
Proof. apply getitem_twice_run. Qed.

Lemma X20_indexing_witness :
  (v <- GPUArray_getitem 0 [KInt 1] ;; GPUArray_getitem v [KInt (-1)]) w_a23 =
    (Ok 2%nat,
     push (push w_a23 (mkGPUArray 0 [3] float32 [1] 3 true false))
          (mkGPUArray 0 [] float32 [] 5 true false)) ∧
  GPUArray_getitem 0 [KInt 1; KInt (-1)] w_a23 =
    (Ok 1%nat, push w_a23 (mkGPUArray 0 [] float32 [] 5 true false)).
Proof.
  exact (X20_indexing_composes w_a23 0%nat x_a23 _ _ 1 [KInt (-1)]
           eq_refl eq_refl ltac:(cbn; lia) eq_refl eq_refl).
Defined.


(** ** [squeeze] *)

Section Squeeze.
Context {T : Type} {F : Float32 T}.
Implicit Types w : world T.

Lemma omap_cons_eq {A B} (g : A → option B) (p : A) (l : list A) :
  omap g (p :: l) = match g p with Some y => y :: omap g l | None => omap g l end.
Proof. done. Qed.

Lemma zip_seq_cons (k : nat) (d : Z) (sh : list Z) :
  zip (seq k (length (d :: sh))) (d :: sh) =
  (k, d) :: zip (seq (S k) (length sh)) sh.
Proof. done. Qed.

(** The shape [squeeze] asks [reshape] for. *)
Lemma squeeze_shape_facts (axis : list Z) sh : ∀ k,
  let sh' :=
    omap (λ p : nat * Z,
            if negb (bool_decide (Z.of_nat p.1 ∈ axis)) || negb (p.2 =? 1)
            then Some p.2 else None)
         (zip (seq k (length sh)) sh) in
  prod sh' = prod sh ∧ sh' `sublist_of` sh ∧
  (Forall (λ d, 0 < d) sh → Forall (λ d, 0 < d) sh').
Proof.
  induction sh as [|d sh IH]; intros k.
  - cbn. split_and!; [done|constructor|done].
  - rewrite zip_seq_cons, omap_cons_eq. cbn [fst snd].
    destruct (IH (S k)) as (IH1 & IH2 & IH3). cbn zeta in *.
    destruct (negb (bool_decide (Z.of_nat k ∈ axis)) || negb (d =? 1)) eqn:E.
    + split_and!.
      * by rewrite !prod_cons, IH1.
      * by apply sublist_skip.
      * intros Hp. inversion Hp; subst. constructor; auto.
    + apply orb_false_iff in E as [_ E]. apply negb_false_iff, Z.eqb_eq in E.
      subst d. split_and!.
      * rewrite prod_cons, IH1. lia.
      * by apply sublist_cons.
      * intros Hp. inversion Hp; subst. auto.
Qed.

Lemma squeeze_all_shape (axis : list Z) sh : ∀ k,
  (∀ j, sh !! j = Some 1 → Z.of_nat (k + j) ∈ axis) →
  omap (λ p : nat * Z,
          if negb (bool_decide (Z.of_nat p.1 ∈ axis)) || negb (p.2 =? 1)
          then Some p.2 else None)
       (zip (seq k (length sh)) sh) = filter (λ d, d ≠ 1) sh.
Proof.
  induction sh as [|d sh IH]; intros k Hax; [done|].
  rewrite zip_seq_cons, omap_cons_eq. cbn [fst snd].
  rewrite IH.
  2:{ intros j Hj. replace (S k + j)%nat with (k + S j)%nat by lia.
      by apply Hax. }
  rewrite filter_cons. destruct (decide (d ≠ 1)) as [Hd|Hd].
  - by rewrite (proj2 (Z.eqb_neq _ _) Hd), orb_true_r.
  - assert (d = 1) as -> by lia.
    rewrite bool_decide_eq_true_2; [done|].
    rewrite <- (Nat.add_0_r k). by apply Hax.
Qed.

Lemma squeeze_none_axes sh j :
  sh !! j = Some 1 →
  Z.of_nat j ∈
    (λ a, if negb (a =? -1) then a else Z.of_nat (length sh) - 1) <$>
      (Z.of_nat <$> filter (λ i, sh !! i = Some 1) (seq 0 (length sh))).
Proof.
  intros Hj. apply list_elem_of_fmap. exists (Z.of_nat j). split.
  - by rewrite (proj2 (Z.eqb_neq _ _)) by lia.
  - apply list_elem_of_fmap. exists j. split; [done|].
    apply list_elem_of_filter. split; [done|].
    apply elem_of_seq. apply lookup_lt_Some in Hj. lia.
Qed.

Lemma squeeze_run w self x axis :
  objs w !! self = Some x → c_contiguous x || f_contiguous x = true →
  Forall (λ d, 0 < d) (shape x) →
  ∃ sh',
    GPUArray_squeeze self axis w =
      (Ok (length (objs w)), push w (reshaped x sh')) ∧
    sh' `sublist_of` shape x ∧ prod sh' = prod (shape x) ∧
    (axis = AxNone → sh' = filter (λ d, d ≠ 1) (shape x)).
Proof.
  intros Hx Hcf Hpos. unfold GPUArray_squeeze.
  rewrite (bind_ok _ _ _ _ _ (deref_ok _ _ _ Hx)).
  unfold list_eq_tuple.
  match goal with
  | |- context [GPUArray_reshape self ?s] => set (sh' := s)
  end.
  match type of sh' with _ => idtac end.
  assert (prod sh' = prod (shape x) ∧ sh' `sublist_of` shape x ∧
          Forall (λ d, 0 < d) sh') as (Hp & Hsub & Hpos').
  { destruct (squeeze_shape_facts
                ((λ a, if negb (a =? -1) then a
                       else Z.of_nat (length (shape x)) - 1) <$>
                   match axis with
                   | AxNone =>
                       Z.of_nat <$> filter (λ i, shape x !! i = Some 1)
                                           (seq 0 (length (shape x)))
                   | AxInt a => [a]
                   | AxSeq l => l
                   end) (shape x) 0) as (H1 & H2 & H3).
    split_and!; [exact H1|exact H2|by apply H3]. }
  exists sh'. split_and!; [|done|done|].
  - apply reshape_contiguous_run; [done|done| |done].
    intros Hin. rewrite Forall_forall in Hpos'. apply Hpos' in Hin. lia.
  - intros ->. unfold sh'. apply squeeze_all_shape.
    intros j Hj. by apply squeeze_none_axes.
Qed.

End Squeeze.

(** X21.  [squeeze] of a view that is flagged contiguous and has positive
    dimensions never fails: whatever the argument [axis], the shape it
    asks [reshape] for is the shape with some dimensions of size 1 deleted,
    so the size check passes.  The result is always a new view on the same
    buffer, also when no dimension is deleted; with [axis=None] every
    dimension of size 1 is deleted. *)
Theorem X21_squeeze_deletes_unit_dimensions {T} `{Float32 T} (w : world T)
    (self : ref) (x : GPUArray) (axis : squeeze_axis) :
  objs w !! self = Some x → c_contiguous x || f_contiguous x = true →
  Forall (λ d, 0 < d) (shape x) →
  ∃ sh',
    GPUArray_squeeze self axis w =
      (Ok (length (objs w)), push w (reshaped x sh')) ∧
    sh' `sublist_of` shape x ∧ prod sh' = prod (shape x) ∧
    (axis = AxNone → sh' = filter (λ d, d ≠ 1) (shape x)).
Proof. apply squeeze_run. Qed.

Lemma X21_squeeze_witness :
  ∃ sh',
    GPUArray_squeeze 0 AxNone (w_arange [1; 2; 3; 1]) =
      (Ok 1%nat,
       push (w_arange [1; 2; 3; 1])
            (reshaped (fresh_array 0 [1; 2; 3; 1] float32) sh')) ∧
    sh' `sublist_of` [1; 2; 3; 1] ∧ prod sh' = 6 ∧
    (AxNone = AxNone → sh' = [2; 3]).
Proof.
  refine (X21_squeeze_deletes_unit_dimensions (w_arange [1; 2; 3; 1]) 0%nat
            (fresh_array 0 [1; 2; 3; 1] float32) AxNone eq_refl eq_refl _).
  repeat constructor.
Defined.


(** ** Arrays of rank 0 *)

Section RankZero.
Context {T : Type} {F : Float32 T}.
Implicit Types w : world T.

Lemma unary_op_rank0 w a ao name f :
  objs w !! a = Some ao → shape ao = [] → strides ao = [] →
  (name, f) ∈ [("neg", f_neg); ("log", f_log); ("exp", f_exp)] →
  (unary_op name a None w).1 = Raise (CLError "INVALID_WORK_DIMENSION").
Proof.
  intros Hx Hsh Hst Hname. unfold unary_op.
  rewrite (bind_ok _ _ _ _ _ (deref_ok _ _ _ Hx)). rewrite Hsh, Hst.
  rewrite (bind_ok _ _ _ _ _ (GPUArray_init_nodata w [] _ eq_refl)).
  set (w1 := alloc w _ _).
  destruct (unary_table name f w1 Hname) as (expr & Hget & Hexpr).
  rewrite (bind_ok _ _ _ _ _ Hget), Hexpr.
  destruct (cl_build_ok "unary_op" (unary_op_src expr (length (@nil Z))) w1)
    as (k & c & b & Hb).
  rewrite (bind_ok _ _ _ _ _ Hb).
  erewrite bind_ok.
  2:{ apply deref_ok. unfold w1, alloc; wsimpl.
      by rewrite lookup_app_r, Nat.sub_diag. }
  done.
Qed.

Lemma binary_op_rank0 w a b ao bo x y srcA srcB name f :
  objs w !! a = Some ao → objs w !! b = Some bo →
  shape ao = [] → strides ao = [] → shape bo = [] → strides bo = [] →
  bufs w !! buffer ao = Some (x :: srcA) →
  bufs w !! buffer bo = Some (y :: srcB) →
  (name, f) ∈ [("add", f_add); ("sub", f_sub); ("truediv", f_div);
               ("mul", f_mul)] →
  ∃ c k,
    binary_op name a b None w =
    (Ok (length (objs w)),
     mkWorld (objs w ++ [fresh_array (length (bufs w)) [] (dtype_of ao)])
             (bufs w ++ [[f x y]]) c k).
Proof.
  intros Ha Hb Hsa Hta Hsb Htb HsA HsB Hname. unfold binary_op.
  rewrite (bind_ok _ _ _ _ _ (broadcast_same_shape w a b ao bo Ha Hb
                                ltac:(by rewrite Hsa, Hsb))).
  cbn [fst snd].
  rewrite (bind_ok _ _ _ _ _ (deref_ok _ _ _ Ha)).
  rewrite (bind_ok _ _ _ _ _ (deref_ok _ _ _ Hb)).
  rewrite Hsa, Hta, Htb.
  rewrite (bind_ok _ _ _ _ _ (GPUArray_init_nodata w [] _ eq_refl)).
  set (fx := fresh_array _ _ _).
  set (w1 := alloc w fx _).
  destruct (binary_table name f w1 Hname) as (expr & Hget & Hexpr).
  rewrite (bind_ok _ _ _ _ _ Hget), Hexpr.
  destruct (cl_build_ok "binary_op" (binary_op_src expr (length (@nil Z))) w1)
    as (k & c & b0 & Hbuild).
  rewrite (bind_ok _ _ _ _ _ Hbuild).
  set (w2 := mkWorld _ _ c b0).
  erewrite bind_ok.
  2:{ apply deref_ok. unfold w2, w1, alloc; wsimpl.
      by rewrite lookup_app_r, Nat.sub_diag. }
  erewrite bind_ok; [|reflexivity].
  assert (bufs w2 !! length (bufs w) = Some [f_uninit]) as Hd
    by (unfold w2, w1, alloc; wsimpl; by rewrite lookup_app_r, Nat.sub_diag).
  assert (bufs w2 !! buffer ao = Some (x :: srcA)) as HsA2
    by (unfold w2, w1, alloc; wsimpl; by apply lookup_app_l_Some).
  assert (bufs w2 !! buffer bo = Some (y :: srcB)) as HsB2
    by (unfold w2, w1, alloc; wsimpl; by apply lookup_app_l_Some).
  assert (buffer ao ≠ length (bufs w)) as Hna
    by (apply lookup_lt_Some in HsA; lia).
  assert (buffer bo ≠ length (bufs w)) as Hnb
    by (apply lookup_lt_Some in HsB; lia).
  erewrite bind_ok.
  2:{ rewrite bool_decide_eq_true_2 by done.
      unfold enqueue_nd_range. rewrite bool_decide_eq_false_2 by done.
  rewrite bool_decide_eq_false_2
    by (unfold max_work_item_dimensions in *; cbn [length]; lia).
      cbn [forallb grid for_each].
      change (seqZ 0 1 ≫= λ i, (i ::.) <$> [[]]) with [[0]].
      cbn [for_each]. unfold binary_kernel.
      change ((0 <? 1) && true) with true.
      cbn [length seq fmap list_fmap]. unfold dot. cbn [zip_with foldr].
      change (buffer fx) with (length (bufs w)).
      rewrite <- (with_buffer_id w2 (length (bufs w)) [f_uninit] Hd).
      erewrite bind_ok.
      2:{ erewrite bind_ok;
            [|by apply (load_with_buffer w2 _ _ (x :: srcA) _ 0 x)].
          erewrite bind_ok;
            [|by apply (load_with_buffer w2 _ _ (y :: srcB) _ 0 y)].
          apply store_with_buffer; [by eapply lookup_lt_Some|done]. }
      reflexivity. }
  exists c, b0. cbn [ret]. f_equal.
  unfold with_buffer, w2, w1, alloc, set_bufs; wsimpl. f_equal.
  rewrite insert_app_r_alt, Nat.sub_diag by lia. done.
Qed.

End RankZero.

(** X22.  On arrays of rank 0 (a scalar put on the device, or the view
    left by indexing every dimension) the two elementwise dispatchers
    differ: [binary_op] launches one work-item and returns a new array of
    rank 0 that holds the function of the first elements of the two
    buffers, [unary_op] passes the empty shape as the global size and the
    launch is rejected. *)
Theorem X22_rank_zero_operands {T} `{Float32 T} (w : world T) (a b : ref)
    (ao bo : GPUArray) (x y : T) (srcA srcB : list T) :
  objs w !! a = Some ao → objs w !! b = Some bo →
  shape ao = [] → strides ao = [] → shape bo = [] → strides bo = [] →
  bufs w !! buffer ao = Some (x :: srcA) →
  bufs w !! buffer bo = Some (y :: srcB) →
  (∀ name f,
     (name, f) ∈ [("add", f_add); ("sub", f_sub); ("truediv", f_div);
                  ("mul", f_mul)] →
     ∃ c k,
       binary_op name a b None w =
       (Ok (length (objs w)),
        mkWorld (objs w ++ [fresh_array (length (bufs w)) [] (dtype_of ao)])
                (bufs w ++ [[f x y]]) c k)) ∧
  (∀ name f,
     (name, f) ∈ [("neg", f_neg); ("log", f_log); ("exp", f_exp)] →
     (unary_op name a None w).1 = Raise (CLError "INVALID_WORK_DIMENSION")).
Proof.
  intros Ha Hb Hsa Hta Hsb Htb HsA HsB. split.
  - intros name f Hname. by eapply binary_op_rank0.
  - intros name f Hname. by eapply unary_op_rank0.
Qed.

Lemma X22_rank_zero_witness :
  (∃ c k,
     binary_op "add" 0 0 None (w_arange []) =
     (Ok 1%nat,
      mkWorld (objs (w_arange []) ++ [fresh_array 1 [] float32])
              (bufs (w_arange []) ++ [[0]]) c k)) ∧
  (unary_op "neg" 0 None (w_arange [])).1 =
    Raise (CLError "INVALID_WORK_DIMENSION").
Proof.
  pose proof (X22_rank_zero_operands (w_arange []) 0%nat 0%nat _ _ 0 0 [] []
                eq_refl eq_refl eq_refl eq_refl eq_refl eq_refl eq_refl eq_refl)
    as [H1 H2].
  split.
  - destruct (H1 "add" f_add ltac:(repeat constructor)) as (c & k & E).
    exists c, k. exact E.
  - exact (H2 "neg" f_neg ltac:(repeat constructor)).
Defined.


(** ** Index vectors of a launch *)

Section GridFacts.
Context {T : Type} {F : Float32 T}.
Implicit Types w : world T.

Lemma in_range_grid sh : ∀ idx,
  Forall2 (λ i d, 0 ≤ i < d) idx sh → idx ∈ grid sh.
Proof.
  induction sh as [|d ds IH]; intros idx H; inversion H as [|i ? idx' ? Hi H'];
    subst.
  - cbn. constructor.
  - cbn [grid]. apply list_elem_of_bind. exists i. split.
    + apply list_elem_of_fmap. exists idx'. split; [done|by apply IH].
    + apply elem_of_seqZ. lia.
Qed.

Lemma grid_nonempty sh : Forall (λ d, 0 < d) sh → grid sh ≠ [].
Proof.
  intros Hpos E. apply (f_equal length) in E.
  rewrite length_grid in E by done. pose proof (prod_pos _ Hpos). cbn in E. lia.
Qed.

End GridFacts.

(** ** Operators with host data on the right *)

Section HostOperand.
Context {T : Type} {F : Float32 T}.
Implicit Types w : world T.

Lemma binop_host_run w a ao srcA va data name f :
  objs w !! a = Some ao → bufs w !! buffer ao = Some srcA →
  shape ao ≠ [] → (length (shape ao) ≤ max_work_item_dimensions)%nat →
  Forall (λ d, 0 < d) (shape ao) →
  length (strides ao) = length (shape ao) →
  logical srcA (set_offset 0 ao) = Some va →
  length data = Z.to_nat (prod (shape ao)) →
  (name, f) ∈ [("add", f_add); ("sub", f_sub); ("truediv", f_div);
               ("mul", f_mul)] →
  let nd := mkNdarray (shape ao) float32 data in
  let hb := fresh_array (length (bufs w)) (shape ao) float32 in
  (∃ c k,
     GPUArray_binop name a (OHost nd) w =
     (Ok (S (length (objs w))),
      mkWorld (objs w ++ [hb; fresh_array (S (length (bufs w))) (shape ao)
                                          (dtype_of ao)])
              (bufs w ++ [data; zip_with f va data]) c k)) ∧
  (∃ c k,
     GPUArray_rbinop name a (OHost nd) w =
     (Ok (S (length (objs w))),
      mkWorld (objs w ++ [hb; fresh_array (S (length (bufs w))) (shape ao)
                                          float32])
              (bufs w ++ [data; zip_with f data va]) c k)).
Proof.
  intros Ha HsA Hsh Hrank Hpos Hla Hva Hld Hname nd hb.
  pose proof (prod_pos _ Hpos) as Hp.
  set (w1 := alloc w hb data).
  assert (GPUArray_init (FromHost nd) None float32 w = (Ok (length (objs w)), w1))
    as Hinit by (by apply GPUArray_init_host).
  assert (objs w1 !! a = Some ao) as Ha1
    by (unfold w1, alloc; wsimpl; by apply lookup_app_l_Some).
  assert (objs w1 !! length (objs w) = Some hb) as Hb1
    by (unfold w1, alloc; wsimpl; by rewrite lookup_app_r, Nat.sub_diag).
  assert (bufs w1 !! buffer ao = Some srcA) as HsA1
    by (unfold w1, alloc; wsimpl; by apply lookup_app_l_Some).
  assert (bufs w1 !! buffer hb = Some data) as HsB1
    by (unfold w1, alloc; wsimpl; cbn [buffer hb fresh_array];
        by rewrite lookup_app_r, Nat.sub_diag).
  assert (logical data (set_offset 0 hb) = Some data) as Hvb
    by (by apply (logical_fresh data)).
  assert (length (strides hb) = length (shape ao)) as Hlb
    by (cbn; by rewrite length_c_strides).
  assert (length (objs w1) = S (length (objs w))) as Hlo
    by (unfold w1, alloc; wsimpl; rewrite length_app; cbn; lia).
  assert (length (bufs w1) = S (length (bufs w))) as Hlbf
    by (unfold w1, alloc; wsimpl; rewrite length_app; cbn; lia).
  split.
  - destruct (binary_op_after_broadcast w1 w1 a (length (objs w)) _ _ ao hb
                srcA data va data name f
                (broadcast_same_shape w1 _ _ ao hb Ha1 Hb1 eq_refl)
                Ha1 Hb1 HsA1 HsB1 eq_refl Hsh Hrank Hpos Hla Hlb Hva Hvb Hname)
      as (c & k & Hrun).
    exists c, k. unfold GPUArray_binop, as_gpu_array.
    rewrite (bind_ok _ _ _ _ _ Hinit), Hrun, Hlo, Hlbf.
    unfold w1, alloc; wsimpl. by rewrite <- !app_assoc.
  - destruct (binary_op_after_broadcast w1 w1 (length (objs w)) a _ _ hb ao
                data srcA data va name f
                (broadcast_same_shape w1 _ _ hb ao Hb1 Ha1 eq_refl)
                Hb1 Ha1 HsB1 HsA1 eq_refl Hsh Hrank Hpos Hlb Hla Hvb Hva Hname)
      as (c & k & Hrun).
    exists c, k. unfold GPUArray_rbinop, as_gpu_array.
    rewrite (bind_ok _ _ _ _ _ Hinit), Hrun, Hlo, Hlbf.
    unfold w1, alloc; wsimpl. by rewrite <- !app_assoc.
Qed.

End HostOperand.

(** X24.  The operator methods with host data as the argument.  The view
    [a] has rank 1, 2 or 3 (as many dimensions as the device has work
    dimensions); the data has its shape and lies in memory in row-major
    order (a list, or a C-ordered array).  [a.__op__(data)] first puts the
    data on the device as a new array and then computes [op] of each
    element of [a] and the element of the data at the same index; the
    reflected method [a.__rop__(data)], which Python calls for [data op a]
    when the data is a list, computes it with the operands swapped.  Both
    leave two new arrays, the copy of the data and the result. *)
Theorem X24_operators_with_host_data {T} `{Float32 T} (w : world T) (a : ref)
    (ao : GPUArray) (srcA va data : list T) (name : string) (f : T → T → T) :
  objs w !! a = Some ao → bufs w !! buffer ao = Some srcA →
  shape ao ≠ [] → (length (shape ao) ≤ max_work_item_dimensions)%nat →
  Forall (λ d, 0 < d) (shape ao) →
  length (strides ao) = length (shape ao) →
  logical srcA (set_offset 0 ao) = Some va →
  length data = Z.to_nat (prod (shape ao)) →
  (name, f) ∈ [("add", f_add); ("sub", f_sub); ("truediv", f_div);
               ("mul", f_mul)] →
  let nd := mkNdarray (shape ao) float32 data in
  let hb := fresh_array (length (bufs w)) (shape ao) float32 in
  (∃ c k,
     GPUArray_binop name a (OHost nd) w =
     (Ok (S (length (objs w))),
      mkWorld (objs w ++ [hb; fresh_array (S (length (bufs w))) (shape ao)
                                          (dtype_of ao)])
              (bufs w ++ [data; zip_with f va data]) c k)) ∧
  (∃ c k,
     GPUArray_rbinop name a (OHost nd) w =
     (Ok (S (length (objs w))),
      mkWorld (objs w ++ [hb; fresh_array (S (length (bufs w))) (shape ao)
                                          float32])
              (bufs w ++ [data; zip_with f data va]) c k)).
Proof. apply binop_host_run. Qed.

Lemma X24_operators_witness :
  ∃ c k,
    GPUArray_rbinop "sub" 0 (OHost (mkNdarray [3] float32 [1; 1; 1])) w_v3 =
    (Ok 2%nat,
     mkWorld (objs w_v3 ++ [fresh_array 1 [3] float32; fresh_array 2 [3] float32])
             (bufs w_v3 ++ [[1; 1; 1]; [-9; -19; -29]]) c k).
Proof.
  refine (proj2 (X24_operators_with_host_data w_v3 0%nat x_v3 [10; 20; 30]
                   [10; 20; 30] [1; 1; 1] "sub" f_sub eq_refl eq_refl _ _ _
                   eq_refl eq_refl eq_refl _)).
  - discriminate.
  - unfold max_work_item_dimensions. cbn. lia.
  - repeat constructor.
  - repeat constructor.
Defined.


(** ** Broadcasting a view of lower rank *)

Section BroadcastRanks.
Context {T : Type} {F : Float32 T}.
Implicit Types w : world T.

Lemma GPUArray_expand_fails w self x target :
  objs w !! self = Some x → length (strides x) = length (shape x) →
  length target = length (shape x) → expandable (shape x) target = false →
  GPUArray_expand self target w = (Raise (AssertionError ""), push w x).
Proof.
  intros Hx Hst Hlen Hex. unfold GPUArray_expand.
  rewrite (bind_ok _ _ _ _ _ (copy_copy_ok _ _ _ Hx)).
  rewrite (bind_ok _ _ _ _ _ (deref_push w x)).
  rewrite bool_decide_eq_true_2 by done.
  unfold bind at 1. rewrite py_assert_true.
  unfold bind at 1. rewrite expand_loop_spec.
  2:{ rewrite length_zip, drop_0. lia. }
  unfold expandable in Hex. by rewrite Hex.
Qed.

Lemma prod_replicate_one n : prod (replicate n 1) = 1.
Proof. induction n as [|n IH]; [done|]. cbn [replicate]. rewrite prod_cons. lia. Qed.

Lemma broadcast_lower_rank_run w a b ao bo :
  objs w !! a = Some ao → objs w !! b = Some bo →
  (length (shape bo) < length (shape ao))%nat →
  length (strides ao) = length (shape ao) →
  c_contiguous bo || f_contiguous bo = true →
  Forall (λ d, 0 < d) (shape bo) →
  let sb := pad_left (length (shape ao)) (shape bo) in
  let bs := zip_with Z.max (shape ao) sb in
  let rb := reshaped bo sb in
  broadcast a b w =
  if negb (forallb (λ p : Z * Z, (p.1 =? p.2) || (p.1 =? 1) || (p.2 =? 1))
                   (zip (shape ao) (shape bo)))
  then (Raise (ValueError "Error broadcasting for {a.shape} and {b.shape}"),
        w)
  else if negb (expandable (shape ao) bs)
  then (Raise (AssertionError ""), push (push w rb) ao)
  else if negb (expandable sb bs)
  then (Raise (AssertionError ""),
        push (push (push w rb) (expanded ao bs)) rb)
  else (Ok (S (length (objs w)), S (S (length (objs w)))),
        push (push (push w rb) (expanded ao bs)) (expanded rb bs)).
Proof.
  intros Ha Hb Hrank Hla Hcf Hpb sb bs rb. unfold broadcast.
  rewrite (bind_ok _ _ _ _ _ (deref_ok _ _ _ Ha)).
  rewrite (bind_ok _ _ _ _ _ (deref_ok _ _ _ Hb)).
  rewrite bool_decide_eq_false_2 by (intros E; rewrite E in Hrank; lia).
  unfold bind at 1. rewrite broadcast_check_run.
  destruct (forallb _ (zip (shape ao) (shape bo))); [|done]. cbn [negb].
  rewrite Nat.max_l by lia. rewrite Nat.eqb_refl. cbn [negb].
  erewrite bind_ok; [|reflexivity].
  rewrite (proj2 (Nat.eqb_neq _ _)) by lia. cbn [negb].
  fold (pad_left (length (shape ao)) (shape bo)). fold sb.
  assert (length sb = length (shape ao)) as Hlsb.
  { unfold sb, pad_left. rewrite length_app, length_replicate. lia. }
  assert (GPUArray_reshape b sb w =
          (Ok (length (objs w)), push w (reshaped bo sb))) as Hre.
  { apply reshape_contiguous_run; [done|done| |].
    - unfold sb, pad_left. rewrite not_elem_of_app. split.
      + intros Hin%elem_of_replicate. lia.
      + intros Hin. rewrite Forall_forall in Hpb. apply Hpb in Hin. lia.
    - unfold sb, pad_left. rewrite prod_app, prod_replicate_one. lia. }
  rewrite (bind_ok _ _ _ _ _ Hre).
  set (w1 := push w (reshaped bo sb)).
  assert (objs w1 !! a = Some ao) as Ha1
    by (unfold w1, push; wsimpl; by apply lookup_app_l_Some).
  assert (objs w1 !! length (objs w) = Some (reshaped bo sb)) as Hb1
    by apply push_lookup.
  rewrite (bind_ok _ _ _ _ _ (deref_ok _ _ _ Ha1)).
  rewrite (bind_ok _ _ _ _ _ (deref_ok _ _ _ Hb1)).
  unfold tuple_ne_list. cbn [shape reshaped]. fold bs.
  assert (length bs = length (shape ao)) as Hlbs
    by (unfold bs; rewrite length_zip_with; lia).
  assert (length (objs w1) = S (length (objs w))) as Hlo
    by (unfold w1, push; wsimpl; rewrite length_app; cbn; lia).
  destruct (expandable (shape ao) bs) eqn:Ea; cbn [negb].
  2:{ by rewrite (bind_raise _ _ _ _ _
                    (GPUArray_expand_fails w1 a ao bs Ha1 Hla Hlbs Ea)). }
  rewrite (bind_ok _ _ _ _ _ (GPUArray_expand_run w1 a ao bs Ha1 Hla Hlbs Ea)).
  set (w2 := push w1 (expanded ao bs)).
  assert (objs w2 !! length (objs w) = Some (reshaped bo sb)) as Hb2
    by (unfold w2, push; wsimpl; by apply lookup_app_l_Some).
  rewrite (bind_ok _ _ _ _ _ (deref_ok _ _ _ Hb2)).
  cbn [shape reshaped].
  assert (length (strides (reshaped bo sb)) = length (shape (reshaped bo sb)))
    as Hlr.
  { cbn [strides shape reshaped].
    destruct (c_contiguous bo); [apply length_c_strides|apply length_f_strides]. }
  assert (length bs = length (shape (reshaped bo sb))) as Hlbs'
    by (cbn [shape reshaped]; lia).
  destruct (expandable sb bs) eqn:Eb; cbn [negb].
  - rewrite (bind_ok _ _ _ _ _ (GPUArray_expand_run w2 _ _ bs Hb2 Hlr Hlbs' Eb)).
    cbn [ret]. rewrite Hlo. unfold w2, push; wsimpl.
    rewrite length_app, Hlo. cbn [length].
    by replace (S (length (objs w)) + 1)%nat with (S (S (length (objs w)))) by lia.
  - by rewrite (bind_raise _ _ _ _ _
                  (GPUArray_expand_fails w2 _ _ bs Hb2 Hlr Hlbs' Eb)).
Qed.

End BroadcastRanks.

(** X25.  [broadcast] of a view [a] with a view [b] of lower rank that is
    flagged contiguous.  It raises [ValueError] and changes nothing when a
    dimension of the shorter shape is incompatible with the dimension of
    the longer shape at the same position counted from the left, before
    any padding.  Otherwise it reshapes [b] to its shape padded on the left
    with 1s (a new view [rb]) and expands [a] and [rb] to the elementwise
    maximum [bs] of the two shapes.  A dimension that would have to grow
    from a size other than 1 fails the assertion of [expand], which has
    copied the view by then; the copy and the views made before stay
    behind.  In every other case it returns the two views made last, of
    shape [bs], with stride 0 in the grown dimensions, on the buffers of
    the operands; the store holds the three new views and is otherwise
    unchanged. *)
Theorem X25_broadcast_of_lower_rank {T} `{Float32 T} (w : world T) (a b : ref)
    (ao bo : GPUArray) :
  objs w !! a = Some ao → objs w !! b = Some bo →
  (length (shape bo) < length (shape ao))%nat →
  length (strides ao) = length (shape ao) →
  c_contiguous bo || f_contiguous bo = true →
  Forall (λ d, 0 < d) (shape bo) →
  let sb := pad_left (length (shape ao)) (shape bo) in
  let bs := zip_with Z.max (shape ao) sb in
  let rb := reshaped bo sb in
  broadcast a b w =
  if negb (forallb (λ p : Z * Z, (p.1 =? p.2) || (p.1 =? 1) || (p.2 =? 1))
                   (zip (shape ao) (shape bo)))
  then (Raise (ValueError "Error broadcasting for {a.shape} and {b.shape}"),
        w)
  else if negb (expandable (shape ao) bs)
  then (Raise (AssertionError ""), push (push w rb) ao)
  else if negb (expandable sb bs)
  then (Raise (AssertionError ""),
        push (push (push w rb) (expanded ao bs)) rb)
  else (Ok (S (length (objs w)), S (S (length (objs w)))),
        push (push (push w rb) (expanded ao bs)) (expanded rb bs)).
Proof. apply broadcast_lower_rank_run. Qed.

Lemma X25_broadcast_witness :
  broadcast 0 1 (w_arange2 [3; 3] [3]) =
    (Ok (3%nat, 4%nat),
     push (push (push (w_arange2 [3; 3] [3])
                   (mkGPUArray 1 [1; 3] float32 [3; 1] 0 true true))
             (mkGPUArray 0 [3; 3] float32 [3; 1] 0 false false))
       (mkGPUArray 1 [3; 3] float32 [0; 1] 0 false false)) ∧
  broadcast 0 1 (w_arange2 [2; 3] [2]) =
    (Raise (AssertionError ""),
     push (push (push (w_arange2 [2; 3] [2])
                   (mkGPUArray 1 [1; 2] float32 [2; 1] 0 true true))
             (mkGPUArray 0 [2; 3] float32 [3; 1] 0 false false))
       (mkGPUArray 1 [1; 2] float32 [2; 1] 0 true true)).
Proof.
  split.
  - refine (X25_broadcast_of_lower_rank (w_arange2 [3; 3] [3]) 0%nat 1%nat _ _
              eq_refl eq_refl _ eq_refl eq_refl _).
    + cbn. lia.
    + repeat constructor.
  - refine (X25_broadcast_of_lower_rank (w_arange2 [2; 3] [2]) 0%nat 1%nat _ _
              eq_refl eq_refl _ eq_refl eq_refl _).
    + cbn. lia.
    + repeat constructor.
Defined.

(** ** Host arrays in column-major order *)

Section HostOrder.
Context {T : Type} {F : Float32 T}.
Implicit Types w : world T.

Lemma prod_reverse sh : prod (reverse sh) = prod sh.
Proof.
  induction sh as [|d ds IH]; [done|].
  rewrite reverse_cons, prod_app, IH, !prod_cons.
  change (prod []) with 1. lia.
Qed.

Lemma length_f_order_memory sh (data : list T) :
  Forall (λ d, 0 < d) sh →
  length (f_order_memory sh data) = Z.to_nat (prod sh).
Proof.
  intros Hpos. unfold f_order_memory.
  rewrite length_fmap, length_grid by (by apply Forall_reverse).
  by rewrite prod_reverse.
Qed.

Lemma GPUArray_init_hostF w sh dt data :
  0 < prod sh →
  GPUArray_init (FromHostF (mkNdarray sh dt data)) None dt w =
  (Ok (length (objs w)),
   alloc w (fresh_array (length (bufs w)) sh dt) (f_order_memory sh data)).
Proof.
  intros Hp.
  rewrite <- (GPUArray_init_host w sh dt (f_order_memory sh data) Hp).
  reflexivity.
Qed.

(** The memory of an F-ordered host array lists the elements of its
    transpose in row-major order. *)
Lemma f_order_memory_transposed (data : list T) h sh dt :
  Forall (λ d, 0 < d) sh → length data = Z.to_nat (prod sh) →
  logical data (transposed (fresh_array h sh dt)) =
  Some (f_order_memory sh data).
Proof.
  intros Hpos Hlen.
  destruct (logical_transposed_fresh data h sh dt Hpos Hlen) as [vals Hvals].
  rewrite Hvals. f_equal.
  unfold logical in Hvals. apply mapM_Some in Hvals.
  cbn [shape transposed fresh_array] in Hvals.
  unfold f_order_memory.
  apply list_eq_same_length with (length vals).
  - rewrite length_fmap. by apply Forall2_length in Hvals.
  - done.
  - intros j v v' Hj Hv Hv'.
    rewrite list_lookup_fmap in Hv'.
    destruct (grid (reverse sh) !! j) as [idx|] eqn:Hidx; [|done].
    injection Hv' as <-.
    destruct (Forall2_lookup_l _ _ _ _ _ Hvals Hidx) as (v2 & Hv2 & Hel).
    rewrite Hv in Hv2. injection Hv2 as <-.
    pose proof (length_grid_item _ _ _ Hidx) as Hli.
    rewrite length_reverse in Hli.
    rewrite element_at_transposed in Hel
      by (cbn [strides fresh_array]; rewrite length_c_strides; lia).
    unfold element_at in Hel. cbn [offset strides fresh_array] in Hel.
    rewrite Z.add_0_l in Hel.
    destruct (_ <? 0); [done|]. by rewrite Hel.
Qed.

End HostOrder.

(** X9.  Construction from host data and [storage()].  The buffer of the
    new array is a copy of the memory of the host array as it lies, and
    [storage()] returns it as a one-dimensional array of [prod shape]
    elements.  For data in row-major order (a list, a C-ordered array) that
    is the data: a round trip.  For an F-ordered array it is the data in
    column-major order, which lists the elements of the transpose in
    row-major order, while the new array gets the shape of the host array
    and C-contiguous strides.  Host data of size 0 cannot be put on the
    device: the buffer allocation is rejected and nothing is created. *)
Theorem X9_storage_of_host_data {T} `{Float32 T} (w : world T) (sh : list Z)
    (data : list T) :
  length data = Z.to_nat (prod sh) →
  (0 < prod sh →
   ((x <- GPUArray_from_numpy (mkNdarray sh float32 data) ;;
     GPUArray_storage x) w).1 = Ok (mkNdarray [prod sh] float32 data)) ∧
  (Forall (λ d, 0 < d) sh →
   GPUArray_init (FromHostF (mkNdarray sh float32 data)) None float32 w =
     (Ok (length (objs w)),
      alloc w (fresh_array (length (bufs w)) sh float32)
            (f_order_memory sh data)) ∧
   ((x <- GPUArray_init (FromHostF (mkNdarray sh float32 data)) None float32 ;;
     GPUArray_storage x) w).1 =
     Ok (mkNdarray [prod sh] float32 (f_order_memory sh data)) ∧
   logical data (transposed (fresh_array (length (bufs w)) sh float32)) =
     Some (f_order_memory sh data)) ∧
  (prod sh ≤ 0 →
   GPUArray_from_numpy (mkNdarray sh float32 data) w =
     (Raise (CLError "INVALID_BUFFER_SIZE"), w) ∧
   GPUArray_init (FromHostF (mkNdarray sh float32 data)) None float32 w =
     (Raise (CLError "INVALID_BUFFER_SIZE"), w)).
Proof.
  intros Hlen.
  assert (∀ d : list T, length d = Z.to_nat (prod sh) → 0 < prod sh →
          (GPUArray_storage (length (objs w))
             (alloc w (fresh_array (length (bufs w)) sh float32) d)).1 =
          Ok (mkNdarray [prod sh] float32 d)) as Hst.
  { intros d Hd Hp. unfold GPUArray_storage.
    erewrite bind_ok.
    2:{ apply deref_ok. unfold alloc; wsimpl.
        by rewrite lookup_app_r, Nat.sub_diag. }
    erewrite bind_ok.
    2:{ unfold read_buffer, alloc; wsimpl. cbn [buffer fresh_array].
        by rewrite lookup_app_r, Nat.sub_diag. }
    cbn [ret fst dtype_of fresh_array]. rewrite Hd, Z2Nat.id by lia. done. }
  split_and!.
  - intros Hp. unfold GPUArray_from_numpy.
    rewrite (bind_ok _ _ _ _ _ (GPUArray_init_host w sh float32 data Hp)).
    by apply Hst.
  - intros Hpos. pose proof (prod_pos _ Hpos) as Hp. split_and!.
    + by apply GPUArray_init_hostF.
    + rewrite (bind_ok _ _ _ _ _ (GPUArray_init_hostF w sh float32 data Hp)).
      apply Hst; [|done]. by apply length_f_order_memory.
    + by apply f_order_memory_transposed.
  - intros Hp.
    split; unfold GPUArray_from_numpy, GPUArray_init; cbn [nd_shape nd_data];
      unfold alloc_buffer;
      rewrite (proj2 (Z.leb_le _ _)) by (unfold itemsize; lia); done.
Qed.

Lemma X9_storage_witness :
  ((x <- GPUArray_from_numpy a23 ;; GPUArray_storage x) (world0 (T:=Z))).1 =
    Ok (mkNdarray [6] float32 [1; 2; 3; 4; 5; 6]) ∧
  ((x <- GPUArray_init (FromHostF (mkNdarray [3; 2] float32 [1; 4; 2; 5; 3; 6]))
          None float32 ;;
    GPUArray_storage x) (world0 (T:=Z))).1 =
    Ok (mkNdarray [6] float32 [1; 2; 3; 4; 5; 6]).
Proof.
  split.
  - exact (proj1 (X9_storage_of_host_data world0 [2; 3] [1; 2; 3; 4; 5; 6]
                    eq_refl) eq_refl).
  - refine (proj1 (proj2 (proj1 (proj2
              (X9_storage_of_host_data world0 [3; 2] [1; 4; 2; 5; 3; 6]
                 eq_refl)) _))).
    repeat constructor.
Defined.

(** ** Reductions *)

Section ReduceReturns.
Context {T : Type} {F : Float32 T}.
Implicit Types w : world T.

Lemma bind_Ok_inv {A B} (m : M T A) (k : A → M T B) w b w' :
  bind m k w = (Ok b, w') →
  ∃ a w1, m w = (Ok a, w1) ∧ k a w1 = (Ok b, w').
Proof.
  unfold bind. destruct (m w) as [[a|e] w1]; [|done]. intros H. by exists a, w1.
Qed.

(** Computations that leave the descriptors alone. *)
Definition keeps_objs {A} (m : M T A) : Prop := ∀ w, objs (m w).2 = objs w.

Lemma keeps_ret {A} (a : A) : keeps_objs (ret (T:=T) a).
Proof. done. Qed.

Lemma keeps_raise {A} e : keeps_objs (raise (T:=T) (A:=A) e).
Proof. done. Qed.

Lemma keeps_bind {A B} (m : M T A) (k : A → M T B) :
  keeps_objs m → (∀ a, keeps_objs (k a)) → keeps_objs (bind m k).
Proof.
  intros Hm Hk w. unfold bind. specialize (Hm w).
  destruct (m w) as [[a|e] w1]; cbn in *; [|done]. by rewrite Hk.
Qed.

Lemma keeps_load h i : keeps_objs (load (T:=T) h i).
Proof.
  intros w. unfold load, bind, read_buffer.
  destruct (bufs w !! h) as [b|]; [|done].
  destruct (i <? 0); [done|]. by destruct (b !! Z.to_nat i).
Qed.

Lemma keeps_store h i v : keeps_objs (store (T:=T) h i v).
Proof.
  intros w. unfold store, bind, read_buffer.
  destruct (bufs w !! h) as [b|]; [|done]. by destruct (_ || _).
Qed.

Lemma keeps_for_each {A} (l : list A) (body : A → M T unit) :
  (∀ x, keeps_objs (body x)) → keeps_objs (for_each l body).
Proof.
  intros Hb. induction l as [|x l IH]; [done|].
  cbn [for_each]. apply keeps_bind; [apply Hb|done].
Qed.

Lemma keeps_fold_m {A B} (f : B → A → M T B) (l : list A) :
  (∀ b x, keeps_objs (f b x)) → ∀ b, keeps_objs (fold_m f b l).
Proof.
  intros Hf. induction l as [|x l IH]; intros b; [done|].
  cbn [fold_m]. apply keeps_bind; [apply Hf|done].
Qed.

Lemma keeps_scratch_load B i : keeps_objs (scratch_load (T:=T) B i).
Proof. intros w. unfold scratch_load. by destruct (i <? 0). Qed.

Lemma keeps_scratch_store B i v : keeps_objs (scratch_store (T:=T) B i v).
Proof. intros w. unfold scratch_store. by destruct (i <? 0). Qed.

Lemma keeps_reduce_group f axis gs ls A C slots grp :
  keeps_objs (reduce_group (T:=T) f axis gs ls A C slots grp).
Proof.
  unfold reduce_group. apply keeps_bind.
  { apply keeps_fold_m. intros B lid. apply keeps_bind; [apply keeps_load|].
    intros v. apply keeps_scratch_store. }
  intros B. apply keeps_bind.
  { apply keeps_fold_m. intros B1 stride. apply keeps_fold_m. intros B2 lid.
    apply keeps_bind; [apply keeps_scratch_load|]. intros a.
    apply keeps_bind; [apply keeps_scratch_load|]. intros b.
    destruct (_ <? _); [apply keeps_scratch_store|apply keeps_ret]. }
  intros B1. apply keeps_for_each. intros lid.
  destruct (_ =? _); [|apply keeps_ret].
  apply keeps_bind; [apply keeps_scratch_load|]. intros v. apply keeps_store.
Qed.

Lemma keeps_enqueue_groups gs ls (group : list Z → M T unit) :
  (∀ grp, keeps_objs (group grp)) → keeps_objs (enqueue_groups gs ls group).
Proof.
  intros Hg. unfold enqueue_groups.
  repeat (case_match; [apply keeps_raise|]). by apply keeps_for_each.
Qed.

(** What a launch with an explicit local size asks of the sizes. *)
Lemma enqueue_groups_Ok gs ls (group : list Z → M T unit) w u w' :
  enqueue_groups gs ls group w = (Ok u, w') →
  Forall (λ d, 0 < d) gs ∧
  Forall (λ p : Z * Z, p.1 `mod` p.2 = 0) (zip gs ls).
Proof.
  unfold enqueue_groups. intros H.
  destruct (bool_decide (gs = [])); [done|].
  destruct (bool_decide _); [done|].
  destruct (forallb (λ d, 0 <? d) gs) eqn:E1; [|done]. cbn [negb] in H.
  destruct (forallb _ (zip gs ls)) eqn:E2; [|done].
  split.
  - apply Forall_forall. intros d Hd.
    rewrite forallb_forall in E1. apply Z.ltb_lt, E1.
    by apply list_elem_of_In.
  - apply Forall_forall. intros p Hp.
    rewrite forallb_forall in E2. apply Z.eqb_eq, E2.
    by apply list_elem_of_In.
Qed.

Lemma GPUArray_init_nodata_Ok w sh dt r w' :
  GPUArray_init NoData (Some sh) dt w = (Ok r, w') →
  r = length (objs w) ∧
  w' = alloc w (fresh_array (length (bufs w)) sh dt)
             (replicate (Z.to_nat (prod sh)) f_uninit).
Proof.
  intros H. destruct (decide (0 < prod sh)) as [Hp|Hp].
  - rewrite GPUArray_init_nodata in H by done. by injection H as <- <-.
  - unfold GPUArray_init, alloc_buffer in H.
    rewrite (proj2 (Z.leb_le _ _)) in H by (unfold itemsize; lia). done.
Qed.

Lemma reduce_rec_returns fuel :
  ∀ name x axis keepdims w xo r w',
    objs w !! x = Some xo →
    reduce_rec fuel name x None axis keepdims w = (Ok r, w') →
    ∃ L k, reduced_length xo axis = Some L ∧ L = group_size ^ Z.of_nat (S k).
Proof.
  induction fuel as [|fuel IH]; intros name x axis keepdims w xo r w' Hx Hrun;
    [done|].
  cbn [reduce_rec] in Hrun.
  rewrite (bind_ok _ _ _ _ _ (deref_ok _ _ _ Hx)) in Hrun.
  set (ax := match axis with
             | None => (0, [prod (shape xo)])
             | Some ax => (ax, shape xo)
             end) in Hrun.
  assert (reduced_length xo axis = py_index ax.2 ax.1) as HL0
    by (by destruct axis).
  destruct (py_index ax.2 ax.1) as [L|] eqn:HL; [|done].
  erewrite bind_ok in Hrun; [|reflexivity].
  apply bind_Ok_inv in Hrun as (r0 & w1 & Hinit & Hrun).
  apply GPUArray_init_nodata_Ok in Hinit as [-> ->].
  set (ret_shape := reduce_ret_shape _ _ _ _) in Hrun.
  set (ro := fresh_array _ _ _) in Hrun.
  set (w1 := alloc w ro _) in Hrun.
  apply bind_Ok_inv in Hrun as (expr & w1' & Hget & Hrun).
  assert (w1' = w1) as ->.
  { unfold dict_get in Hget. destruct (list_find _ _) as [[? ?]|]; [|done].
    by injection Hget. }
  destruct (reduce_expr expr) as [f|]; [|done].
  destruct (ax.1 <? 0) eqn:Hneg; [done|]. apply Z.ltb_ge in Hneg.
  destruct (cl_build_ok "reduce_op" (reduce_op_src expr (length ax.2) ax.1) w1)
    as (k & c & b & Hb).
  rewrite (bind_ok _ _ _ _ _ Hb) in Hrun.
  set (w2 := mkWorld _ _ c b) in Hrun.
  assert (objs w2 !! length (objs w) = Some ro) as Hr
    by (unfold w2, w1, alloc; wsimpl; by rewrite lookup_app_r, Nat.sub_diag).
  rewrite (bind_ok _ _ _ _ _ (deref_ok _ _ _ Hr)) in Hrun.
  destruct (local_mem_size (dtype_of xo) L <=? 0); [done|].
  erewrite bind_ok in Hrun; [|reflexivity].
  apply bind_Ok_inv in Hrun as (u & w3 & Henq & Hrun).
  match type of Henq with
  | enqueue_groups ?gs ?ls ?g _ = _ =>
      pose proof (keeps_enqueue_groups gs ls g
                    (λ grp, keeps_reduce_group _ _ _ _ _ _ _ grp) w2) as Hobjs
  end.
  rewrite Henq in Hobjs. cbn [snd] in Hobjs.
  apply enqueue_groups_Ok in Henq as [Hpos Hmod].
  unfold py_index in HL. rewrite (proj2 (Z.ltb_ge _ _) Hneg) in HL.
  assert (0 < L) as HLpos by (by eapply (Forall_lookup_1 _ _ _ _ Hpos)).
  assert (L `mod` group_size = 0) as HLmod.
  { eapply (Forall_lookup_1 _ _ (Z.to_nat ax.1) (L, group_size)) in Hmod;
      [done|].
    rewrite lookup_zip_with, HL. cbn [option_bind mbind].
    rewrite list_lookup_imap, HL. cbn [fmap option_fmap option_map].
    by rewrite Z2Nat.id, Z.eqb_refl by lia. }
  rewrite HL0. exists L.
  destruct (1 <? L `div` group_size) eqn:Hn.
  - apply Z.ltb_lt in Hn.
    destruct (IH name (length (objs w)) (Some ax.1) keepdims w3 ro r w')
      as (L' & k' & HL' & Hk'); [by rewrite Hobjs|done|].
    exists (S k'). split; [done|].
    cbn [reduced_length] in HL'.
    assert (L' = L `div` group_size) as ->.
    { unfold py_index in HL'. rewrite (proj2 (Z.ltb_ge _ _) Hneg) in HL'.
      change (shape ro) with ret_shape in HL'.
      unfold ret_shape, reduce_ret_shape in HL'.
      rewrite (proj2 (Z.leb_gt _ _)) in HL' by lia.
      rewrite list_lookup_imap, HL in HL'.
      cbn [fmap option_fmap option_map] in HL'.
      rewrite Z2Nat.id, Z.eqb_refl in HL' by lia. by injection HL'. }
    rewrite (Z.div_mod L group_size) by done.
    rewrite HLmod, Z.add_0_r, Hk'.
    rewrite (Nat2Z.inj_succ (S k')), Z.pow_succ_r by lia. done.
  - apply Z.ltb_ge in Hn. exists 0%nat. split; [done|].
    change (group_size ^ Z.of_nat 1) with 16. unfold group_size in *.
    change (2 ^ 4) with 16 in *.
    pose proof (Z.div_mod L 16 ltac:(done)). lia.
Qed.

End ReduceReturns.

Lemma method_returns {T} `{Float32 T} (name : string) (w : world T)
    (self : ref) (so : GPUArray) axis keepdims r w' :
  objs w !! self = Some so →
  (so <- deref self ;;
   arr <- (if negb (c_contiguous so) then GPUArray_contiguous self
           else ret self) ;;
   reduce_op name arr None axis keepdims) w = (Ok r, w') →
  c_contiguous so = true ∧
  ∃ L k, reduced_length so axis = Some L ∧ L = group_size ^ Z.of_nat (S k).
Proof.
  intros Hs Hrun.
  rewrite (bind_ok _ _ _ _ _ (deref_ok _ _ _ Hs)) in Hrun.
  destruct (c_contiguous so); cbn [negb] in Hrun.
  - split; [done|]. erewrite bind_ok in Hrun; [|reflexivity].
    by eapply reduce_rec_returns.
  - apply bind_Ok_inv in Hrun as (arr & w1 & Hc & _).
    pose proof (not_ok_contiguous_op self w) as Hno.
    unfold GPUArray_contiguous in Hc. by rewrite Hc in Hno.
Qed.

(** X23.  Reductions.  [reduce_op] launches work-groups of 16 items along
    the reduced axis and recurses on the partial results while there is
    more than one group.  A launch needs the reduced length to be a
    positive multiple of 16, so [reduce_op] with a new result array, and
    with it [sum] and [max], return only when the reduced length is a power
    of 16 (16, 256, 4096, ...); [sum] and [max] also need a view flagged
    C-contiguous, since every other view goes through [contiguous()].  One
    group of 16 elements is reduced in four rounds with strides 8, 4, 2, 1,
    each round combining the first half of the remaining values with the
    second half; the result array has shape [(1,)], or [()] without
    [keepdims], and holds that one value.  The kernel uses 16 floats of
    scratch memory where the call reserves [length / 16]; the run relies on
    the device completing the accesses beyond the reserved size.  For the
    256 integers from 0, two passes give the sum 32640 and the maximum
    255. *)
Theorem X23_reductions_of_full_groups :
  (∀ (T : Type) (F : Float32 T) (w : world T) (x : ref) (xo : GPUArray)
     (name : string) (axis : option Z) (keepdims : bool) (r : ref)
     (w' : world T),
     objs w !! x = Some xo →
     (reduce_op name x None axis keepdims w = (Ok r, w') →
      ∃ L k, reduced_length xo axis = Some L ∧
             L = group_size ^ Z.of_nat (S k)) ∧
     (GPUArray_sum x axis keepdims w = (Ok r, w') ∨
      GPUArray_max x axis keepdims w = (Ok r, w') →
      c_contiguous xo = true ∧
      ∃ L k, reduced_length xo axis = Some L ∧
             L = group_size ^ Z.of_nat (S k))) ∧
  (∀ (T : Type) (F : Float32 T) (l : list T) (keepdims : bool),
     length l = 16%nat →
     let w0 := (GPUArray_init (FromHost (mkNdarray [16] float32 l)) None
                  float32 world0).2 in
     let created := [fresh_array 0 [16] float32;
                     fresh_array 1 (if keepdims then [1] else []) float32] in
     (GPUArray_sum 0 None keepdims w0).1 = Ok 1%nat ∧
     objs (GPUArray_sum 0 None keepdims w0).2 = created ∧
     bufs (GPUArray_sum 0 None keepdims w0).2 = [l; tree_reduce f_add 4 l] ∧
     (GPUArray_max 0 None keepdims w0).1 = Ok 1%nat ∧
     objs (GPUArray_max 0 None keepdims w0).2 = created ∧
     bufs (GPUArray_max 0 None keepdims w0).2 = [l; tree_reduce f_max 4 l]) ∧
  (GPUArray_sum 0 None true (w_arange [256])).1 = Ok 2%nat ∧
  bufs (GPUArray_sum 0 None true (w_arange [256])).2 !! 2%nat = Some [32640] ∧
  (GPUArray_max 0 None true (w_arange [256])).1 = Ok 2%nat ∧
  bufs (GPUArray_max 0 None true (w_arange [256])).2 !! 2%nat = Some [255].
Proof.
  split_and!.
  - intros T F w x xo name axis keepdims r w' Hx. split.
    + by apply reduce_rec_returns.
    + intros [Hrun|Hrun].
      * by apply (method_returns "sum" w x xo axis keepdims r w').
      * by apply (method_returns "max" w x xo axis keepdims r w').
  - intros T F l keepdims Hl.
    do 16 (destruct l as [|? l]; [done|]). destruct l; [|done].
    destruct keepdims; repeat split; vm_compute; reflexivity.
  - vm_compute; reflexivity.
  - vm_compute; reflexivity.
  - vm_compute; reflexivity.
  - vm_compute; reflexivity.
Qed.

Lemma X23_reductions_witness :
  (∃ L k, reduced_length (fresh_array 0 [16] float32) None = Some L ∧
          L = group_size ^ Z.of_nat (S k)) ∧
  bufs (GPUArray_sum 0 None true (w_arange [16])).2
    = [arange 16; [120]] ∧
  bufs (GPUArray_max 0 None false (w_arange [16])).2
    = [arange 16; [15]].
Proof.
  pose proof X23_reductions_of_full_groups as (H1 & H2 & _).
  split.
  - refine (proj1 (H1 Z Z_float32 (w_arange [16]) 0%nat
                     (fresh_array 0 [16] float32) "sum" None true 1%nat
                     (reduce_op "sum" 0 None None true (w_arange [16])).2
                     eq_refl) _).
    vm_compute. reflexivity.
  - split.
    + exact (proj1 (proj2 (proj2 (H2 Z Z_float32 (arange 16) true eq_refl)))).
    + exact (proj2 (proj2 (proj2 (proj2 (proj2
               (H2 Z Z_float32 (arange 16) false eq_refl)))))).
Defined.
